(** * iWork backend: channel gateway and background task manager

    A shallow embedding of [backend/core/task_manager.py] and
    [backend/channels/gateway.py], with the properties of the event buffer,
    event subscription, rate limiter, access control, session resolution and
    channel life cycle stated and proved over it.

    Python dictionaries are finite maps ([gmap string pyval]); the objects
    that the code shares by reference (the subscriber queues) live in an
    explicit heap; [async] functions run atomically between two suspension
    points, which is how a single asyncio event loop schedules them. *)

From stdpp Require Import gmap strings list fin_maps pretty.
From Stdlib Require Import QArith.

Set Warnings "-register-all".
Open Scope Z_scope.

(** ** Python values *)

Module Py.

(** The values that reach the modelled code: JSON-like data. *)
Inductive pyval :=
| PNone
| PBool (b : bool)
| PInt (z : Z)
| PStr (s : string)
| PList (l : list pyval)
| PDict (d : gmap string pyval).

(** A Python [dict] with string keys. *)
Abbreviation dict := (gmap string pyval).

(** [d.get(k)]: [None] of Python when the key is absent. *)
Definition get (d : dict) (k : string) : pyval :=
  default PNone (d !! k).

(** [d.get(k, dflt)]. *)
Definition get_or (d : dict) (k : string) (dflt : pyval) : pyval :=
  default dflt (d !! k).

(** [v == s] for a string literal [s]: only a [str] equals a [str]. *)
Definition eq_str (v : pyval) (s : string) : bool :=
  match v with
  | PStr s' => bool_decide (s' = s)
  | _ => false
  end.

(** Truthiness, as [if v:] and [not v] use it. *)
Definition truthy (v : pyval) : bool :=
  match v with
  | PNone => false
  | PBool b => b
  | PInt z => negb (z =? 0)
  | PStr s => negb (bool_decide (s = ""))
  | PList l => match l with [] => false | _ => true end
  | PDict d => negb (bool_decide (d = ∅))
  end.

(** [v in [s1, ..., sn]] for a list of string literals. *)
Definition in_strs (v : pyval) (l : list string) : bool :=
  existsb (eq_str v) l.

(** The exceptions the modelled code can meet; all derive from
    [Exception]. *)
Inductive exn :=
| ValueError (msg : string)
| TypeError
| AttributeError
| KeyError (key : string)
| StoreError        (* raised by the persisted store *)
| AdapterError      (* raised by a channel adapter *)
| EngineError.      (* raised by the agent engine *)

(** What an expression evaluates to: a value or a raised exception. *)
Inductive result (A : Type) :=
| Ok (a : A)
| Raise (e : exn).
Arguments Ok {A} a.
Arguments Raise {A} e.

(** [s in v] for a string [s]: membership in a list, substring of a string,
    key of a dictionary; [TypeError] on a value that is no container. *)
Definition contains (s : string) (v : pyval) : result bool :=
  match v with
  | PList l => Ok (existsb (λ x, eq_str x s) l)
  | PStr t => Ok (bool_decide (is_Some (String.index 0 s t)))
  | PDict d => Ok (bool_decide (is_Some (d !! s)))
  | PNone | PBool _ | PInt _ => Raise TypeError
  end.

(** A value used as a number: [int], and [bool] as 0 or 1; anything else
    makes the arithmetic or the comparison raise [TypeError]. *)
Definition as_int (v : pyval) : result Z :=
  match v with
  | PInt z => Ok z
  | PBool b => Ok (if b then 1 else 0)
  | _ => Raise TypeError
  end.

(** [a == b] on JSON-like values. *)
Fixpoint py_eqb (a b : pyval) : bool :=
  match a, b with
  | PNone, PNone => true
  | PBool x, PBool y => bool_decide (x = y)
  | PInt x, PInt y => bool_decide (x = y)
  | PBool x, PInt y | PInt y, PBool x => bool_decide (y = if x then 1 else 0)
  | PStr x, PStr y => bool_decide (x = y)
  | PList l1, PList l2 =>
      (fix go (l1 l2 : list pyval) : bool :=
         match l1, l2 with
         | [], [] => true
         | x :: l1', y :: l2' => py_eqb x y && go l1' l2'
         | _, _ => false
         end) l1 l2
  | PDict d1, PDict d2 =>
      bool_decide (size d1 = size d2)
      && map_fold (λ k x acc,
                     acc && match d2 !! k with
                            | Some y => py_eqb x y
                            | None => false
                            end) true d1
  | _, _ => false
  end.

(** [a or b] *)
Definition py_or (a b : pyval) : pyval := if truthy a then a else b.

(** A [str] is held as the bytes of its UTF-8 form, while [len] and the
    slices of Python count characters.  A character is one byte that is not
    of the form [10xxxxxx], followed by its bytes of that form. *)
Definition continuation (b : Ascii.ascii) : bool :=
  match b with
  | Ascii.Ascii _ _ _ _ _ _ b6 b7 => b7 && negb b6
  end.

(** [len(s)] *)
Fixpoint py_len (s : string) : nat :=
  match s with
  | EmptyString => 0
  | String b s' => ((if continuation b then 0 else 1) + py_len s')%nat
  end.

(** [s[:n]] *)
Fixpoint py_take (n : nat) (s : string) : string :=
  match s with
  | EmptyString => EmptyString
  | String b s' =>
      if continuation b then String b (py_take n s')
      else match n with
           | O => EmptyString
           | S n' => String b (py_take n' s')
           end
  end.

End Py.
Import Py.

(** ** The task manager ([core/task_manager.py]) *)

Module TaskManager.

(** An event is a [dict]; the manager reads its ["type"] and ["status"]. *)
Abbreviation event := (gmap string pyval).

(** [asyncio.Queue] objects are shared by reference between the subscriber
    lists and the generators that read them: they are addresses in a heap. *)
Abbreviation qid := nat (only parsing).

Record task_manager := mkTM {
  _running_tasks : gset string;
  _event_buffers : gmap string (list event);
  _subscribers : gmap string (list qid);
  _message_queues : gmap string (list dict);
  queue_heap : gmap qid (list event);
  next_qid : qid
}.

(** [self._max_buffer_size = 100] *)
Definition _max_buffer_size : nat := 100.

(** [self._buffer_retention_seconds = 300] *)
Definition _buffer_retention_seconds : Z := 300.

(** [TaskManager.__init__] *)
Definition init : task_manager :=
  mkTM ∅ ∅ ∅ ∅ ∅ 0%nat.

Definition set_event_buffers (f : gmap string (list event) → gmap string (list event))
    (tm : task_manager) : task_manager :=
  mkTM (_running_tasks tm) (f (_event_buffers tm)) (_subscribers tm)
       (_message_queues tm) (queue_heap tm) (next_qid tm).

Definition set_subscribers (f : gmap string (list qid) → gmap string (list qid))
    (tm : task_manager) : task_manager :=
  mkTM (_running_tasks tm) (_event_buffers tm) (f (_subscribers tm))
       (_message_queues tm) (queue_heap tm) (next_qid tm).

Definition set_queue_heap (f : gmap qid (list event) → gmap qid (list event))
    (tm : task_manager) : task_manager :=
  mkTM (_running_tasks tm) (_event_buffers tm) (_subscribers tm)
       (_message_queues tm) (f (queue_heap tm)) (next_qid tm).

(** [await queue.put(event)] on an unbounded queue: append, never blocks. *)
Definition queue_put (q : qid) (e : event) (tm : task_manager) : task_manager :=
  set_queue_heap (alter (λ l, l ++ [e]) q) tm.

(** The buffer part of [_emit_event]: append, then [pop(0)] when the
    length exceeds [_max_buffer_size]. *)
Definition buffer_append (buf : list event) (e : event) : list event :=
  let buf' := buf ++ [e] in
  if decide (_max_buffer_size < length buf')%nat then drop 1 buf' else buf'.

(** [_emit_event(task_id, event)] *)
Definition _emit_event (task_id : string) (e : event) (tm : task_manager)
    : task_manager :=
  let tm1 :=
    match _event_buffers tm !! task_id with
    | Some buf => set_event_buffers <[task_id := buffer_append buf e]> tm
    | None => tm
    end in
  match _subscribers tm1 !! task_id with
  | Some qs => foldl (λ t q, queue_put q e t) tm1 qs
  | None => tm1
  end.

(** A run of emissions, on any tasks, in the given order. *)
Definition emit_all (evs : list (string * event)) (tm : task_manager)
    : task_manager :=
  foldl (λ t te, _emit_event te.1 te.2 t) tm evs.

(** The events of [evs] that were emitted on [task_id], in order. *)
Definition events_of (task_id : string) (evs : list (string * event))
    : list event :=
  (filter (λ te, te.1 = task_id) evs).*2.

(** The last [n] elements of a list. *)
Definition last_n {A} (n : nat) (l : list A) : list A :=
  drop (length l - n) l.

(** *** Subscription ([subscribe]) *)

(** The test that ends the live loop of [subscribe]:
    [type == "status" and status in [completed, failed, cancelled]], or
    [type in [result, error]]. *)
Definition is_terminal (e : event) : bool :=
  (eq_str (get e "type") "status"
     && in_strs (get e "status") ["completed"; "failed"; "cancelled"])
  || in_strs (get e "type") ["result"; "error"].

(** [l.remove(x)]: drops the first occurrence; [None] is Python's
    [ValueError] when there is none. *)
Fixpoint list_remove_first (x : qid) (l : list qid) : option (list qid) :=
  match l with
  | [] => None
  | y :: l' =>
      if decide (y = x) then Some l'
      else cons y <$> list_remove_first x l'
  end.

(** [queue = asyncio.Queue()]: a new, empty queue at a fresh address. *)
Definition new_queue (tm : task_manager) : qid * task_manager :=
  (next_qid tm,
   mkTM (_running_tasks tm) (_event_buffers tm) (_subscribers tm)
        (_message_queues tm) (<[next_qid tm := []]> (queue_heap tm))
        (S (next_qid tm))).

(** [if task_id not in self._subscribers: self._subscribers[task_id] = []]
    followed by [self._subscribers[task_id].append(queue)]. *)
Definition register (task_id : string) (q : qid) (tm : task_manager)
    : task_manager :=
  set_subscribers
    (λ subs, <[task_id := default [] (subs !! task_id) ++ [q]]> subs) tm.

(** The [finally] block: [if task_id in self._subscribers:
    self._subscribers[task_id].remove(queue)]. *)
Definition deregister (task_id : string) (q : qid) (tm : task_manager)
    : option task_manager :=
  match _subscribers tm !! task_id with
  | None => Some tm
  | Some qs =>
      match list_remove_first q qs with
      | Some qs' => Some (set_subscribers <[task_id := qs']> tm)
      | None => None
      end
  end.

(** Where the body of the asynchronous generator [subscribe] is suspended. *)
Inductive gen_state :=
| NotStarted                        (* created, body not entered *)
| AtReplayYield (rest : list event) (* at [yield] in the [for] loop; [rest] is still to come *)
| AtQueueGet                        (* at [await queue.get()], queue empty *)
| AtLiveYield (e : event)           (* at [yield event] in the [while] loop *)
| Finished.

(** A generator object of [subscribe(task_id)]: its argument, its local
    [queue], its control state, and (ghost) what it has yielded so far. *)
Record generator := mkGen {
  g_task : string;
  g_queue : qid;
  g_state : gen_state;
  g_out : list event
}.

(** What one [__anext__] gives the consumer. *)
Inductive anext_result :=
| Yielded (e : event)
| Pending                 (* blocked in [queue.get()] *)
| StopAsyncIteration
| Raised.                 (* [ValueError] of [list.remove] *)

(** The live loop from its head: [event = await queue.get(); yield event]. *)
Definition live (g : generator) (tm : task_manager)
    : anext_result * generator * task_manager :=
  match queue_heap tm !! g_queue g with
  | Some (e :: r) =>
      (Yielded e,
       mkGen (g_task g) (g_queue g) (AtLiveYield e) (g_out g ++ [e]),
       set_queue_heap <[g_queue g := r]> tm)
  | _ => (Pending, mkGen (g_task g) (g_queue g) AtQueueGet (g_out g), tm)
  end.

(** The [for event in buffered_events: yield event] loop with [rest] left,
    running into the live loop when nothing is left. *)
Definition replay (rest : list event) (g : generator) (tm : task_manager)
    : anext_result * generator * task_manager :=
  match rest with
  | e :: rest' =>
      (Yielded e,
       mkGen (g_task g) (g_queue g) (AtReplayYield rest') (g_out g ++ [e]), tm)
  | [] => live g tm
  end.

(** Leaving the [try] block: the [finally] clause. *)
Definition finish (g : generator) (tm : task_manager)
    : anext_result * generator * task_manager :=
  match deregister (g_task g) (g_queue g) tm with
  | Some tm' =>
      (StopAsyncIteration, mkGen (g_task g) (g_queue g) Finished (g_out g), tm')
  | None => (Raised, mkGen (g_task g) (g_queue g) Finished (g_out g), tm)
  end.

(** [__anext__]: run the body of [subscribe] from where it is suspended to
    its next suspension.  No other coroutine runs in between. *)
Definition anext (g : generator) (tm : task_manager)
    : anext_result * generator * task_manager :=
  match g_state g with
  | NotStarted =>
      let '(q, tm1) := new_queue tm in
      let tm2 := register (g_task g) q tm1 in
      let buffered_events := default [] (_event_buffers tm2 !! g_task g) in
      replay buffered_events (mkGen (g_task g) q NotStarted (g_out g)) tm2
  | AtReplayYield rest => replay rest g tm
  | AtQueueGet => live g tm
  | AtLiveYield e => if is_terminal e then finish g tm else live g tm
  | Finished => (StopAsyncIteration, g, tm)
  end.

(** [aclose()], or the consumer being cancelled: [GeneratorExit] is raised
    at the suspension point and the [finally] clause runs. *)
Definition aclose (g : generator) (tm : task_manager)
    : generator * task_manager :=
  match g_state g with
  | NotStarted => (mkGen (g_task g) (g_queue g) Finished (g_out g), tm)
  | Finished => (g, tm)
  | _ => let '(_, g', tm') := finish g tm in (g', tm')
  end.

(** *** The manager with its subscribers *)

(** The manager together with the generator objects handed out by
    [subscribe]. *)
Record system := mkSys {
  sys_tm : task_manager;
  sys_gens : gmap nat generator
}.

(** What the event loop can run next. *)
Inductive action :=
| AEmit (task_id : string) (e : event)   (* the task emits an event *)
| ASubscribe (gid : nat) (task_id : string) (* [subscribe(task_id)] is called *)
| ANext (gid : nat)                      (* a consumer asks for its next event *)
| AClose (gid : nat).                    (* a consumer goes away *)

Definition step (a : action) (s : system) : system :=
  match a with
  | AEmit task_id e => mkSys (_emit_event task_id e (sys_tm s)) (sys_gens s)
  | ASubscribe gid task_id =>
      match sys_gens s !! gid with
      | Some _ => s
      | None =>
          mkSys (sys_tm s)
                (<[gid := mkGen task_id 0%nat NotStarted []]> (sys_gens s))
      end
  | ANext gid =>
      match sys_gens s !! gid with
      | Some g =>
          let '(_, g', tm') := anext g (sys_tm s) in
          mkSys tm' (<[gid := g']> (sys_gens s))
      | None => s
      end
  | AClose gid =>
      match sys_gens s !! gid with
      | Some g =>
          let '(g', tm') := aclose g (sys_tm s) in
          mkSys tm' (<[gid := g']> (sys_gens s))
      | None => s
      end
  end.

Definition run (acts : list action) (s : system) : system :=
  foldl (λ s a, step a s) s acts.

(** The events that [acts] emits on [task_id], in order. *)
Definition emitted (task_id : string) (acts : list action) : list event :=
  omap (λ a, match a with
             | AEmit t e => if decide (t = task_id) then Some e else None
             | _ => None
             end) acts.

(** The shortest prefix of [l] that ends with a terminal event; all of
    [l] when it has none. *)
Fixpoint upto_terminal (l : list event) : list event :=
  match l with
  | [] => []
  | e :: l' => if is_terminal e then [e] else e :: upto_terminal l'
  end.

(** *** Vocabulary for the subscription invariant *)

(** How often the queue [q] occurs in a subscriber list. *)
Definition occ (q : qid) (qs : list qid) : nat :=
  length (filter (λ x, x = q) qs).

(** A generator that holds a registered queue. *)
Definition active (g : generator) : Prop :=
  match g_state g with
  | NotStarted | Finished => False
  | _ => True
  end.

(** A generator whose body has returned. *)
Definition finished (g : generator) : bool :=
  match g_state g with Finished => true | _ => false end.

(** Queue addresses are handed out in increasing order: whatever is in a
    subscriber list or held by a running generator was allocated before. *)
Definition allocated (s : system) : Prop :=
  (∀ t qs q, _subscribers (sys_tm s) !! t = Some qs → q ∈ qs →
             (q < next_qid (sys_tm s))%nat) ∧
  (∀ gid g, sys_gens s !! gid = Some g → active g →
            (g_queue g < next_qid (sys_tm s))%nat).

(** No event of [l] ends a subscription. *)
Definition no_terminal (l : list event) : Prop :=
  Forall (λ e, is_terminal e = false) l.

(** The state of the subscription [gid] of [tid], started when the buffer
    held [B], after the events [L] were emitted on [tid] since. *)
Definition delivery (gid : nat) (tid : string) (B L : list event)
    (s : system) : Prop :=
  ∃ g, sys_gens s !! gid = Some g ∧ g_task g = tid ∧
    allocated s ∧
    (g_queue g < next_qid (sys_tm s))%nat ∧
    (∀ gid' g', gid' ≠ gid → sys_gens s !! gid' = Some g' → active g' →
                g_queue g' ≠ g_queue g) ∧
    (∀ t qs, _subscribers (sys_tm s) !! t = Some qs →
       occ (g_queue g) qs =
         if decide (t = tid) then (if finished g then 0%nat else 1%nat)
         else 0%nat) ∧
    (finished g = false → is_Some (_subscribers (sys_tm s) !! tid)) ∧
    match g_state g with
    | NotStarted => False
    | AtReplayYield rest =>
        g_out g ++ rest = B ∧ queue_heap (sys_tm s) !! g_queue g = Some L
    | AtQueueGet =>
        ∃ L1 L2, L = L1 ++ L2 ∧ g_out g = B ++ L1 ∧ no_terminal L1 ∧
          queue_heap (sys_tm s) !! g_queue g = Some L2
    | AtLiveYield e =>
        ∃ L1 L2, L = L1 ++ e :: L2 ∧ g_out g = B ++ L1 ++ [e] ∧
          no_terminal L1 ∧
          queue_heap (sys_tm s) !! g_queue g = Some L2
    | Finished =>
        ∃ L1 e L2, L = L1 ++ e :: L2 ∧ g_out g = B ++ L1 ++ [e] ∧
          no_terminal L1 ∧ is_terminal e = true
    end.

(** [tm'] differs from [tm] in nothing that concerns the queue [q0]. *)
Definition q_frame (q0 : nat) (tm tm' : task_manager) : Prop :=
  queue_heap tm' !! q0 = queue_heap tm !! q0 ∧
  (next_qid tm ≤ next_qid tm')%nat ∧
  (∀ t, is_Some (_subscribers tm !! t) → is_Some (_subscribers tm' !! t)) ∧
  (∀ t qs', _subscribers tm' !! t = Some qs' →
     occ q0 qs' = occ q0 (default [] (_subscribers tm !! t))).

End TaskManager.

(** ** Concrete runs of the task manager *)

Module TaskExamples.
Import TaskManager.

(** A non-terminal engine event, numbered to tell events apart. *)
Definition progress_event (n : nat) : event :=
  {[ "type" := PStr "assistant"; "seq" := PInt (Z.of_nat n) ]}.

(** The engine's final event. *)
Definition result_event : event :=
  {[ "type" := PStr "result"; "subtype" := PStr "success" ]}.

(** The manager right after [create_task] set up the task ["t"]. *)
Definition fresh_task : task_manager :=
  mkTM {[ "t" ]} {[ "t" := [] ]} {[ "t" := [] ]} {[ "t" := [] ]} ∅ 0%nat.

Definition fresh_sys : system := mkSys fresh_task ∅.

(** [n] progress events [0 .. n-1] emitted on ["t"]. *)
Definition emit_progress (n : nat) : list action :=
  (λ i, AEmit "t" (progress_event i)) <$> seq 0 n.

(** 150 emissions on ["t"]. *)
Definition burst : list (string * event) :=
  (λ i, ("t", progress_event i)) <$> seq 0 150.

(** 101 events are emitted before anyone subscribes; the subscriber then
    reads everything it can, the task ends, the subscriber reads on. *)
Definition overflow_acts : list action :=
  emit_progress 101
  ++ [ASubscribe 0%nat "t"]
  ++ replicate 100 (ANext 0%nat)
  ++ [AEmit "t" result_event; ANext 0%nat; ANext 0%nat].

(** What the subscriber of [overflow_acts] has been given at the end. *)
Definition overflow_out : list event :=
  default [] (g_out <$> sys_gens (run overflow_acts fresh_sys) !! 0%nat).

(** The number that [progress_event] put into an event. *)
Definition seq_of (e : event) : pyval := get e "seq".

(** A subscriber that races with three emissions and the final event. *)
Definition race_sys : system :=
  step (ASubscribe 0%nat "t") (run (emit_progress 2) fresh_sys).

Definition race_acts : list action :=
  [AEmit "t" (progress_event 2); ANext 0%nat; AEmit "t" (progress_event 3);
   ANext 0%nat; ANext 0%nat; AEmit "t" result_event; ANext 0%nat;
   ANext 0%nat].

End TaskExamples.

(** ** The channel gateway ([channels/gateway.py]) *)

(** *** Access control and rate limiting *)

Module Access.

Section CheckAccess.

(** [json.loads] of the standard library: [None] is [JSONDecodeError]. *)
Variable json_loads : string → option pyval.

(** [if isinstance(x, str): try: x = json.loads(x) except
    json.JSONDecodeError: x = []] *)
Definition parse_if_str (x : pyval) : pyval :=
  match x with
  | PStr s => default (PList []) (json_loads s)
  | _ => x
  end.

(** [ChannelGateway._check_access(channel_config, sender_id)] *)
Definition _check_access (channel_config : dict) (sender_id : string)
    : result bool :=
  let access_mode := get_or channel_config "access_mode" (PStr "allowlist") in
  if eq_str access_mode "open" then Ok true
  else if eq_str access_mode "allowlist" then
    let allowed :=
      parse_if_str (get_or channel_config "allowed_senders" (PList [])) in
    contains sender_id allowed
  else if eq_str access_mode "blocklist" then
    let blocked :=
      parse_if_str (get_or channel_config "blocked_senders" (PList [])) in
    match contains sender_id blocked with
    | Ok b => Ok (negb b)
    | Raise e => Raise e
    end
  else Ok false.

(** The field [field] of a channel record holds the sender list [l]: as a
    list of strings, or serialized; a missing field and a serialized form
    that does not parse stand for the empty list. *)
Definition holds_senders (field : option pyval) (l : list string) : Prop :=
  (field = None ∧ l = []) ∨
  field = Some (PList (PStr <$> l)) ∨
  ∃ s, field = Some (PStr s) ∧
       (json_loads s = Some (PList (PStr <$> l)) ∨
        (json_loads s = None ∧ l = [])).

End CheckAccess.

End Access.

Module RateLimiter.

Open Scope Q_scope.

#[global] Instance Qlt_decision (x y : Q) : Decision (x < y).
Proof.
  destruct (Qlt_le_dec x y) as [H|H]; [left; exact H | right].
  apply Qle_not_lt. exact H.
Defined.

(** [_TokenBucketRateLimiter._windows]: per sender, the timestamps of the
    admitted calls, oldest first.  Timestamps are exact rationals; the
    rounding of floating-point clock readings is not modelled. *)
Abbreviation windows := (gmap string (list Q)).

(** [_TokenBucketRateLimiter.is_allowed(sender_id, max_per_minute)], with
    the reading [now] of [time.time()] made explicit.  The [defaultdict]
    gets an entry for the sender as soon as it is read. *)
Definition is_allowed (sender_id : string) (max_per_minute : Z) (now : Q)
    (w : windows) : bool * windows :=
  if decide (max_per_minute ≤ 0)%Z then (true, w)
  else
    let window := default [] (w !! sender_id) in
    let cutoff := now - 60 in
    let window' := filter (λ ts, cutoff < ts) window in
    if decide (max_per_minute ≤ Z.of_nat (length window'))%Z
    then (false, <[sender_id := window']> w)
    else (true, <[sender_id := window' ++ [now]]> w).

(** Successive calls for one sender at the given clock readings. *)
Fixpoint calls (sender_id : string) (max_per_minute : Z) (times : list Q)
    (w : windows) : list bool * windows :=
  match times with
  | [] => ([], w)
  | now :: times' =>
      let '(b, w1) := is_allowed sender_id max_per_minute now w in
      let '(bs, w2) := calls sender_id max_per_minute times' w1 in
      (b :: bs, w2)
  end.

(** The sender's window, as the [defaultdict] gives it. *)
Definition window_of (sender_id : string) (w : windows) : list Q :=
  default [] (w !! sender_id).

(** All the clock readings of [l] lie within one 60-second window: none is
    60 seconds or more older than another. *)
Definition within_window (l : list Q) : Prop :=
  ∀ t t', t ∈ l → t' ∈ l → t - 60 < t'.

(** [_TokenBucketRateLimiter.clear(sender_id)] *)
Definition clear (sender_id : option string) (w : windows) : windows :=
  match sender_id with
  | Some s => if bool_decide (s = "") then ∅ else delete s w
  | None => ∅
  end.

End RateLimiter.

(** ** The process state and its collaborators *)

Module Runtime.

(** *** The persisted store *)

(** Modelled from the spec: the record store ([database/sqlite.py] is not
    part of the sources at hand).  One table per entity type, a record
    being a [dict] kept under its ["id"]. *)
Record store := mkStore {
  channels : gmap string dict;
  channel_sessions : gmap string dict;
  channel_messages : gmap string dict;
  agents : gmap string dict;
  tasks : gmap string dict;
  sessions : gmap string dict
}.

(** A table of the store: how to read it and how to replace it. *)
Record table := mkTable {
  t_get : store → gmap string dict;
  t_set : gmap string dict → store → store
}.

Definition Channels : table :=
  mkTable channels
    (λ m s, mkStore m (channel_sessions s) (channel_messages s) (agents s)
                    (tasks s) (sessions s)).
Definition ChannelSessions : table :=
  mkTable channel_sessions
    (λ m s, mkStore (channels s) m (channel_messages s) (agents s)
                    (tasks s) (sessions s)).
Definition ChannelMessages : table :=
  mkTable channel_messages
    (λ m s, mkStore (channels s) (channel_sessions s) m (agents s)
                    (tasks s) (sessions s)).
Definition Agents : table :=
  mkTable agents
    (λ m s, mkStore (channels s) (channel_sessions s) (channel_messages s) m
                    (tasks s) (sessions s)).
Definition Tasks : table :=
  mkTable tasks
    (λ m s, mkStore (channels s) (channel_sessions s) (channel_messages s)
                    (agents s) m (sessions s)).
Definition Sessions : table :=
  mkTable sessions
    (λ m s, mkStore (channels s) (channel_sessions s) (channel_messages s)
                    (agents s) (tasks s) m).

(** *** Messages and adapters ([channels/base.py]) *)

Record InboundMessage := mkInbound {
  in_channel_id : string;
  in_external_chat_id : string;
  in_external_sender_id : string;
  in_external_thread_id : option string;
  in_external_message_id : option string;
  in_text : string;
  in_sender_display_name : option string;
  in_attachments : list dict;
  in_metadata : dict
}.

Record OutboundMessage := mkOutbound {
  out_channel_id : string;
  out_external_chat_id : string;
  out_external_thread_id : option string;
  out_reply_to_message_id : option string;
  out_text : string
}.

(** A running [ChannelAdapter], seen from the gateway: what [stop()] and
    [send_message(outbound)] do. *)
Record adapter := mkAdapter {
  ad_stop : result unit;
  ad_send : OutboundMessage → result pyval
}.

(** The arguments of one [agent_manager.run_conversation(...)] call. *)
Record engine_call := mkCall {
  ec_agent_id : pyval;
  ec_user_message : pyval;
  ec_content : pyval;
  ec_session_id : pyval;
  ec_enable_skills : bool;
  ec_enable_mcp : bool;
  ec_add_dirs : pyval;
  ec_channel_context : option dict
}.

(** A background unit handed to [asyncio.create_task]: [_run_task] with
    its arguments. *)
Record run_task_args := mkRunTask {
  rt_task_id : string;
  rt_agent_id : string;
  rt_message : option string;
  rt_content : option (list dict);
  rt_enable_skills : bool;
  rt_enable_mcp : bool;
  rt_add_dirs : option (list string)
}.

(** *** The world *)

(** The two singletons ([channel_gateway], [task_manager]), the store, and
    what the outside will answer.  [faults] says, for the store calls to
    come, which of them fail with a store-level error; [tick] numbers the
    consultations of the outside (clock, identifiers, engine, file
    system).  [engine_log], [exchange_log] and [outbox] only record what
    happened: the code never reads them. *)
Record world := mkWorld {
  db : store;
  faults : list bool;
  tick : nat;
  _adapters : gmap string adapter;
  _tasks : gmap string bool;
  _channel_cache : gmap string dict;
  _windows : RateLimiter.windows;
  tm : TaskManager.task_manager;
  spawned : list run_task_args;
  engine_log : list engine_call;
  exchange_log : list (pyval * bool);
  outbox : list OutboundMessage
}.

Definition set_db (f : store → store) (w : world) : world :=
  mkWorld (f (db w)) (faults w) (tick w) (_adapters w) (_tasks w)
    (_channel_cache w) (_windows w) (tm w) (spawned w) (engine_log w)
    (exchange_log w) (outbox w).
Definition set_faults (fs : list bool) (w : world) : world :=
  mkWorld (db w) fs (tick w) (_adapters w) (_tasks w)
    (_channel_cache w) (_windows w) (tm w) (spawned w) (engine_log w)
    (exchange_log w) (outbox w).
Definition set_tick (n : nat) (w : world) : world :=
  mkWorld (db w) (faults w) n (_adapters w) (_tasks w)
    (_channel_cache w) (_windows w) (tm w) (spawned w) (engine_log w)
    (exchange_log w) (outbox w).
Definition set_adapters (f : gmap string adapter → gmap string adapter)
    (w : world) : world :=
  mkWorld (db w) (faults w) (tick w) (f (_adapters w)) (_tasks w)
    (_channel_cache w) (_windows w) (tm w) (spawned w) (engine_log w)
    (exchange_log w) (outbox w).
Definition set_tasks (f : gmap string bool → gmap string bool)
    (w : world) : world :=
  mkWorld (db w) (faults w) (tick w) (_adapters w) (f (_tasks w))
    (_channel_cache w) (_windows w) (tm w) (spawned w) (engine_log w)
    (exchange_log w) (outbox w).
Definition set_channel_cache (f : gmap string dict → gmap string dict)
    (w : world) : world :=
  mkWorld (db w) (faults w) (tick w) (_adapters w) (_tasks w)
    (f (_channel_cache w)) (_windows w) (tm w) (spawned w) (engine_log w)
    (exchange_log w) (outbox w).
Definition set_windows (ws : RateLimiter.windows) (w : world) : world :=
  mkWorld (db w) (faults w) (tick w) (_adapters w) (_tasks w)
    (_channel_cache w) ws (tm w) (spawned w) (engine_log w)
    (exchange_log w) (outbox w).
Definition set_tm (f : TaskManager.task_manager → TaskManager.task_manager)
    (w : world) : world :=
  mkWorld (db w) (faults w) (tick w) (_adapters w) (_tasks w)
    (_channel_cache w) (_windows w) (f (tm w)) (spawned w) (engine_log w)
    (exchange_log w) (outbox w).
Definition add_spawned (u : run_task_args) (w : world) : world :=
  mkWorld (db w) (faults w) (tick w) (_adapters w) (_tasks w)
    (_channel_cache w) (_windows w) (tm w) (spawned w ++ [u]) (engine_log w)
    (exchange_log w) (outbox w).
Definition add_engine_call (c : engine_call) (w : world) : world :=
  mkWorld (db w) (faults w) (tick w) (_adapters w) (_tasks w)
    (_channel_cache w) (_windows w) (tm w) (spawned w) (engine_log w ++ [c])
    (exchange_log w) (outbox w).
Definition add_exchange (x : pyval * bool) (w : world) : world :=
  mkWorld (db w) (faults w) (tick w) (_adapters w) (_tasks w)
    (_channel_cache w) (_windows w) (tm w) (spawned w) (engine_log w)
    (exchange_log w ++ [x]) (outbox w).
Definition add_outbox (o : OutboundMessage) (w : world) : world :=
  mkWorld (db w) (faults w) (tick w) (_adapters w) (_tasks w)
    (_channel_cache w) (_windows w) (tm w) (spawned w) (engine_log w)
    (exchange_log w) (outbox w ++ [o]).

(** What the outside answers, by consultation number: identifiers, the
    clock, the agent engine (the events of the stream and the exception
    that ends it, if any), the file system, and the library functions
    [json.loads] and [str]. *)
Record env := mkEnv {
  uuid4_str : nat → string;         (* [str(uuid4())] *)
  uuid4_hex : nat → string;         (* [uuid4().hex] *)
  time_time : nat → Q;              (* [time.time()] *)
  now_isoformat : nat → string;     (* [datetime.now().isoformat()] *)
  run_conversation : nat → engine_call → list dict * option exn;
  stage_file : nat → pyval → pyval → pyval → option string;
  json_loads : string → option pyval;
  py_str : pyval → string
}.

(** *** Computations *)

(** A coroutine run to completion: it changes the world and returns a
    value or raises.  What was changed before an exception stays changed. *)
Definition M (A : Type) : Type := world → result A * world.

#[global] Instance M_ret : MRet M := λ A a w, (Ok a, w).

#[global] Instance M_bind : MBind M := λ A B f m w,
  match m w with
  | (Ok a, w') => f a w'
  | (Raise e, w') => (Raise e, w')
  end.

Definition raise {A} (e : exn) : M A := λ w, (Raise e, w).

(** A value that may be an exception, inside a computation. *)
Definition lift {A} (r : result A) : M A := λ w, (r, w).

(** [try: m except Exception: h] *)
Definition try_except {A} (m : M A) (h : exn → M A) : M A := λ w,
  match m w with
  | (Ok a, w') => (Ok a, w')
  | (Raise e, w') => h e w'
  end.

Definition get_world : M world := λ w, (Ok w, w).
Definition modify (f : world → world) : M unit := λ w, (Ok tt, f w).

(** The number of the next consultation of the outside. *)
Definition next_tick : M nat := λ w, (Ok (tick w), set_tick (S (tick w)) w).

(** Every store operation starts here: it fails when the store says so. *)
Definition store_call : M unit := λ w,
  match faults w with
  | true :: fs => (Raise StoreError, set_faults fs w)
  | false :: fs => (Ok tt, set_faults fs w)
  | [] => (Ok tt, w)
  end.

(** *** Store operations *)

Section StoreOps.
Variable E : env.

(** Modelled from the spec: [get] returns the record or [None]. *)
Definition db_get (T : table) (id : string) : M (option dict) :=
  _ ← store_call;
  w ← get_world;
  mret (t_get T (db w) !! id).

(** Modelled from the spec: [put] assigns an id if absent and returns the
    stored record. *)
Definition db_put (T : table) (row : dict) : M dict :=
  _ ← store_call;
  '(id, row') ← match row !! "id" with
                | Some (PStr id) => mret (id, row)
                | _ => n ← next_tick;
                       mret (uuid4_str E n,
                             <["id" := PStr (uuid4_str E n)]> row)
                end;
  _ ← modify (set_db (λ s, t_set T (<[id := row']> (t_get T s)) s));
  mret row'.

(** Modelled from the spec: [update] returns the merged record or [None]
    if missing. *)
Definition db_update (T : table) (id : string) (updates : dict)
    : M (option dict) :=
  _ ← store_call;
  w ← get_world;
  match t_get T (db w) !! id with
  | Some row =>
      let merged := updates ∪ row in
      _ ← modify (set_db (λ s, t_set T (<[id := merged]> (t_get T s)) s));
      mret (Some merged)
  | None => mret None
  end.

(** [v] is the string [o], or [None] when there is none. *)
Definition is_opt_str (v : pyval) (o : option string) : bool :=
  match o with
  | Some s => eq_str v s
  | None => match v with PNone => true | _ => false end
  end.

(** Every channel session is kept under its ["id"] and names an internal
    session. *)
Definition sessions_wf (s : store) : Prop :=
  ∀ k row, channel_sessions s !! k = Some row →
    row !! "id" = Some (PStr k) ∧ is_Some (row !! "session_id").

(** The rows of a table that satisfy [p], in key order. *)
Definition select (p : dict → bool) (m : gmap string dict) : list dict :=
  List.filter p (map_to_list m).*2.

(** A channel session belongs to one external conversation. *)
Definition same_conversation (channel_id external_chat_id : string)
    (external_thread_id : option string) (row : dict) : bool :=
  eq_str (get row "channel_id") channel_id
  && eq_str (get row "external_chat_id") external_chat_id
  && is_opt_str (get row "external_thread_id") external_thread_id.

(** Modelled from the spec: the lookup of a ChannelSession by
    [(channel_id, external_chat_id, external_thread_id)]. *)
Definition find_by_external (channel_id external_chat_id : string)
    (external_thread_id : option string) : M (option dict) :=
  _ ← store_call;
  w ← get_world;
  mret (head (select (same_conversation channel_id external_chat_id
                        external_thread_id)
                     (channel_sessions (db w)))).

(** The number of channel sessions of a channel in the store. *)
Definition session_count (channel_id : string) (s : store) : Z :=
  Z.of_nat (length (select (λ row, eq_str (get row "channel_id") channel_id)
                           (channel_sessions s))).

(** Modelled from the spec: the number of sessions of a channel. *)
Definition count_by_channel (channel_id : string) : M Z :=
  _ ← store_call;
  w ← get_world;
  mret (session_count channel_id (db w)).

(** Modelled from the spec: [session_manager.store_session] persists a new
    internal session record. *)
Definition store_session (session_id : string) (agent_id : pyval)
    (title : string) : M unit :=
  _ ← db_put Sessions
        {[ "id" := PStr session_id; "agent_id" := agent_id;
           "title" := PStr title ]};
  mret tt.

End StoreOps.

End Runtime.

(** *** The gateway's operations *)

Module Gateway.
Import Runtime.

Section Gateway.
Variable E : env.

(** [None] or the string. *)
Definition opt_str (o : option string) : pyval :=
  match o with Some s => PStr s | None => PNone end.

(** [isinstance(config, str)] followed by [json.loads], an undecodable
    text giving the empty dictionary. *)
Definition parse_config (config : pyval) : pyval :=
  match config with
  | PStr s => default (PDict ∅) (json_loads E s)
  | _ => config
  end.

(** [v.get(k, dflt)] on a value: [AttributeError] when it has no [get]. *)
Definition val_get (v : pyval) (k : string) (dflt : pyval) : result pyval :=
  match v with
  | PDict d => Ok (get_or d k dflt)
  | _ => Raise AttributeError
  end.

(** The update that [stop_channel] persists:
    [{"status": "inactive", "error_message": None}]. *)
Definition stopped_fields : dict :=
  {[ "status" := PStr "inactive"; "error_message" := PNone ]}.

(** [ChannelGateway.stop_channel(channel_id)] *)
Definition stop_channel (channel_id : string) : M unit :=
  w ← get_world;
  let adapter := _adapters w !! channel_id in
  _ ← modify (set_adapters (delete channel_id));
  _ ← modify (set_tasks (delete channel_id));
  _ ← modify (set_channel_cache (delete channel_id));
  _ ← match adapter with
      | Some a => try_except (lift (ad_stop a)) (λ _, mret tt)
      | None => mret tt
      end;
  (* [if task is not None and not task.done(): task.cancel(); await task]:
     the cancelled supervising task only logs; whatever it raises is
     swallowed here *)
  _ ← db_update Channels channel_id stopped_fields;
  mret tt.

(** A non-empty record, as [if channel:] tests it. *)
Definition non_empty (o : option dict) : option dict :=
  match o with
  | Some d => if bool_decide (d = ∅) then None else Some d
  | None => None
  end.

(** The dictionary that [get_channel_status] returns. *)
Definition status_record (channel_id : string)
    (status active_sessions error_message : pyval) : dict :=
  {[ "channel_id" := PStr channel_id;
     "status" := status;
     "uptime_seconds" := PNone;
     "messages_processed" := PInt 0;
     "active_sessions" := active_sessions;
     "error_message" := error_message ]}.

(** [ChannelGateway.get_channel_status(channel_id)] *)
Definition get_channel_status (channel_id : string) : M dict :=
  w ← get_world;
  let is_running := bool_decide (is_Some (_adapters w !! channel_id)) in
  status ← (if is_running then mret (PStr "active")
            else
              channel ← db_get Channels channel_id;
              mret (match non_empty channel with
                    | Some ch => get_or ch "status" (PStr "inactive")
                    | None => PStr "inactive"
                    end));
  active_sessions ←
    try_except (n ← count_by_channel channel_id; mret (PInt n))
               (λ _, mret (PInt 0));
  w ← get_world;
  error_message ←
    match non_empty (_channel_cache w !! channel_id) with
    | Some cached => mret (get cached "error_message")
    | None =>
        if negb is_running then
          ch ← db_get Channels channel_id;
          mret (match non_empty ch with
                | Some ch => get ch "error_message"
                | None => PNone
                end)
        else mret PNone
    end;
  mret (status_record channel_id status active_sessions error_message).

(** The ChannelSession record that [_resolve_session] creates. *)
Definition new_channel_session (channel_session_id channel_id
    external_chat_id external_sender_id : string)
    (external_thread_id : option string) (session_id : string)
    (agent_id : pyval) (sender_display_name : option string)
    (last_message_at : string) : dict :=
  {[ "id" := PStr channel_session_id;
     "channel_id" := PStr channel_id;
     "external_chat_id" := PStr external_chat_id;
     "external_sender_id" := PStr external_sender_id;
     "external_thread_id" := opt_str external_thread_id;
     "session_id" := PStr session_id;
     "agent_id" := agent_id;
     "sender_display_name" := opt_str sender_display_name;
     "last_message_at" := PStr last_message_at;
     "message_count" := PInt 0 ]}.

(** The title of the internal session:
    [f"Channel: {sender_display_name or external_sender_id}"]. *)
Definition session_title (sender_display_name : option string)
    (external_sender_id : string) : string :=
  "Channel: " +:+ default external_sender_id
                    (match sender_display_name with
                     | Some "" => None
                     | o => o
                     end).

(** [ChannelGateway._resolve_session(...)]: returns
    [(session_id, channel_session_id, is_new)]. *)
Definition _resolve_session (channel_id : string) (agent_id : pyval)
    (external_chat_id external_sender_id : string)
    (external_thread_id sender_display_name : option string)
    : M (pyval * pyval * bool) :=
  existing ← find_by_external channel_id external_chat_id external_thread_id;
  match non_empty existing with
  | Some existing =>
      let is_new :=
        py_eqb (py_or (get_or existing "message_count" (PInt 0)) (PInt 0))
               (PInt 0) in
      session_id ← lift (match existing !! "session_id" with
                         | Some v => Ok v
                         | None => Raise (KeyError "session_id")
                         end);
      id ← lift (match existing !! "id" with
                 | Some v => Ok v
                 | None => Raise (KeyError "id")
                 end);
      mret (session_id, id, is_new)
  | None =>
      n ← next_tick;
      let session_id := uuid4_str E n in
      let title := session_title sender_display_name external_sender_id in
      _ ← store_session E session_id agent_id title;
      n ← next_tick;
      let channel_session_id := uuid4_str E n in
      n ← next_tick;
      _ ← db_put E ChannelSessions
            (new_channel_session channel_session_id channel_id
               external_chat_id external_sender_id external_thread_id
               session_id agent_id sender_display_name (now_isoformat E n));
      mret (PStr session_id, PStr channel_session_id, true)
  end.

(** The rate limiter of the gateway, reading the clock. *)
Definition rate_limiter_is_allowed (sender_id : string) (rate_limit : pyval)
    : M bool :=
  max_per_minute ← lift (as_int rate_limit);
  if decide (max_per_minute ≤ 0) then mret true
  else
    n ← next_tick;
    w ← get_world;
    let '(ok, ws) :=
      RateLimiter.is_allowed sender_id max_per_minute (time_time E n)
                             (_windows w) in
    _ ← modify (set_windows ws);
    mret ok.

(** [ChannelGateway._prepare_message_text(msg, agent_id)]; the file system
    behind [_stage_file_to_workspace] is part of the outside. *)
Fixpoint stage_all (agent_id : pyval) (attachments : list dict)
    : M (list string) :=
  match attachments with
  | [] => mret []
  | attachment :: rest =>
      let file_name := get_or attachment "file_name" (PStr "attachment") in
      let file_bytes := get_or attachment "file_bytes" (PStr "") in
      if negb (truthy file_bytes) then stage_all agent_id rest
      else
        n ← next_tick;
        let line :=
          match stage_file E n agent_id file_name file_bytes with
          | Some path =>
              if bool_decide (path = "") then []
              else ["[File '" +:+ py_str E file_name +:+ "' saved to: "
                      +:+ path +:+ "]"]
          | None => []
          end in
        lines ← stage_all agent_id rest;
        mret (line ++ lines)
  end.

(** [sep.join(parts)] *)
Fixpoint join (sep : string) (parts : list string) : string :=
  match parts with
  | [] => ""
  | [p] => p
  | p :: rest => p +:+ sep +:+ join sep rest
  end.

(** A line feed. *)
Definition LF : string := String (Ascii.ascii_of_nat 10) EmptyString.

Definition _prepare_message_text (msg : InboundMessage) (agent_id : pyval)
    : M string :=
  match in_attachments msg with
  | [] => mret (in_text msg)
  | attachments =>
      staged_lines ← stage_all agent_id attachments;
      let has_text := negb (bool_decide (in_text msg = "")) in
      match staged_lines with
      | [] => mret (in_text msg)
      | _ =>
          mret (join (LF +:+ LF)
                  ((if has_text then [in_text msg] else [])
                   ++ [join LF staged_lines]))
      end
  end.

(** The local variables of the event loop of [handle_inbound_message]. *)
Record conversation := mkConv {
  reply_text : string;
  session_id : pyval;
  error_occurred : bool
}.

(** [for block in content_blocks]: the text of the blocks of an
    [assistant] event, one after the other. *)
Fixpoint blocks_text (blocks : list pyval) (current_text : string)
    : result string :=
  match blocks with
  | [] => Ok current_text
  | block :: rest =>
      match block with
      | PDict d =>
          if eq_str (get d "type") "text" then
            let text := get_or d "text" (PStr "") in
            if truthy text then
              match text with
              | PStr t => blocks_text rest (current_text +:+ t)
              | _ => Raise TypeError
              end
            else blocks_text rest current_text
          else blocks_text rest current_text
      | _ => blocks_text rest current_text
      end
  end.

(** What [for block in v] goes through: the items of a list; the
    characters of a string and the keys of a dictionary, none of which is
    a [dict]; [TypeError] on anything else. *)
Definition iterate (v : pyval) : result (list pyval) :=
  match v with
  | PList l => Ok l
  | PStr _ | PDict _ => Ok []
  | _ => Raise TypeError
  end.

(** The body of [async for event in agent_manager.run_conversation(...)]. *)
Definition on_event (channel_session_id : pyval) (event : dict)
    (c : conversation) : M conversation :=
  let event_type := get_or event "type" (PStr "") in
  if eq_str event_type "assistant" then
    content_blocks ← lift (iterate (get_or event "content" (PList [])));
    current_text ← lift (blocks_text content_blocks "");
    mret (if bool_decide (current_text = "") then c
          else mkConv current_text (session_id c) (error_occurred c))
  else if eq_str event_type "session_start" then
    let new_sid := get event "sessionId" in
    if truthy new_sid && negb (py_eqb new_sid (session_id c)) then
      _ ← try_except
            (match channel_session_id with
             | PStr id =>
                 _ ← db_update ChannelSessions id {[ "session_id" := new_sid ]};
                 mret tt
             | _ => raise StoreError
             end)
            (λ _, mret tt);
      mret (mkConv (reply_text c) new_sid (error_occurred c))
    else mret c
  else if eq_str event_type "result" then
    let subtype := get_or event "subtype" (PStr "") in
    is_error ← (if truthy subtype then lift (contains "error" subtype)
                else mret false : M bool);
    if (is_error : bool) then
      let error_detail :=
        py_or (get event "error") (py_or (get event "message") subtype) in
      mret (mkConv
              (if bool_decide (reply_text c = "")
               then "Sorry, the agent encountered an error: "
                      +:+ py_str E error_detail
               else reply_text c)
              (session_id c) true)
    else mret c
  else if eq_str event_type "error" then
    mret (mkConv
            (if bool_decide (reply_text c = "")
             then "Sorry, I encountered an error processing your request."
             else reply_text c)
            (session_id c) true)
  else mret c.

Fixpoint consume (channel_session_id : pyval) (events : list dict)
    (c : conversation) : M conversation :=
  match events with
  | [] => mret c
  | event :: rest =>
      c' ← on_event channel_session_id event c;
      consume channel_session_id rest c'
  end.

(** Step 5 of [handle_inbound_message]: the [try] block around the engine
    stream, with its [except Exception] clause. *)
Definition converse (call : engine_call) (channel_session_id : pyval)
    (sid : pyval) : M conversation :=
  try_except
    (n ← next_tick;
     _ ← modify (add_engine_call call);
     let '(events, failure) := run_conversation E n call in
     c ← consume channel_session_id events (mkConv "" sid false);
     match failure with
     | Some e => raise e
     | None => mret c
     end)
    (λ _, mret (mkConv
                  "Sorry, an unexpected error occurred. Please try again later."
                  sid true)).

(** The end of [handle_inbound_message]: [last_message_at] and
    [message_count]. *)
Definition update_counters (channel_session_id : pyval)
    (error_occurred : bool) : M unit :=
  try_except
    (n ← next_tick;
     let updates : dict := {[ "last_message_at" := PStr (now_isoformat E n) ]} in
     id ← lift (match channel_session_id with
                | PStr id => Ok id
                | _ => Raise StoreError
                end);
     updates ←
       (if negb error_occurred then
          existing_cs ← db_get ChannelSessions id;
          count ← lift (as_int (match non_empty existing_cs with
                                | Some cs => get_or cs "message_count" (PInt 0)
                                | None => PInt 0
                                end));
          mret (<["message_count" := PInt (count + 2)]> updates)
        else mret updates);
     _ ← db_update ChannelSessions id updates;
     mret tt)
    (λ _, mret tt).

(** Steps 1 to 3 of [handle_inbound_message]: the channel record, access
    control, rate limiting.  [None] when the message is dropped. *)
Definition admission (msg : InboundMessage) : M (option (dict * pyval)) :=
  let channel_id := in_channel_id msg in
  w ← get_world;
  channel ←
    match non_empty (_channel_cache w !! channel_id) with
    | Some channel => mret (Some channel)
    | None =>
        channel ← db_get Channels channel_id;
        match non_empty channel with
        | Some channel =>
            _ ← modify (set_channel_cache <[channel_id := channel]>);
            mret (Some channel)
        | None => mret None
        end
    end;
  match channel with
  | None => mret None
  | Some channel =>
      let agent_id := get channel "agent_id" in
      if negb (truthy agent_id) then mret None
      else
        allowed ← lift (Access._check_access (json_loads E) channel
                          (in_external_sender_id msg));
        if negb allowed then mret None
        else
          let rate_limit := get_or channel "rate_limit_per_minute" (PInt 10) in
          ok ← rate_limiter_is_allowed (in_external_sender_id msg) rate_limit;
          if (ok : bool) then mret (Some (channel, agent_id))
          else
            w ← get_world;
            _ ← match _adapters w !! channel_id with
                | Some a =>
                    let notice :=
                      mkOutbound channel_id (in_external_chat_id msg)
                        (in_external_thread_id msg)
                        (in_external_message_id msg)
                        "You are sending messages too quickly. Please wait a moment and try again." in
                    _ ← modify (add_outbox notice);
                    try_except (_ ← lift (ad_send a notice); mret tt)
                               (λ _, mret tt)
                | None => mret tt
                end;
            mret None
  end.

(** Steps 5 to 7 and the counters: the exchange with the agent once the
    session is resolved. *)
Definition exchange (msg : InboundMessage) (channel : dict) (agent_id : pyval)
    (sid channel_session_id : pyval) (_is_new : bool) : M unit :=
  let channel_id := in_channel_id msg in
  (* the inbound message goes to the audit log *)
  n ← next_tick;
  _ ← try_except
        (_ ← db_put E ChannelMessages
               {[ "id" := PStr (uuid4_str E n);
                  "channel_session_id" := channel_session_id;
                  "direction" := PStr "inbound";
                  "external_message_id" :=
                    opt_str (in_external_message_id msg);
                  "content" :=
                    PStr (if bool_decide (in_text msg = "")
                          then "[Attachment message]" else in_text msg);
                  "content_type" :=
                    get_or (in_metadata msg) "message_type" (PStr "text");
                  "metadata" :=
                    PDict (<["attachment_count" :=
                               PInt (Z.of_nat (length (in_attachments msg)))]>
                           (<["attachment_names" :=
                               PList ((λ a, get a "file_name")
                                        <$> in_attachments msg)]>
                            (in_metadata msg)));
                  "status" := PStr "received" ]};
         mret tt)
        (λ _, mret tt);
  let enable_skills := truthy (get_or channel "enable_skills" (PBool false)) in
  let enable_mcp := truthy (get_or channel "enable_mcp" (PBool false)) in
  let channel_config := parse_config (get_or channel "config" (PDict ∅)) in
  app_id ← lift (val_get channel_config "app_id" (PStr ""));
  app_secret ← lift (val_get channel_config "app_secret" (PStr ""));
  let channel_context : dict :=
    {[ "channel_type" := get_or channel "channel_type" (PStr "");
       "channel_id" := PStr channel_id;
       "chat_id" := PStr (in_external_chat_id msg);
       "reply_to_message_id" := opt_str (in_external_message_id msg);
       "app_id" := app_id;
       "app_secret" := app_secret ]} in
  final_text ← _prepare_message_text msg agent_id;
  let resume_sid := if (_is_new : bool) then PNone else sid in
  c ← converse (mkCall agent_id (PStr final_text) PNone resume_sid
                  enable_skills enable_mcp PNone (Some channel_context))
               channel_session_id sid;
  let reply_text :=
    if bool_decide (reply_text c = "") then "(No response generated)"
    else reply_text c in
  let outbound :=
    mkOutbound channel_id (in_external_chat_id msg)
      (in_external_thread_id msg) (in_external_message_id msg)
      reply_text in
  w ← get_world;
  external_message_id ←
    match _adapters w !! channel_id with
    | Some a =>
        _ ← modify (add_outbox outbound);
        try_except (lift (ad_send a outbound)) (λ _, mret PNone)
    | None => mret PNone
    end;
  n ← next_tick;
  _ ← try_except
        (_ ← db_put E ChannelMessages
               {[ "id" := PStr (uuid4_str E n);
                  "channel_session_id" := channel_session_id;
                  "direction" := PStr "outbound";
                  "external_message_id" := external_message_id;
                  "content" := PStr reply_text;
                  "content_type" := PStr "text";
                  "metadata" := PDict ∅;
                  "status" :=
                    PStr (if error_occurred c then "error" else "sent") ]};
         mret tt)
        (λ _, mret tt);
  _ ← modify (add_exchange (channel_session_id, error_occurred c));
  update_counters channel_session_id (error_occurred c).

(** Step 4 and what follows: the session of an admitted message is
    resolved, then the exchange takes place. *)
Definition serve (msg : InboundMessage) (channel : dict) (agent_id : pyval)
    : M unit :=
  let channel_id := in_channel_id msg in
  resolved ←
    try_except
      (r ← _resolve_session channel_id agent_id (in_external_chat_id msg)
             (in_external_sender_id msg) (in_external_thread_id msg)
             (in_sender_display_name msg);
       mret (Some r))
      (λ _, mret None);
  match resolved with
  | None => mret tt
  | Some (sid, channel_session_id, _is_new) =>
      exchange msg channel agent_id sid channel_session_id _is_new
  end.

(** What the steps of an exchange about the channel session [cs] leave
    alone between two worlds: the store stays reliable, nothing is added to
    the log of exchanges, the engine is called with [calls], every other
    channel session is untouched, and the session [cs] keeps all its fields
    except, possibly, ["session_id"]. *)
Definition sess_frame (cs : string) (calls : list engine_call)
    (w w' : world) : Prop :=
  faults w' = [] ∧
  exchange_log w' = exchange_log w ∧
  engine_log w' = engine_log w ++ calls ∧
  (∀ id, id ≠ cs →
     channel_sessions (db w') !! id = channel_sessions (db w) !! id) ∧
  (∀ row, channel_sessions (db w) !! cs = Some row →
     ∃ row', channel_sessions (db w') !! cs = Some row' ∧
       (is_Some (row !! "session_id") → is_Some (row' !! "session_id")) ∧
       ∀ k, k ≠ "session_id" → row' !! k = row !! k).

(** Between two worlds, the store, its reliability and the logs are the
    same. *)
Definition quiet (w w' : world) : Prop :=
  faults w' = faults w ∧ db w' = db w ∧
  engine_log w' = engine_log w ∧ exchange_log w' = exchange_log w.

(** The channel session of the conversation of [msg], if there is one. *)
Definition session_of (msg : InboundMessage) (w : world) : option dict :=
  head (select (same_conversation (in_channel_id msg)
                  (in_external_chat_id msg) (in_external_thread_id msg))
               (channel_sessions (db w))).

(** The channel's configuration is a dictionary, directly or once
    parsed. *)
Definition config_is_dict (channel : dict) : Prop :=
  ∃ d, parse_config (get_or channel "config" (PDict ∅)) = PDict d.

(** *** The errored exchange, read off the engine's stream

    The flag [error_occurred] of [handle_inbound_message] as a function of
    what the engine produced, without running the loop. *)

(** The engine reports an error: an [error] event, or a [result] event
    whose subtype is truthy and holds ["error"]. *)
Definition reports_error (event : dict) : bool :=
  let event_type := get_or event "type" (PStr "") in
  eq_str event_type "error"
  || (eq_str event_type "result"
      && let subtype := get_or event "subtype" (PStr "") in
         truthy subtype
         && match contains "error" subtype with
            | Ok b => b
            | Raise _ => false
            end).

(** A block of an [assistant] event on which [current_text += text] raises:
    a [dict] of type ["text"] whose text is truthy and no [str]. *)
Definition bad_block (block : pyval) : bool :=
  match block with
  | PDict d =>
      eq_str (get d "type") "text"
      && match get_or d "text" (PStr "") with
         | PStr _ => false
         | text => truthy text
         end
  | _ => false
  end.

(** An event on which the body of the loop raises: an [assistant] event
    whose content cannot be iterated or holds such a block; a [result]
    event whose truthy subtype is no container. *)
Definition unprocessable (event : dict) : bool :=
  let event_type := get_or event "type" (PStr "") in
  if eq_str event_type "assistant" then
    match get_or event "content" (PList []) with
    | PList blocks => existsb bad_block blocks
    | PStr _ | PDict _ => false
    | _ => true
    end
  else if eq_str event_type "result" then
    let subtype := get_or event "subtype" (PStr "") in
    truthy subtype
    && match contains "error" subtype with
       | Ok _ => false
       | Raise _ => true
       end
  else false.

(** The exchange errors when the engine reports an error, when an event
    cannot be processed, or when the stream itself raises. *)
Definition exchange_errored (events : list dict) (failure : option exn)
    : bool :=
  existsb (λ event, reports_error event || unprocessable event) events
  || bool_decide (is_Some failure).

(** [ChannelGateway.handle_inbound_message(msg)] *)
Definition handle_inbound_message (msg : InboundMessage) : M unit :=
  passed ← admission msg;
  match passed with
  | None => mret tt
  | Some (channel, agent_id) => serve msg channel agent_id
  end.

End Gateway.

End Gateway.

(** *** Creating a task ([TaskManager.create_task]) *)

Module TaskOps.
Import Runtime TaskManager.

Section TaskOps.
Variable E : env.

(** [x[:50]] *)
Definition first50 (x : pyval) : result pyval :=
  match x with
  | PStr s => Ok (PStr (py_take 50 s))
  | PList l => Ok (PList (take 50 l))
  | _ => Raise TypeError
  end.

(** The [for ... else] loop over the content blocks: the text of the first
    block of type ["text"] that has one, cut to 50 characters. *)
Fixpoint title_of_content (content : list dict) : result pyval :=
  match content with
  | [] => Ok (PStr "[Attachment message]")
  | block :: rest =>
      if eq_str (get block "type") "text" && truthy (get block "text")
      then first50 (get_or block "text" (PStr ""))
      else title_of_content rest
  end.

(** [title += "..."]: a string grows by three dots, a list by three
    one-character strings. *)
Definition add_dots (title : pyval) : result pyval :=
  match title with
  | PStr s => Ok (PStr (s +:+ "..."))
  | PList l => Ok (PList (l ++ [PStr "."; PStr "."; PStr "."]))
  | _ => Raise TypeError
  end.

(** [TaskManager.create_task(agent_id, message, content, enable_skills,
    enable_mcp, add_dirs)] *)
Definition create_task (agent_id : string) (message : option string)
    (content : option (list dict)) (enable_skills enable_mcp : bool)
    (add_dirs : option (list string)) : M dict :=
  agent_config ← db_get Agents agent_id;
  match Gateway.non_empty agent_config with
  | None => raise (ValueError ("Agent " +:+ agent_id +:+ " not found"))
  | Some agent_config =>
      let message' := match message with Some "" => None | m => m end in
      title ← lift
        (match content, message' with
         | Some (b :: bs), _ => title_of_content (b :: bs)
         | _, Some m => Ok (PStr (py_take 50 m))
         | _, None =>
             Ok (PStr ("Task with " +:+
                       py_str E (get_or agent_config "name" (PStr "agent"))))
         end);
      title ← lift
        (match message' with
         | Some m => if decide (50 < py_len m)%nat then add_dots title
                     else Ok title
         | None => Ok title
         end);
      n ← next_tick;
      let task_id := "task_" +:+ py_take 12 (uuid4_hex E n) in
      n ← next_tick;
      let task : dict :=
        {[ "id" := PStr task_id;
           "agent_id" := PStr agent_id;
           "session_id" := PNone;
           "status" := PStr "pending";
           "title" := title;
           "model" := get agent_config "model";
           "created_at" := PStr (now_isoformat E n);
           "started_at" := PNone;
           "completed_at" := PNone;
           "error" := PNone;
           "work_dir" := match add_dirs with
                         | Some (d :: _) => PStr d
                         | _ => PNone
                         end ]} in
      _ ← db_put E Tasks task;
      _ ← modify (set_tm (λ t,
             mkTM (_running_tasks t)
                  (<[task_id := []]> (_event_buffers t))
                  (<[task_id := []]> (_subscribers t))
                  (<[task_id := []]> (_message_queues t))
                  (queue_heap t) (next_qid t)));
      _ ← modify (add_spawned
             (mkRunTask task_id agent_id message content enable_skills
                        enable_mcp add_dirs));
      _ ← modify (set_tm (λ t,
             mkTM ({[task_id]} ∪ _running_tasks t) (_event_buffers t)
                  (_subscribers t) (_message_queues t) (queue_heap t)
                  (next_qid t)));
      mret task
  end.

End TaskOps.

End TaskOps.

(** ** Concrete worlds for the gateway *)

Module GatewayExamples.
Import Runtime Gateway.

(** A double quote. *)
Definition DQ : string := String (Ascii.ascii_of_nat 34) EmptyString.

(** The JSON text of the one-element list [["U1"]]. *)
Definition json_U1 : string := "[" +:+ DQ +:+ "U1" +:+ DQ +:+ "]".

(** An engine that fails on the message ["boom"] and otherwise answers
    ["hello"] in the session ["s1"]. *)
Definition sample_engine (n : nat) (call : engine_call)
    : list dict * option exn :=
  if eq_str (ec_user_message call) "boom"
  then ([ ({[ "type" := PStr "error"; "error" := PStr "engine down" ]} : dict) ],
        None)
  else ([ ({[ "type" := PStr "session_start"; "sessionId" := PStr "s1" ]} : dict);
          {[ "type" := PStr "assistant";
             "content" := PList [PDict {[ "type" := PStr "text";
                                          "text" := PStr "hello" ]}] ]};
          {[ "type" := PStr "result"; "subtype" := PStr "success" ]} ],
        None).

Definition sample_env : env :=
  mkEnv (λ n, "id-" +:+ pretty n)
        (λ n, "0123456789abcdef" +:+ pretty n)
        (λ n, inject_Z (Z.of_nat n))
        (λ n, "T" +:+ pretty n)
        sample_engine
        (λ _ _ _ _, None)
        (λ s, if bool_decide (s = "[]") then Some (PList [])
              else if bool_decide (s = json_U1) then Some (PList [PStr "U1"])
              else None)
        (λ v, match v with PStr s => s | _ => "?" end).

(** A channel whose adapter crashed. *)
Definition crashed_channel : dict :=
  {[ "id" := PStr "c1"; "name" := PStr "support";
     "channel_type" := PStr "feishu"; "agent_id" := PStr "a1";
     "status" := PStr "error";
     "error_message" := PStr "Adapter crashed unexpectedly";
     "access_mode" := PStr "open"; "rate_limit_per_minute" := PInt 10 ]}.

Definition sample_store : store :=
  mkStore {[ "c1" := crashed_channel ]} ∅ ∅
          {[ "a1" := ({[ "id" := PStr "a1"; "name" := PStr "helper" ]} : dict) ]}
          ∅ ∅.

(** Nothing runs, nothing is cached, the store answers. *)
Definition idle_world : world :=
  mkWorld sample_store [] 0%nat ∅ ∅ ∅ ∅ TaskManager.init [] [] [] [].

(** The store answers the first two calls and fails on the third. *)
Definition third_call_fails : world := set_faults [false; false; true] idle_world.

(** The store fails on the second call only. *)
Definition second_call_fails : world := set_faults [false; true] idle_world.

(** Two messages of one chat on the channel ["c1"]; the engine fails on the
    first. *)
Definition boom_msg : InboundMessage :=
  mkInbound "c1" "chat-1" "U1" None None "boom" None [] ∅.

Definition hi_msg : InboundMessage :=
  mkInbound "c1" "chat-1" "U1" None None "hi" None [] ∅.

(** A channel record whose allowlist, serialized, holds the sender ["U1"]. *)
Definition allow_U1 : dict :=
  {[ "access_mode" := PStr "allowlist"; "allowed_senders" := PStr json_U1 ]}.

(** A channel record without an access mode. *)
Definition modeless_U1 : dict :=
  {[ "allowed_senders" := PList [PStr "U1"] ]}.

End GatewayExamples.

(** ** Staged file names ([_sanitize_filename]) *)

Module Files.

(** A file name is the list of the characters of a [str].  The characters
    the code looks at are all ASCII, and no byte of the UTF-8 form of
    another character is one of them, so that the bytes of the name can
    stand for its characters. *)
Abbreviation chars := (list Ascii.ascii) (only parsing).

Definition underscore : Ascii.ascii := Ascii.ascii_of_nat 95.
Definition slash : Ascii.ascii := Ascii.ascii_of_nat 47.
Definition backslash : Ascii.ascii := Ascii.ascii_of_nat 92.

(** [_UNSAFE_FILENAME_RE]: a slash, a backslash, a colon, a star, a
    question mark, a double quote, an angle bracket, a bar, a semicolon, or
    a control character from [0x00] to [0x1f]. *)
Definition unsafe (c : Ascii.ascii) : bool :=
  let n := Ascii.nat_of_ascii c in
  (n <? 32)%nat
  || existsb (Nat.eqb n) [47; 92; 58; 42; 63; 34; 60; 62; 124; 59]%nat.

(** [s.rsplit(sep, 1)[-1]]: what follows the last [sep], the whole of [s]
    when it has none. *)
Fixpoint after_last (sep : Ascii.ascii) (s : list Ascii.ascii) : list Ascii.ascii :=
  match s with
  | [] => []
  | c :: s' =>
      if bool_decide (sep ∈ s') then after_last sep s'
      else if bool_decide (c = sep) then s' else c :: s'
  end.

(** [_UNSAFE_FILENAME_RE.sub("_", name)] *)
Definition replace_unsafe (s : list Ascii.ascii) : list Ascii.ascii :=
  (λ c, if unsafe c then underscore else c) <$> s.

(** [re.sub(r"_+", "_", name)]: each run of underscores becomes one. *)
Fixpoint collapse (s : list Ascii.ascii) : list Ascii.ascii :=
  match s with
  | [] => []
  | c :: s' =>
      match s' with
      | d :: _ =>
          if bool_decide (c = underscore) && bool_decide (d = underscore)
          then collapse s' else c :: collapse s'
      | [] => [c]
      end
  end.

(** The two halves of [name.strip("_")]. *)
Fixpoint lstrip (s : list Ascii.ascii) : list Ascii.ascii :=
  match s with
  | [] => []
  | c :: s' => if bool_decide (c = underscore) then lstrip s' else s
  end.

Fixpoint rstrip (s : list Ascii.ascii) : list Ascii.ascii :=
  match s with
  | [] => []
  | c :: s' =>
      match rstrip s' with
      | [] => if bool_decide (c = underscore) then [] else [c]
      | r => c :: r
      end
  end.

Definition strip (s : list Ascii.ascii) : list Ascii.ascii := rstrip (lstrip s).

(** The three rewriting steps of [_sanitize_filename], before the
    [or "attachment"]. *)
Definition sanitized (name : list Ascii.ascii) : list Ascii.ascii :=
  strip (collapse (replace_unsafe
                     (after_last backslash (after_last slash name)))).

(** [_sanitize_filename(name)] *)
Definition _sanitize_filename (name : string) : string :=
  match sanitized (String.list_ascii_of_string name) with
  | [] => "attachment"
  | s => String.string_of_list_ascii s
  end.

(** No two underscores in a row. *)
Fixpoint no_double (s : list Ascii.ascii) : Prop :=
  match s with
  | [] => True
  | c :: s' =>
      match s' with
      | d :: _ => ¬ (c = underscore ∧ d = underscore)
      | [] => True
      end ∧ no_double s'
  end.

(** A name that [_sanitize_filename] has nothing to do on. *)
Definition clean (s : list Ascii.ascii) : Prop :=
  Forall (λ c, unsafe c = false) s ∧ no_double s ∧
  head s ≠ Some underscore ∧ last s ≠ Some underscore.

End Files.

(** ** Runs of the rate limiter *)

Module RateLimiterRuns.
Import RateLimiter.
Open Scope Q_scope.

#[global] Instance Qle_decision (x y : Q) : Decision (x <= y).
Proof.
  destruct (Qlt_le_dec y x) as [H|H]; [right | left; exact H].
  apply Qlt_not_le. exact H.
Defined.

(** The clock readings of the calls that passed, given the readings of all
    the calls and their verdicts. *)
Fixpoint admitted_times (times : list Q) (verdicts : list bool) : list Q :=
  match times, verdicts with
  | t :: times', b :: verdicts' =>
      (if b then [t] else []) ++ admitted_times times' verdicts'
  | _, _ => []
  end.

(** How many of the readings [l] lie in the minute that ends at [t]. *)
Definition in_minute (t : Q) (l : list Q) : nat :=
  length (filter (λ x, t - 60 < x ∧ x <= t) l).

(** Every admitted call sees at most [N] admitted calls in the minute
    before it, itself included. *)
Definition paced (N : Z) (A : list Q) : Prop :=
  ∀ P a, P ++ [a] `prefix_of` A →
    (Z.of_nat (length (filter (λ x, (a - 60 < x)%Q) (P ++ [a]))) ≤ N)%Z.

End RateLimiterRuns.

(** ** The task manager: retention and messages *)

Module TaskRetention.
Import TaskManager.

(** The three [pop(task_id, None)] that [_schedule_buffer_cleanup] and
    [delete_task] share. *)
Definition pop_buffers (task_id : string) (tm : task_manager) : task_manager :=
  mkTM (_running_tasks tm)
       (delete task_id (_event_buffers tm))
       (delete task_id (_subscribers tm))
       (delete task_id (_message_queues tm))
       (queue_heap tm) (next_qid tm).

(** [_schedule_buffer_cleanup(task_id)] from the end of its sleep.  The
    result is [true] when it has scheduled itself again and left everything
    in place. *)
Definition _schedule_buffer_cleanup (task_id : string) (tm : task_manager)
    : bool * task_manager :=
  match _subscribers tm !! task_id with
  | Some (_ :: _) => (true, tm)
  | _ => (false, pop_buffers task_id tm)
  end.

(** The task ["t"] is over, its final event is in the buffer, and someone
    subscribes. *)
Definition ended_sys : system :=
  step (ASubscribe 0%nat "t")
       (run [AEmit "t" TaskExamples.result_event] TaskExamples.fresh_sys).

End TaskRetention.

(** ** The task manager: the background run of a task *)

Module TaskRun.
Import Runtime TaskManager.

(** Where the coroutine [_run_task] stands once it cannot go on by itself:
    at [await message_queue.get()] on an empty queue, with the session id
    it will resume, or at its end. *)
Inductive run_state :=
| Waiting (session_id : pyval)
| Done.

(** How the [async for] loop of [_run_task] was left. *)
Inductive loop_exit :=
| Returned                       (* by a [return] after [result] or [error] *)
| Asked (session_id : pyval)     (* at [ask_user_question] *)
| Exhausted.                     (* the stream has no more events *)

Section TaskRun.
Variable E : env.

(** [str(e)] on an exception. *)
Variable exn_str : exn → string.

(** [await self._emit_event(task_id, event)] *)
Definition emit (task_id : string) (e : event) : M unit :=
  modify (set_tm (_emit_event task_id e)).

Definition status_event (status : string) : event :=
  {[ "type" := PStr "status"; "status" := PStr status ]}.

Definition error_event (msg : string) : event :=
  {[ "type" := PStr "error"; "error" := PStr msg ]}.

(** The fields written when a task starts, completes or fails. *)
Definition running_fields (now : string) : dict :=
  {[ "status" := PStr "running"; "started_at" := PStr now ]}.

Definition completed_fields (now : string) : dict :=
  {[ "status" := PStr "completed"; "completed_at" := PStr now ]}.

Definition failed_fields (now : string) (error : pyval) : dict :=
  {[ "status" := PStr "failed"; "completed_at" := PStr now;
     "error" := error ]}.

(** [db.tasks.update(task_id, {..., datetime.now(timezone.utc).isoformat(),
    ...})]: the clock is read while the fields are put together. *)
Definition mark (task_id : string) (fields : string → dict) : M unit :=
  n ← next_tick;
  _ ← db_update Tasks task_id (fields (now_isoformat E n));
  mret tt.

(** The body of the [async for] loop of [_run_task], event after event,
    from the session id captured so far. *)
Fixpoint relay (task_id : string) (events : list dict) (session_id : pyval)
    : M loop_exit :=
  match events with
  | [] => mret Exhausted
  | event :: rest =>
      session_id ←
        (if eq_str (get event "type") "session_start" then
           let session_id := get event "sessionId" in
           _ ← db_update Tasks task_id {[ "session_id" := session_id ]};
           mret session_id
         else mret session_id);
      _ ← emit task_id event;
      if eq_str (get event "type") "error" then
        _ ← mark task_id (λ now, failed_fields now (get event "error"));
        mret Returned
      else if eq_str (get event "type") "result" then
        _ ← mark task_id completed_fields;
        mret Returned
      else if eq_str (get event "type") "ask_user_question" then
        mret (Asked session_id)
      else relay task_id rest session_id
  end.

(** The body of the [async for] loop of [_handle_pending_interaction]:
    [None] when it was left by a [return], else whether another question
    was asked. *)
Fixpoint relay_answer (task_id : string) (events : list dict)
    (needs_another_interaction : bool) : M (option bool) :=
  match events with
  | [] => mret (Some needs_another_interaction)
  | event :: rest =>
      _ ← emit task_id event;
      if eq_str (get event "type") "error" then
        _ ← mark task_id (λ now, failed_fields now (get event "error"));
        mret None
      else if eq_str (get event "type") "result" then
        _ ← mark task_id completed_fields;
        mret None
      else
        relay_answer task_id rest
          (if eq_str (get event "type") "ask_user_question" then true
           else needs_another_interaction)
  end.

(** [d[k]] *)
Definition item (d : dict) (k : string) : result pyval :=
  match d !! k with
  | Some v => Ok v
  | None => Raise (KeyError k)
  end.

(** [message_queue.get()] on a queue that holds something. *)
Definition pop_message (task_id : string) (t : task_manager) : task_manager :=
  mkTM (_running_tasks t) (_event_buffers t) (_subscribers t)
       (alter (drop 1) task_id (_message_queues t))
       (queue_heap t) (next_qid t).

(** The [while True] loop of [_handle_pending_interaction], with the
    messages [pending] in the queue: one turn per message, until the queue
    is empty (the coroutine waits) or a turn ends the task. *)
Fixpoint pause_loop (task_id : string) (session_id : pyval)
    (enable_skills enable_mcp : bool) (pending : list dict) : M run_state :=
  match pending with
  | [] => mret (Waiting session_id)
  | msg_data :: later =>
      _ ← modify (set_tm (pop_message task_id));
      task ← db_get Tasks task_id;
      match Gateway.non_empty task with
      | None => mret Done
      | Some task =>
          agent_id ← lift (item task "agent_id");
          add_dirs ←
            (if truthy (get task "work_dir")
             then work_dir ← lift (item task "work_dir");
                  mret (PList [work_dir])
             else mret PNone);
          n ← next_tick;
          let call := mkCall agent_id (get msg_data "message")
                        (get msg_data "content") session_id enable_skills
                        enable_mcp add_dirs None in
          _ ← modify (add_engine_call call);
          let '(events, failure) := run_conversation E n call in
          again ← relay_answer task_id events false;
          match again with
          | None => mret Done
          | Some again =>
              match failure with
              | Some e => raise e
              | None =>
                  if (again : bool)
                  then pause_loop task_id session_id enable_skills
                         enable_mcp later
                  else mret Done
              end
          end
      end
  end.

(** [_handle_pending_interaction(task_id, session_id, enable_skills,
    enable_mcp)], up to the moment it waits or returns. *)
Definition _handle_pending_interaction (task_id : string)
    (session_id : pyval) (enable_skills enable_mcp : bool) : M run_state :=
  w ← get_world;
  match _message_queues (tm w) !! task_id with
  | None => mret Done
  | Some pending =>
      pause_loop task_id session_id enable_skills enable_mcp pending
  end.

(** [self._running_tasks.pop(task_id, None)] *)
Definition forget_running (task_id : string) (t : task_manager)
    : task_manager :=
  mkTM (_running_tasks t ∖ {[ task_id ]}) (_event_buffers t) (_subscribers t)
       (_message_queues t) (queue_heap t) (next_qid t).

(** The [except Exception] and [finally] clauses of [_run_task], around a
    stretch [m] of its body: they run when the stretch ends the task, not
    when it leaves it waiting. *)
Definition conclude (task_id : string) (m : M run_state) : M run_state :=
  λ w,
    match m w with
    | (Ok (Waiting session_id), w') => (Ok (Waiting session_id), w')
    | (Ok Done, w') => (Ok Done, set_tm (forget_running task_id) w')
    | (Raise e, w') =>
        match (_ ← mark task_id
                     (λ now, failed_fields now (PStr (exn_str e)));
               emit task_id (error_event (exn_str e))) w' with
        | (Ok _, w'') => (Ok Done, set_tm (forget_running task_id) w'')
        | (Raise e', w'') => (Raise e', set_tm (forget_running task_id) w'')
        end
    end.

Definition opt_list {A} (f : A → pyval) (o : option (list A)) : pyval :=
  match o with
  | Some l => PList (f <$> l)
  | None => PNone
  end.

(** The engine call of [_run_task]: a new conversation. *)
Definition first_call (a : run_task_args) : engine_call :=
  mkCall (PStr (rt_agent_id a)) (Gateway.opt_str (rt_message a))
         (opt_list PDict (rt_content a)) PNone (rt_enable_skills a)
         (rt_enable_mcp a) (opt_list PStr (rt_add_dirs a)) None.

(** What follows the [async for] loop of [_run_task]. *)
Definition leave (a : run_task_args) (failure : option exn)
    (exit : loop_exit) : M run_state :=
  match exit with
  | Returned => mret Done
  | Asked session_id =>
      _handle_pending_interaction (rt_task_id a) session_id
        (rt_enable_skills a) (rt_enable_mcp a)
  | Exhausted =>
      match failure with
      | Some e => raise e
      | None => mret Done
      end
  end.

(** [_run_task(task_id, agent_id, message, content, enable_skills,
    enable_mcp, add_dirs)], from its start to the moment it waits for the
    user or ends. *)
Definition _run_task (a : run_task_args) : M run_state :=
  let task_id := rt_task_id a in
  conclude task_id
    (_ ← mark task_id running_fields;
     _ ← emit task_id (status_event "running");
     n ← next_tick;
     _ ← modify (add_engine_call (first_call a));
     let '(events, failure) := run_conversation E n (first_call a) in
     exit ← relay task_id events PNone;
     leave a failure exit).

(** [_run_task] again, from the arrival of a message while it waits. *)
Definition resume (a : run_task_args) (session_id : pyval) : M run_state :=
  let task_id := rt_task_id a in
  conclude task_id
    (w ← get_world;
     pause_loop task_id session_id (rt_enable_skills a) (rt_enable_mcp a)
       (default [] (_message_queues (tm w) !! task_id))).

(** [TaskManager.send_message(task_id, message, content)] *)
Definition send_message (task_id : string) (message content : pyval)
    : M bool :=
  w ← get_world;
  match _message_queues (tm w) !! task_id with
  | None => mret false
  | Some _ =>
      task ← db_get Tasks task_id;
      match Gateway.non_empty task with
      | None => mret false
      | Some task =>
          if negb (eq_str (get task "status") "running") then mret false
          else
            w ← get_world;
            match _message_queues (tm w) !! task_id with
            | None => raise (KeyError task_id)
            | Some _ =>
                _ ← modify (set_tm (λ t,
                       mkTM (_running_tasks t) (_event_buffers t)
                            (_subscribers t)
                            (alter (λ q, q ++ [ ({[ "message" := message;
                                                    "content" := content ]}
                                                 : dict) ])
                                   task_id (_message_queues t))
                            (queue_heap t) (next_qid t)));
                mret true
            end
      end
  end.

(** An event that does not stop the loop of [_run_task]. *)
Definition passes (e : dict) : bool :=
  negb (in_strs (get e "type") ["error"; "result"; "ask_user_question"]).

(** The session id that [_run_task] holds after the events [evs]: that of
    the last [session_start]. *)
Definition captured (evs : list dict) (session_id : pyval) : pyval :=
  foldl (λ sid e, if eq_str (get e "type") "session_start"
                  then get e "sessionId" else sid) session_id evs.

(** The manager after the events [evs] were emitted on [task_id]. *)
Definition relayed (task_id : string) (evs : list dict) (t : task_manager)
    : task_manager :=
  emit_all ((λ e, (task_id, e)) <$> evs) t.

(** The ["session_id"] field of the task's record after the events [evs]. *)
Definition session_field (evs : list dict) (field : option pyval)
    : option pyval :=
  foldl (λ o e, if eq_str (get e "type") "session_start"
                then Some (get e "sessionId") else o) field evs.

(** What relaying the events [evs] of the task [task_id] does between two
    worlds, with a store that answers: the events are emitted, the task's
    record gets the session id of the last [session_start] and keeps its
    other fields, and nothing else moves. *)
Definition relay_frame (task_id : string) (evs : list dict) (w w' : world)
    : Prop :=
  faults w' = [] ∧
  tm w' = relayed task_id evs (tm w) ∧
  tick w' = tick w ∧ engine_log w' = engine_log w ∧
  (∀ id, id ≠ task_id → tasks (db w') !! id = tasks (db w) !! id) ∧
  (tasks (db w) !! task_id = None → tasks (db w') !! task_id = None) ∧
  (∀ row, tasks (db w) !! task_id = Some row →
     ∃ row', tasks (db w') !! task_id = Some row' ∧
       row' !! "session_id" = session_field evs (row !! "session_id") ∧
       ∀ k, k ≠ "session_id" → row' !! k = row !! k).

(** The state of the task [tid] once [_run_task] has relayed the events
    [pre] of the stream. *)
Definition mid_run (tid : string) (call : engine_call) (pre : list dict)
    (w w5 : world) : Prop :=
  faults w5 = [] ∧
  tm w5 = relayed tid (status_event "running" :: pre) (tm w) ∧
  tick w5 = S (S (tick w)) ∧
  engine_log w5 = engine_log w ++ [call] ∧
  (∀ id, id ≠ tid → tasks (db w5) !! id = tasks (db w) !! id) ∧
  (tasks (db w) !! tid = None → tasks (db w5) !! tid = None) ∧
  (∀ row, tasks (db w) !! tid = Some row →
     ∃ row5, tasks (db w5) !! tid = Some row5 ∧
       row5 !! "status" = Some (PStr "running") ∧
       row5 !! "session_id" = session_field pre (row !! "session_id") ∧
       ∀ k, k ≠ "status" → k ≠ "started_at" → k ≠ "session_id" →
            row5 !! k = row !! k).

End TaskRun.

End TaskRun.

(** ** Concrete runs of a task *)

Module RunExamples.
Import Runtime TaskManager TaskRun.

Definition started : dict :=
  {[ "type" := PStr "session_start"; "sessionId" := PStr "s1" ]}.

Definition spoken : dict :=
  {[ "type" := PStr "assistant";
     "content" := PList [PDict {[ "type" := PStr "text";
                                  "text" := PStr "hello" ]}] ]}.

Definition asked : dict :=
  {[ "type" := PStr "ask_user_question"; "question" := PStr "which one?" ]}.

(** An engine that answers according to the message: a stream that just
    stops for ["dry"], one that breaks for ["crash"], a question for
    ["ask"], and otherwise a complete conversation followed by one event
    too many. *)
Definition demo_engine (n : nat) (call : engine_call)
    : list dict * option exn :=
  if eq_str (ec_user_message call) "dry" then ([spoken], None)
  else if eq_str (ec_user_message call) "crash"
  then ([spoken], Some EngineError)
  else if eq_str (ec_user_message call) "ask"
  then ([started; asked; spoken], None)
  else ([started; spoken; TaskExamples.result_event; spoken], None).

Definition demo_env : env :=
  mkEnv (λ n, "id-" +:+ pretty n)
        (λ n, "0123456789abcdef" +:+ pretty n)
        (λ n, inject_Z (Z.of_nat n))
        (λ n, "T" +:+ pretty n)
        demo_engine
        (λ _ _ _ _, None)
        (λ _, None)
        (λ v, match v with PStr s => s | _ => "?" end).

Definition demo_str (e : exn) : string :=
  match e with
  | ValueError msg => msg
  | EngineError => "engine failure"
  | _ => "error"
  end.

(** The task ["t"] of the agent ["a1"], as [create_task] leaves it. *)
Definition demo_row : dict :=
  {[ "id" := PStr "t"; "agent_id" := PStr "a1"; "status" := PStr "pending" ]}.

Definition demo_world : world :=
  mkWorld (mkStore ∅ ∅ ∅ ∅ {[ "t" := demo_row ]} ∅) [] 0%nat ∅ ∅ ∅ ∅
          TaskExamples.fresh_task [] [] [] [].

Definition demo_args (message : string) : run_task_args :=
  mkRunTask "t" "a1" (Some message) None false false None.

(** The world in which the task ["t"] waits for an answer to its
    question. *)
Definition waiting_world : world :=
  (_run_task demo_env demo_str (demo_args "ask") demo_world).2.

(** The record of the task ["t"] while it waits. *)
Definition waiting_row : dict :=
  default ∅ (tasks (db waiting_world) !! "t").

(** The same, once the user has answered. *)
Definition answered_world : world :=
  (send_message "t" (PStr "the first") PNone waiting_world).2.

End RunExamples.

(** ** Messages for the title of a task *)

Module TitleExamples.



End TitleExamples.

(** ** The life cycle of a channel ([start_channel], [shutdown]) *)

Module Lifecycle.
Import Runtime Gateway.

(** An adapter class of the registry, seen from the gateway: what
    [validate_config()] answers on the instance made for a channel id and a
    configuration, and that instance once it runs. *)
Record adapter_class := mkClass {
  ac_validate : string → pyval → result (bool * pyval);
  ac_instance : string → pyval → adapter
}.

Section Lifecycle.
Variable E : env.

(** [_ADAPTER_REGISTRY] of [channels/registry.py]. *)
Variable registry : gmap string adapter_class.

(** [get_adapter_class(channel_type)]: [_ADAPTER_REGISTRY.get], which
    raises on an unhashable key. *)
Definition get_adapter_class (channel_type : pyval)
    : result (option adapter_class) :=
  match channel_type with
  | PStr s => Ok (registry !! s)
  | PList _ | PDict _ => Raise TypeError
  | _ => Ok None
  end.

Definition error_fields (error_msg : string) : dict :=
  {[ "status" := PStr "error"; "error_message" := PStr error_msg ]}.

Definition active_fields : dict :=
  {[ "status" := PStr "active"; "error_message" := PNone ]}.

(** [ChannelGateway.start_channel(channel_id)], the adapter's [start()]
    being left to the task that is created for it. *)
Definition start_channel (channel_id : string) : M unit :=
  w ← get_world;
  _ ← (if bool_decide (is_Some (_adapters w !! channel_id))
       then stop_channel channel_id else mret tt);
  channel ← db_get Channels channel_id;
  match non_empty channel with
  | None =>
      raise (ValueError ("Channel " +:+ channel_id
                           +:+ " not found in database"))
  | Some channel =>
      let channel_type := get_or channel "channel_type" (PStr "") in
      adapter_cls ← lift (get_adapter_class channel_type);
      match adapter_cls with
      | None =>
          let error_msg :=
            "No adapter registered for channel type '"
              +:+ py_str E channel_type +:+ "'" in
          _ ← db_update Channels channel_id (error_fields error_msg);
          raise (ValueError error_msg)
      | Some cls =>
          let config := parse_config E (get_or channel "config" (PDict ∅)) in
          '(is_valid, validation_error) ←
            lift (ac_validate cls channel_id config);
          if negb is_valid then
            let error_msg :=
              "Invalid config for channel " +:+ channel_id +:+ ": "
                +:+ py_str E validation_error in
            _ ← db_update Channels channel_id (error_fields error_msg);
            raise (ValueError error_msg)
          else
            _ ← modify (set_channel_cache <[channel_id := channel]>);
            _ ← modify (set_adapters
                          <[channel_id := ac_instance cls channel_id config]>);
            _ ← modify (set_tasks <[channel_id := false]>);
            _ ← db_update Channels channel_id active_fields;
            mret tt
      end
  end.

(** [ChannelGateway.restart_channel(channel_id)] *)
Definition restart_channel (channel_id : string) : M unit :=
  _ ← stop_channel channel_id;
  start_channel channel_id.

(** The [except Exception] clause of [_run_adapter]: what the gateway does
    when the adapter's [start()] raises. *)
Definition adapter_crashed (cid : string) : M unit :=
  _ ← db_update Channels cid (error_fields "Adapter crashed unexpectedly");
  _ ← modify (set_adapters (delete cid));
  _ ← modify (set_tasks (delete cid));
  modify (set_channel_cache (delete cid)).

(** The loop of [shutdown] over the channel ids. *)
Fixpoint stop_all (channel_ids : list string) : M unit :=
  match channel_ids with
  | [] => mret tt
  | channel_id :: rest =>
      _ ← try_except (stop_channel channel_id) (λ _, mret tt);
      stop_all rest
  end.

(** [ChannelGateway.shutdown()]; the channel ids are taken in the order of
    the map. *)
Definition shutdown : M unit :=
  w ← get_world;
  _ ← stop_all (map_to_list (_adapters w)).*1;
  w ← get_world;
  _ ← modify (set_windows (RateLimiter.clear None (_windows w)));
  modify (set_channel_cache (λ _, ∅)).

End Lifecycle.

(** *** A registry with one adapter class *)

(** An adapter whose [stop()] raises and that sends nothing back. *)
Definition stubborn : adapter :=
  mkAdapter (Raise AdapterError) (λ _, Ok PNone).

(** The class of the feishu adapter, for the example: a configuration is
    valid when it is a dictionary with an ["app_id"]. *)
Definition feishu_class : adapter_class :=
  mkClass (λ _ config,
             match config with
             | PDict d => if truthy (get d "app_id") then Ok (true, PNone)
                          else Ok (false, PStr "app_id is required")
             | _ => Ok (false, PStr "config must be a mapping")
             end)
          (λ _ _, stubborn).

Definition demo_registry : gmap string adapter_class :=
  {[ "feishu" := feishu_class ]}.

(** A channel of a type that has no adapter, and one that can start. *)
Definition telegram_channel : dict :=
  {[ "id" := PStr "c2"; "name" := PStr "news";
     "channel_type" := PStr "telegram"; "agent_id" := PStr "a1";
     "status" := PStr "inactive"; "access_mode" := PStr "open" ]}.

Definition feishu_channel : dict :=
  {[ "id" := PStr "c3"; "name" := PStr "desk";
     "channel_type" := PStr "feishu"; "agent_id" := PStr "a1";
     "config" := PDict {[ "app_id" := PStr "cli_1" ]};
     "status" := PStr "error";
     "error_message" := PStr "Adapter crashed unexpectedly";
     "access_mode" := PStr "open" ]}.

(** The channel ["c1"] runs, with an adapter whose [stop()] raises. *)
Definition running_world : world :=
  set_adapters <["c1" := stubborn]> GatewayExamples.idle_world.

Definition lifecycle_world : world :=
  mkWorld (mkStore {[ "c2" := telegram_channel; "c3" := feishu_channel ]}
                   ∅ ∅ ∅ ∅ ∅)
          [] 0%nat ∅ ∅ ∅ ∅ TaskManager.init [] [] [] [].

End Lifecycle.

(** ** What the stages of the message pipeline leave alone *)

Module Pipeline.
Import Runtime.

(** Between two worlds nothing was handed to an adapter and the adapters
    are the same. *)
Definition calm (w w' : world) : Prop :=
  outbox w' = outbox w ∧ _adapters w' = _adapters w.

(** A computation that sends nothing and leaves the adapters alone,
    whether it returns or raises. *)
Definition Calm {A} (m : M A) : Prop :=
  ∀ w, ∃ r w', m w = (r, w') ∧ calm w w'.

(** A calm computation that never raises. *)
Definition Sure {A} (m : M A) : Prop :=
  ∀ w, ∃ a w', m w = (Ok a, w') ∧ calm w w'.

(** The reply that [handle_inbound_message] sends for the text [reply] of
    the conversation. *)
Definition reply_to (msg : InboundMessage) (reply : string)
    : OutboundMessage :=
  mkOutbound (in_channel_id msg) (in_external_chat_id msg)
    (in_external_thread_id msg) (in_external_message_id msg)
    (if bool_decide (reply = "") then "(No response generated)" else reply).

(** The notice sent to a sender who is over the rate limit. *)
Definition rate_limit_notice (msg : InboundMessage) : OutboundMessage :=
  mkOutbound (in_channel_id msg) (in_external_chat_id msg)
    (in_external_thread_id msg) (in_external_message_id msg)
    "You are sending messages too quickly. Please wait a moment and try again.".

(** A world in which the channel ["c1"] is cached with an allowlist that
    holds ["U1"] only and a limit of one message per minute; its adapter
    stops without trouble and fails to send. *)
Definition guarded_channel : dict :=
  {[ "id" := PStr "c1"; "agent_id" := PStr "a1";
     "access_mode" := PStr "allowlist";
     "allowed_senders" := PList [PStr "U1"];
     "rate_limit_per_minute" := PInt 1 ]}.

Definition guarded_world : world :=
  set_adapters <["c1" := mkAdapter (Ok tt) (λ _, Raise AdapterError)]>
    (set_channel_cache <["c1" := guarded_channel]> GatewayExamples.idle_world).

(** The same, once ["U1"] has sent a message at time 0. *)
Definition busy_world : world :=
  set_windows {[ "U1" := [0%Q] ]} guarded_world.

(** A message of a sender who is not on the allowlist. *)
Definition stranger_msg : InboundMessage :=
  mkInbound "c1" "chat-9" "U9" None None "hello" None [] ∅.

End Pipeline.

(** * Properties of the task manager *)

Section EventBuffer.
Import TaskManager.

Lemma last_n_length {A} (n : nat) (l : list A) :
  length (last_n n l) = (length l `min` n)%nat.
Proof.
  unfold last_n. rewrite length_drop.
  destruct (Nat.min_spec (length l) n) as [[? ->]|[? ->]]; lia.
Qed.

Lemma last_n_short {A} (n : nat) (l : list A) :
  (length l ≤ n)%nat → last_n n l = l.
Proof. intros H. unfold last_n. by replace (length l - n)%nat with 0%nat by lia. Qed.

Lemma last_n_snoc {A} (n : nat) (l : list A) (x : A) :
  last_n n (last_n n l ++ [x]) = last_n n (l ++ [x]).
Proof.
  destruct (decide (length l ≤ n)%nat) as [Hle|Hgt].
  - by rewrite (last_n_short n l).
  - unfold last_n at 1 3.
    rewrite !length_app, last_n_length, Nat.min_r by lia. simpl.
    destruct (decide (n = 0%nat)) as [->|Hn].
    { rewrite !drop_ge; [done| |]; rewrite length_app, ?last_n_length; simpl; lia. }
    replace (n + 1 - n)%nat with 1%nat by lia.
    unfold last_n. rewrite (drop_app_le l) by lia.
    rewrite drop_app_le by (rewrite length_drop; lia).
    rewrite drop_drop. f_equal. f_equal. lia.
Qed.

Lemma buffer_append_last_n (buf : list event) (e : event) :
  (length buf ≤ _max_buffer_size)%nat →
  buffer_append buf e = last_n _max_buffer_size (buf ++ [e]).
Proof.
  intros Hle. unfold buffer_append, last_n.
  rewrite length_app. simpl. case_decide.
  - f_equal. lia.
  - by replace (length buf + 1 - _max_buffer_size)%nat with 0%nat by lia.
Qed.

Lemma queue_puts_buffers (qs : list qid) (e : event) (tm : task_manager) :
  _event_buffers (foldl (λ t q, queue_put q e t) tm qs) = _event_buffers tm.
Proof. revert tm. induction qs as [|q qs IH]; intros tm; [done|]. simpl. by rewrite IH. Qed.

Lemma emit_event_buffers (tid : string) (e : event) (tm : task_manager) :
  _event_buffers (_emit_event tid e tm) =
    match _event_buffers tm !! tid with
    | Some buf => <[tid := buffer_append buf e]> (_event_buffers tm)
    | None => _event_buffers tm
    end.
Proof.
  unfold _emit_event.
  destruct (_event_buffers tm !! tid) as [buf|] eqn:Hb;
    destruct (_subscribers _ !! tid); by rewrite ?queue_puts_buffers.
Qed.

Lemma emit_all_snoc evs te tm :
  emit_all (evs ++ [te]) tm = _emit_event te.1 te.2 (emit_all evs tm).
Proof. unfold emit_all. by rewrite foldl_app. Qed.

Lemma events_of_snoc tid evs te :
  events_of tid (evs ++ [te]) =
    events_of tid evs ++ (if decide (te.1 = tid) then [te.2] else []).
Proof.
  unfold events_of. rewrite filter_app, fmap_app. f_equal.
  rewrite filter_cons, filter_nil. by case_decide.
Qed.

Lemma emit_all_buffer (tid : string) (evs : list (string * event))
    (buf : list event) (tm : task_manager) :
  _event_buffers tm !! tid = Some buf →
  (length buf ≤ _max_buffer_size)%nat →
  _event_buffers (emit_all evs tm) !! tid
    = Some (last_n _max_buffer_size (buf ++ events_of tid evs)).
Proof.
  intros Hb Hle. induction evs as [|[t e] evs IH] using rev_ind.
  - simpl. unfold events_of. simpl. by rewrite app_nil_r, last_n_short.
  - rewrite emit_all_snoc, events_of_snoc, emit_event_buffers. simpl.
    case_decide as Ht.
    + subst t. rewrite IH, lookup_insert_eq. f_equal.
      rewrite buffer_append_last_n by (rewrite last_n_length; lia).
      by rewrite last_n_snoc, app_assoc.
    + rewrite app_nil_r.
      destruct (_event_buffers (emit_all evs tm) !! t);
        by rewrite ?lookup_insert_ne.
Qed.

(** C6: the buffer of a task holds at most 100 events; emissions keep the
    emission order and drop the oldest event first, so that after any run
    of emissions the buffer is the last 100 events of what it held followed
    by what was emitted on the task; after 150 emissions on a new task it is
    exactly the last 100 of them. *)
Theorem event_buffer_bounded_fifo (tid : string)
    (evs : list (string * event)) (buf : list event) (tm : task_manager) :
  _event_buffers tm !! tid = Some buf →
  (length buf ≤ 100)%nat →
  ∃ buf',
    _event_buffers (emit_all evs tm) !! tid = Some buf' ∧
    (length buf' ≤ 100)%nat ∧
    buf' = drop (length (buf ++ events_of tid evs) - 100)
                (buf ++ events_of tid evs) ∧
    (buf = [] → length (events_of tid evs) = 150%nat →
     length buf' = 100%nat ∧ buf' = drop 50 (events_of tid evs)).
Proof.
  intros Hb Hle. eexists. split; [by apply emit_all_buffer|].
  split; [rewrite last_n_length; unfold _max_buffer_size; lia|].
  split; [done|].
  intros -> H150. simpl. rewrite last_n_length. unfold last_n.
  rewrite H150. split; [unfold _max_buffer_size; lia | done].
Qed.

Lemma event_buffer_bounded_fifo_witness :
  ∃ buf',
    _event_buffers (emit_all TaskExamples.burst TaskExamples.fresh_task) !! "t"
      = Some buf' ∧
    (length buf' ≤ 100)%nat.
Proof.
  destruct (event_buffer_bounded_fifo "t" TaskExamples.burst []
              TaskExamples.fresh_task eq_refl (Nat.le_0_l 100))
    as (buf' & H1 & H2 & _).
  exists buf'. split; [exact H1 | exact H2].
Defined.

End EventBuffer.

Section Subscription.
Import TaskManager.

(** ** Occurrences in subscriber lists *)

Lemma occ_nil q : occ q [] = 0%nat.
Proof. done. Qed.

Lemma occ_cons q x qs :
  occ q (x :: qs) = ((if decide (x = q) then 1 else 0) + occ q qs)%nat.
Proof. unfold occ. rewrite filter_cons. by case_decide. Qed.

Lemma occ_app q qs1 qs2 : occ q (qs1 ++ qs2) = (occ q qs1 + occ q qs2)%nat.
Proof. unfold occ. by rewrite filter_app, length_app. Qed.

Lemma occ_0 q qs : occ q qs = 0%nat ↔ q ∉ qs.
Proof.
  induction qs as [|x qs IH].
  { split; [intros _; apply not_elem_of_nil | done]. }
  rewrite occ_cons, not_elem_of_cons, <- IH. case_decide as Hx.
  - subst x. split; [lia | by intros [? _]].
  - split; [intros ?; split; [congruence | lia] | intros [_ ?]; lia].
Qed.

Lemma occ_fresh q qs n :
  (∀ x, x ∈ qs → (x < n)%nat) → (n ≤ q)%nat → occ q qs = 0%nat.
Proof. intros Hlt Hq. apply occ_0. intros Hin. apply Hlt in Hin. lia. Qed.

Lemma list_remove_first_elem q qs qs' x :
  list_remove_first q qs = Some qs' → x ∈ qs' → x ∈ qs.
Proof.
  revert qs'. induction qs as [|y qs IH]; intros qs'; simpl; [done|].
  case_decide.
  - intros [= <-] Hx. rewrite elem_of_cons; by right.
  - destruct (list_remove_first q qs) as [r|]; simpl; [|done].
    intros Heq. injection Heq as <-. rewrite !elem_of_cons. naive_solver.
Qed.

Lemma list_remove_first_occ q qs qs' x :
  list_remove_first q qs = Some qs' →
  occ x qs = ((if decide (q = x) then 1 else 0) + occ x qs')%nat.
Proof.
  revert qs'. induction qs as [|y qs IH]; intros qs'; simpl; [done|].
  rewrite occ_cons. destruct (decide (y = q)) as [->|Hy].
  - by intros [= <-].
  - destruct (list_remove_first q qs) as [r|]; simpl; [|done].
    intros [= <-]. rewrite occ_cons, (IH r eq_refl).
    repeat case_decide; subst; try done; lia.
Qed.

Lemma list_remove_first_is_Some q qs :
  (0 < occ q qs)%nat → is_Some (list_remove_first q qs).
Proof.
  induction qs as [|y qs IH]; simpl; [rewrite occ_nil; lia|].
  rewrite occ_cons. case_decide; [eauto|].
  intros H0. destruct IH as [r ->]; [lia|]. simpl. eauto.
Qed.

(** ** What an emission changes *)

Lemma queue_puts_frame (qs : list nat) (e : event) (tm : task_manager) :
  let tm' := foldl (λ t q, queue_put q e t) tm qs in
  _subscribers tm' = _subscribers tm ∧ next_qid tm' = next_qid tm ∧
  _running_tasks tm' = _running_tasks tm ∧
  _message_queues tm' = _message_queues tm.
Proof.
  revert tm. induction qs as [|q qs IH]; intros tm; [done|]. simpl.
  destruct (IH (queue_put q e tm)) as (-> & -> & -> & ->). done.
Qed.

Lemma queue_puts_heap (qs : list nat) (e : event) (tm : task_manager) q :
  queue_heap (foldl (λ t q, queue_put q e t) tm qs) !! q
  = (λ l, l ++ replicate (occ q qs) e) <$> (queue_heap tm !! q).
Proof.
  revert tm. induction qs as [|x qs IH]; intros tm; simpl.
  - destruct (queue_heap tm !! q); simpl; by rewrite ?app_nil_r.
  - rewrite IH, occ_cons. simpl. rewrite lookup_alter.
    destruct (decide (x = q)) as [->|Hx]; [|done].
    destruct (queue_heap tm !! q); simpl; [|done].
    by rewrite <- app_assoc.
Qed.

Lemma emit_event_frame tid e tm :
  _subscribers (_emit_event tid e tm) = _subscribers tm ∧
  next_qid (_emit_event tid e tm) = next_qid tm.
Proof.
  unfold _emit_event.
  set (tm1 := match _event_buffers tm !! tid with
              | Some buf => _ | None => _ end).
  assert (_subscribers tm1 = _subscribers tm ∧ next_qid tm1 = next_qid tm)
    as [Hs Hn] by (unfold tm1; by destruct (_event_buffers tm !! tid)).
  destruct (_subscribers tm1 !! tid) as [qs|]; [|done].
  by destruct (queue_puts_frame qs e tm1) as (-> & -> & _).
Qed.

Lemma emit_event_heap tid e tm q :
  queue_heap (_emit_event tid e tm) !! q
  = (λ l, l ++ replicate (occ q (default [] (_subscribers tm !! tid))) e)
      <$> (queue_heap tm !! q).
Proof.
  unfold _emit_event.
  set (tm1 := match _event_buffers tm !! tid with
              | Some buf => _ | None => _ end).
  assert (_subscribers tm1 = _subscribers tm ∧ queue_heap tm1 = queue_heap tm)
    as [Hs Hn] by (unfold tm1; by destruct (_event_buffers tm !! tid)).
  rewrite Hs. destruct (_subscribers tm !! tid) as [qs|]; simpl.
  - by rewrite queue_puts_heap, Hn.
  - rewrite Hn. destruct (queue_heap tm !! q); simpl; by rewrite ?app_nil_r.
Qed.

(** ** What a generator step changes *)

Lemma q_frame_refl q0 tm : q_frame q0 tm tm.
Proof.
  repeat split; [done..|]. intros t qs' ->. done.
Qed.

Lemma live_frame g tm r g' tm' :
  live g tm = (r, g', tm') →
  _subscribers tm' = _subscribers tm ∧ next_qid tm' = next_qid tm ∧
  g_task g' = g_task g ∧ g_queue g' = g_queue g ∧ finished g' = false ∧
  (∀ q, q ≠ g_queue g → queue_heap tm' !! q = queue_heap tm !! q).
Proof.
  unfold live. destruct (queue_heap tm !! g_queue g) as [[|e l]|];
    intros [= <- <- <-]; simpl; repeat split; try done.
  intros q Hq. by rewrite lookup_insert_ne.
Qed.

Lemma replay_frame rest g tm r g' tm' :
  replay rest g tm = (r, g', tm') →
  _subscribers tm' = _subscribers tm ∧ next_qid tm' = next_qid tm ∧
  g_task g' = g_task g ∧ g_queue g' = g_queue g ∧ finished g' = false ∧
  (∀ q, q ≠ g_queue g → queue_heap tm' !! q = queue_heap tm !! q).
Proof.
  destruct rest as [|e rest]; simpl; [apply live_frame|].
  by intros [= <- <- <-].
Qed.

Lemma deregister_frame t q tm tm' q0 :
  deregister t q tm = Some tm' → q ≠ q0 →
  q_frame q0 tm tm' ∧ next_qid tm' = next_qid tm ∧
  (∀ t' qs' x, _subscribers tm' !! t' = Some qs' → x ∈ qs' →
     ∃ qs, _subscribers tm !! t' = Some qs ∧ x ∈ qs).
Proof.
  unfold deregister. intros Hd Hq.
  destruct (_subscribers tm !! t) as [qs|] eqn:Hs.
  2:{ injection Hd as <-. split; [apply q_frame_refl|]. split; [done|]. eauto. }
  destruct (list_remove_first q qs) as [qs'|] eqn:Hr; [|done].
  injection Hd as <-. simpl. split; [|split; [done|]].
  - repeat split; simpl; [done| |].
    + intros t'. destruct (decide (t = t')) as [->|];
        [rewrite lookup_insert_eq | rewrite lookup_insert_ne by done]; eauto.
    + intros t' l. destruct (decide (t = t')) as [->|].
      * rewrite lookup_insert_eq, Hs. intros [= <-]. simpl.
        rewrite (list_remove_first_occ q qs qs' q0 Hr). by case_decide.
      * rewrite lookup_insert_ne by done. by intros ->.
  - intros t' l x. destruct (decide (t = t')) as [->|].
    + rewrite lookup_insert_eq. intros [= <-] Hx. exists qs. split; [done|].
      by eapply list_remove_first_elem.
    + rewrite lookup_insert_ne by done. eauto.
Qed.

Lemma finish_frame g tm r g' tm' :
  finish g tm = (r, g', tm') →
  finished g' = true ∧ g_task g' = g_task g ∧ g_queue g' = g_queue g ∧
  g_out g' = g_out g ∧
  ((r = Raised ∧ tm' = tm ∧ deregister (g_task g) (g_queue g) tm = None) ∨
   (r = StopAsyncIteration ∧ deregister (g_task g) (g_queue g) tm = Some tm')).
Proof.
  unfold finish. destruct (deregister _ _ tm) as [tm1|] eqn:Hd;
    intros [= <- <- <-]; simpl; repeat split; eauto.
Qed.

Lemma deregister_elem t q tm tm' :
  deregister t q tm = Some tm' →
  next_qid tm' = next_qid tm ∧ queue_heap tm' = queue_heap tm ∧
  (∀ t' qs' x, _subscribers tm' !! t' = Some qs' → x ∈ qs' →
     ∃ qs, _subscribers tm !! t' = Some qs ∧ x ∈ qs).
Proof.
  unfold deregister. intros Hd.
  destruct (_subscribers tm !! t) as [qs|] eqn:Hs.
  2:{ injection Hd as <-. repeat split; eauto. }
  destruct (list_remove_first q qs) as [qs'|] eqn:Hr; [|done].
  injection Hd as <-. simpl. repeat split.
  intros t' l x. destruct (decide (t = t')) as [->|].
  - rewrite lookup_insert_eq. intros [= <-] Hx. exists qs. split; [done|].
    by eapply list_remove_first_elem.
  - rewrite lookup_insert_ne by done. eauto.
Qed.

Lemma not_active_finished g : finished g = true → ¬ active g.
Proof. unfold finished, active. destruct (g_state g); intros ? ?; done. Qed.

Lemma allocated_update s tm' gid g' :
  allocated s →
  (next_qid (sys_tm s) ≤ next_qid tm')%nat →
  (∀ t qs q, _subscribers tm' !! t = Some qs → q ∈ qs →
     (q < next_qid tm')%nat) →
  (active g' → (g_queue g' < next_qid tm')%nat) →
  allocated (mkSys tm' (<[gid := g']> (sys_gens s))).
Proof.
  intros [Hs Hg] Hn Hs' Hg'. split; simpl; [done|].
  intros gid1 g1. destruct (decide (gid = gid1)) as [->|].
  - rewrite lookup_insert_eq. by intros [= <-].
  - rewrite lookup_insert_ne by done. intros H1 H2.
    specialize (Hg _ _ H1 H2). lia.
Qed.

Lemma register_elem t q tm t' qs x :
  _subscribers (register t q tm) !! t' = Some qs → x ∈ qs →
  x = q ∨ ∃ qs0, _subscribers tm !! t' = Some qs0 ∧ x ∈ qs0.
Proof.
  unfold register. simpl. destruct (decide (t = t')) as [->|].
  - rewrite lookup_insert_eq. intros [= <-]. rewrite elem_of_app, list_elem_of_singleton.
    intros [Hx|Hx]; [|by left]. right.
    destruct (_subscribers tm !! t') as [qs0|]; simpl in *; [eauto|].
    by apply elem_of_nil in Hx.
  - rewrite lookup_insert_ne by done. eauto.
Qed.

Lemma anext_allocated s gid g r g' tm' :
  allocated s → sys_gens s !! gid = Some g →
  anext g (sys_tm s) = (r, g', tm') →
  allocated (mkSys tm' (<[gid := g']> (sys_gens s))).
Proof.
  intros Hal Hg. pose proof Hal as [Hs Hgs]. unfold anext.
  destruct (g_state g) eqn:Hst.
  - simpl. intros Hr. apply replay_frame in Hr as (Hsub & Hn & _ & Hq & _).
    simpl in *. apply allocated_update; simpl; [done|lia| |lia].
    intros t qs q. rewrite Hsub, Hn. intros H1 H2.
    destruct (register_elem _ _ _ _ _ _ H1 H2) as [->|(qs0 & H3 & H4)];
      simpl in *; [lia|]. specialize (Hs _ _ _ H3 H4). lia.
  - intros Hr. apply replay_frame in Hr as (Hsub & Hn & _ & Hq & _).
    apply allocated_update; [done|lia|rewrite Hsub, Hn; apply Hs|].
    intros _. rewrite Hq, Hn. apply (Hgs gid g Hg). unfold active. by rewrite Hst.
  - intros Hr. apply live_frame in Hr as (Hsub & Hn & _ & Hq & _).
    apply allocated_update; [done|lia|rewrite Hsub, Hn; apply Hs|].
    intros _. rewrite Hq, Hn. apply (Hgs gid g Hg). unfold active. by rewrite Hst.
  - destruct (is_terminal e).
    + intros Hr. apply finish_frame in Hr as (Hf & _ & _ & _ & Hd).
      apply allocated_update; [done| | |by intros ?%not_active_finished].
      * destruct Hd as [(_ & -> & _)|(_ & Hd)]; [done|].
        apply deregister_elem in Hd as (-> & _). done.
      * destruct Hd as [(_ & -> & _)|(_ & Hd)]; [done|].
        apply deregister_elem in Hd as (-> & _ & Hd).
        intros t qs q H1 H2. destruct (Hd _ _ _ H1 H2) as (qs0 & H3 & H4). eauto.
    + intros Hr. apply live_frame in Hr as (Hsub & Hn & _ & Hq & _).
      apply allocated_update; [done|lia|rewrite Hsub, Hn; apply Hs|].
      intros _. rewrite Hq, Hn. apply (Hgs gid g Hg). unfold active. by rewrite Hst.
  - intros [= <- <- <-]. apply allocated_update; [done|done|done|].
    unfold active. by rewrite Hst.
Qed.

Lemma aclose_allocated s gid g g' tm' :
  allocated s → sys_gens s !! gid = Some g →
  aclose g (sys_tm s) = (g', tm') →
  allocated (mkSys tm' (<[gid := g']> (sys_gens s))).
Proof.
  intros Hal Hg. pose proof Hal as [Hs Hgs]. unfold aclose.
  assert (∀ r, finish g (sys_tm s) = (r, g', tm') →
            allocated (mkSys tm' (<[gid := g']> (sys_gens s)))) as Hfin.
  { intros r Hr. apply finish_frame in Hr as (Hf & _ & _ & _ & Hd).
    apply allocated_update; [done| | |by intros ?%not_active_finished].
    - destruct Hd as [(_ & -> & _)|(_ & Hd)]; [done|].
      apply deregister_elem in Hd as (-> & _). done.
    - destruct Hd as [(_ & -> & _)|(_ & Hd)]; [done|].
      apply deregister_elem in Hd as (-> & _ & Hd).
      intros t qs q H1 H2. destruct (Hd _ _ _ H1 H2) as (qs0 & H3 & H4). eauto. }
  destruct (g_state g) eqn:Hst;
    try (destruct (finish g (sys_tm s)) as [[r g1] tm1] eqn:Hf;
         intros [= <- <-]; by eapply Hfin).
  - intros [= <- <-]. apply allocated_update; [done..|].
    by intros ?%not_active_finished.
  - intros [= <- <-]. apply allocated_update; [done..|].
    unfold active. by rewrite Hst.
Qed.

Lemma step_allocated a s : allocated s → allocated (step a s).
Proof.
  intros Hal. destruct a as [t e|gid t|gid|gid]; simpl.
  - destruct Hal as [Hs Hg].
    destruct (emit_event_frame t e (sys_tm s)) as [Hsub Hn].
    split; simpl; rewrite ?Hsub, Hn; done.
  - destruct (sys_gens s !! gid) eqn:Hg; [done|].
    destruct s as [tm gens]. apply (allocated_update (mkSys tm gens)); simpl; try done.
    apply Hal.
  - destruct (sys_gens s !! gid) as [g|] eqn:Hg; [|done].
    destruct (anext g (sys_tm s)) as [[r g'] tm'] eqn:Ha.
    by eapply anext_allocated.
  - destruct (sys_gens s !! gid) as [g|] eqn:Hg; [|done].
    destruct (aclose g (sys_tm s)) as [g' tm'] eqn:Ha.
    by eapply aclose_allocated.
Qed.

Lemma new_queue_register_frame t tm q0 :
  (q0 < next_qid tm)%nat →
  q_frame q0 tm (register t (new_queue tm).1 (new_queue tm).2).
Proof.
  intros Hq. unfold q_frame, register, new_queue. simpl.
  split; [rewrite lookup_insert_ne by lia; done|]. split; [lia|]. split.
  - intros t'. destruct (decide (t = t')) as [->|];
      [rewrite lookup_insert_eq | rewrite lookup_insert_ne by done]; eauto.
  - intros t' qs'. destruct (decide (t = t')) as [->|].
    + rewrite lookup_insert_eq. intros [= <-]. rewrite occ_app, occ_cons, occ_nil.
      case_decide; lia.
    + rewrite lookup_insert_ne by done. by intros ->.
Qed.

Lemma q_frame_heap_only q0 tm tm' :
  _subscribers tm' = _subscribers tm → next_qid tm' = next_qid tm →
  queue_heap tm' !! q0 = queue_heap tm !! q0 →
  q_frame q0 tm tm'.
Proof.
  intros Hs Hn Hh. unfold q_frame. rewrite Hs, Hn, Hh.
  repeat split; [done..|]. by intros t qs' ->.
Qed.

Lemma q_frame_trans q0 tm1 tm2 tm3 :
  q_frame q0 tm1 tm2 → _subscribers tm3 = _subscribers tm2 →
  next_qid tm3 = next_qid tm2 →
  queue_heap tm3 !! q0 = queue_heap tm2 !! q0 →
  q_frame q0 tm1 tm3.
Proof.
  intros (H1 & H2 & H3 & H4) Hs Hn Hh. unfold q_frame.
  rewrite Hs, Hn, Hh. done.
Qed.

Lemma anext_other_frame g tm r g' tm' q0 :
  (q0 < next_qid tm)%nat → (active g → g_queue g ≠ q0) →
  anext g tm = (r, g', tm') →
  q_frame q0 tm tm' ∧ (active g' → g_queue g' ≠ q0).
Proof.
  intros Hq Hact. unfold anext. destruct (g_state g) eqn:Hst.
  - simpl. intros Hr. apply replay_frame in Hr as (Hsub & Hn & _ & Hq' & _ & Hh).
    simpl in *. split; [|intros _; lia].
    eapply q_frame_trans; [by apply (new_queue_register_frame (g_task g))|done..|].
    apply Hh. lia.
  - intros Hr. apply replay_frame in Hr as (Hsub & Hn & _ & Hq' & _ & Hh).
    assert (g_queue g ≠ q0) by (apply Hact; unfold active; by rewrite Hst).
    split; [|by rewrite Hq']. apply q_frame_heap_only; auto.
  - intros Hr. apply live_frame in Hr as (Hsub & Hn & _ & Hq' & _ & Hh).
    assert (g_queue g ≠ q0) by (apply Hact; unfold active; by rewrite Hst).
    split; [|by rewrite Hq']. apply q_frame_heap_only; auto.
  - assert (g_queue g ≠ q0) by (apply Hact; unfold active; by rewrite Hst).
    destruct (is_terminal e).
    + intros Hr. apply finish_frame in Hr as (Hf & _ & _ & _ & Hd).
      split; [|by intros ?%not_active_finished].
      destruct Hd as [(_ & -> & _)|(_ & Hd)]; [apply q_frame_refl|].
      by apply (deregister_frame _ _ _ _ q0) in Hd as (? & _).
    + intros Hr. apply live_frame in Hr as (Hsub & Hn & _ & Hq' & _ & Hh).
      split; [|by rewrite Hq']. apply q_frame_heap_only; auto.
  - intros [= <- <- <-]. split; [apply q_frame_refl|done].
Qed.

Lemma aclose_other_frame g tm g' tm' q0 :
  (active g → g_queue g ≠ q0) →
  aclose g tm = (g', tm') →
  q_frame q0 tm tm' ∧ (active g' → g_queue g' ≠ q0).
Proof.
  intros Hact. unfold aclose.
  assert (active g → ∀ r, finish g tm = (r, g', tm') →
          q_frame q0 tm tm' ∧ (active g' → g_queue g' ≠ q0)) as Hfin.
  { intros Ha r Hr. apply finish_frame in Hr as (Hf & _ & _ & _ & Hd).
    split; [|by intros ?%not_active_finished].
    destruct Hd as [(_ & -> & _)|(_ & Hd)]; [apply q_frame_refl|].
    apply (deregister_frame _ _ _ _ q0) in Hd as (? & _); auto. }
  destruct (g_state g) eqn:Hst;
    try (destruct (finish g tm) as [[r g1] tm1] eqn:Hf;
         intros [= <- <-]; eapply Hfin; [unfold active; by rewrite Hst|done]).
  - intros [= <- <-]. split; [apply q_frame_refl|].
    by intros ?%not_active_finished.
  - intros [= <- <-]. split; [apply q_frame_refl|done].
Qed.

(** A step that leaves the subscription's generator and queue alone keeps
    its delivery state. *)
Lemma delivery_frame gid tid B L s s' g :
  delivery gid tid B L s → sys_gens s !! gid = Some g →
  sys_gens s' !! gid = Some g →
  allocated s' →
  q_frame (g_queue g) (sys_tm s) (sys_tm s') →
  (∀ gid' g', gid' ≠ gid → sys_gens s' !! gid' = Some g' → active g' →
              g_queue g' ≠ g_queue g) →
  delivery gid tid B L s'.
Proof.
  intros (g0 & Hg0 & Ht & Hal & Hq & Hoth & Hocc & Hsome & Hst) Hg Hg' Hal'
         (Hh & Hn & Hsm & Hoc) Hoth'.
  rewrite Hg in Hg0. injection Hg0 as <-.
  exists g. split; [done|]. split; [done|]. split; [done|].
  split; [lia|]. split; [done|]. split; [|split].
  - intros t qs' Hqs'. rewrite (Hoc _ _ Hqs').
    destruct (_subscribers (sys_tm s) !! t) as [qs|] eqn:Hqs; simpl; [eauto|].
    rewrite occ_nil. case_decide as Ht'; [|done]. subst t.
    destruct (finished g) eqn:Hf; [done|].
    destruct (Hsome eq_refl) as [? Hx]. congruence.
  - intros Hf. apply Hsm. auto.
  - rewrite Hh. done.
Qed.

(** The first [__anext__] registers the queue and takes the snapshot. *)
Lemma start_delivery s gid g :
  allocated s → sys_gens s !! gid = Some g →
  g_state g = NotStarted → g_out g = [] →
  delivery gid (g_task g)
    (default [] (_event_buffers (sys_tm s) !! g_task g)) []
    (step (ANext gid) s).
Proof.
  intros Hal Hg Hst Hout. simpl. rewrite Hg.
  destruct (anext g (sys_tm s)) as [[r g'] tm'] eqn:Ha.
  pose proof (anext_allocated _ _ _ _ _ _ Hal Hg Ha) as Hal'.
  destruct Hal as [Hs Hgs].
  unfold anext in Ha. rewrite Hst in Ha. simpl in Ha.
  set (B := default [] (_event_buffers (sys_tm s) !! g_task g)) in *.
  set (q := next_qid (sys_tm s)) in *.
  assert (∀ t qs, _subscribers tm' !! t = Some qs →
            occ q qs = if decide (t = g_task g) then 1%nat else 0%nat) as Hocc.
  { apply replay_frame in Ha as (-> & _). simpl. intros t qs.
    destruct (decide (g_task g = t)) as [<-|Hne].
    - rewrite lookup_insert_eq. intros [= <-]. rewrite decide_True by done.
      rewrite occ_app, occ_cons, occ_nil, decide_True by done.
      rewrite (occ_fresh q _ q); [lia| |lia].
      destruct (_subscribers (sys_tm s) !! g_task g) eqn:E; simpl.
      + intros x Hx. eapply Hs; eauto.
      + by intros x ?%elem_of_nil.
    - rewrite lookup_insert_ne by done. intros Hqs.
      rewrite decide_False by done. apply (occ_fresh q _ q); [|lia].
      intros x Hx. eapply Hs; eauto. }
  assert (is_Some (_subscribers tm' !! g_task g)) as Hsome.
  { apply replay_frame in Ha as (-> & _). simpl. eexists. apply lookup_insert_eq. }
  assert (g_task g' = g_task g ∧ g_queue g' = q ∧ finished g' = false ∧
          (q < next_qid tm')%nat) as (Ht & Hq & Hf & Hn).
  { apply replay_frame in Ha as (_ & -> & ? & ? & ? & _). simpl. auto. }
  exists g'. simpl. rewrite lookup_insert_eq. split; [done|]. split; [done|].
  split; [done|]. rewrite Hq, Hf. split; [done|]. split; [|split; [|split]].
  - intros gid' g1 Hne. rewrite lookup_insert_ne by done. intros Hg1 Hact.
    specialize (Hgs _ _ Hg1 Hact). unfold q. lia.
  - intros t qs Hqs. rewrite (Hocc _ _ Hqs). done.
  - done.
  - destruct B as [|e rest] eqn:HB; simpl in Ha.
    + unfold live in Ha. simpl in Ha. rewrite lookup_insert_eq in Ha.
      injection Ha as <- <- <-. simpl. exists [], []. rewrite Hout.
      repeat split; [constructor|]. by rewrite lookup_insert_eq.
    + injection Ha as <- <- <-. simpl. rewrite Hout. split; [done|].
      by rewrite lookup_insert_eq.
Qed.

Lemma emitted_snoc tid acts a :
  emitted tid (acts ++ [a]) = emitted tid acts ++ emitted tid [a].
Proof. unfold emitted. by rewrite omap_app. Qed.

Lemma emitted_emit tid t e :
  emitted tid [AEmit t e] = if decide (t = tid) then [e] else [].
Proof. unfold emitted. simpl. by case_decide. Qed.

(** An emission on the task reaches the registered queue exactly once. *)
Lemma emit_delivery gid tid B L s t e :
  delivery gid tid B L s →
  delivery gid tid B (L ++ emitted tid [AEmit t e]) (step (AEmit t e) s).
Proof.
  intros Hd. pose proof Hd as (g & Hg & Ht & Hal & Hq & Hoth & Hocc & Hsome & Hst).
  pose proof (step_allocated (AEmit t e) s Hal) as Hal'.
  rewrite emitted_emit.
  set (D := if decide (t = tid) then [e] else []).
  destruct (emit_event_frame t e (sys_tm s)) as [Hsub Hn].
  pose proof (emit_event_heap t e (sys_tm s) (g_queue g)) as Hh.
  assert (finished g = false →
          replicate (occ (g_queue g) (default [] (_subscribers (sys_tm s) !! t))) e
          = D) as HD.
  { intros Hf. unfold D. destruct (decide (t = tid)) as [->|Hne].
    - destruct (Hsome Hf) as [qs Hqs]. rewrite Hqs. simpl.
      rewrite (Hocc _ _ Hqs), decide_True, Hf by done. done.
    - destruct (_subscribers (sys_tm s) !! t) as [qs|] eqn:Hqs; simpl; [|done].
      rewrite (Hocc _ _ Hqs), decide_False by done. done. }
  exists g. split; [done|]. split; [done|]. split; [done|].
  simpl sys_tm. rewrite Hsub, Hn.
  split; [done|]. split; [done|]. split; [done|]. split; [done|].
  unfold finished in HD.
  destruct (g_state g) as [|rest| |e0|]; [done|..].
  - destruct Hst as [Hout Hheap]. split; [done|].
    rewrite Hh, Hheap. simpl. by rewrite HD.
  - destruct Hst as (L1 & L2 & -> & Hout & Hnt & Hheap).
    exists L1, (L2 ++ D). rewrite app_assoc. do 3 (split; [done|]).
    rewrite Hh, Hheap. simpl. by rewrite HD.
  - destruct Hst as (L1 & L2 & -> & Hout & Hnt & Hheap).
    exists L1, (L2 ++ D). rewrite <- app_assoc. do 3 (split; [done|]).
    rewrite Hh, Hheap. simpl. by rewrite HD.
  - destruct Hst as (L1 & e1 & L2 & -> & Hout & Hnt & Hterm).
    exists L1, e1, (L2 ++ D). rewrite <- app_assoc. done.
Qed.

(** The subscription's own [__anext__]. *)
Lemma self_next_delivery gid tid B L s :
  delivery gid tid B L s → delivery gid tid B L (step (ANext gid) s).
Proof.
  intros Hd. pose proof Hd as (g & Hg & Ht & Hal & Hq & Hoth & Hocc & Hsome & Hst).
  simpl. rewrite Hg.
  destruct (anext g (sys_tm s)) as [[r g'] tm'] eqn:Ha.
  pose proof (anext_allocated _ _ _ _ _ _ Hal Hg Ha) as Hal'.
  assert (∀ gid' g1, gid' ≠ gid → <[gid:=g']> (sys_gens s) !! gid' = Some g1 →
            active g1 → g_queue g1 ≠ g_queue g) as Hoth'.
  { intros gid' g1 Hne. rewrite lookup_insert_ne by done. by apply Hoth. }
  assert (∀ L1 L2, L = L1 ++ L2 → g_out g = B ++ L1 → no_terminal L1 →
            queue_heap (sys_tm s) !! g_queue g = Some L2 →
            finished g = false →
            live g (sys_tm s) = (r, g', tm') →
            delivery gid tid B L (mkSys tm' (<[gid:=g']> (sys_gens s))))
    as Hlive.
  { intros L1 L2 HL Hout Hnt Hheap Hf Hl.
    pose proof (live_frame _ _ _ _ _ Hl) as (Hsub & Hn & Ht' & Hq' & Hf' & _).
    exists g'. simpl. rewrite lookup_insert_eq, Hsub, Hn, Hq', Ht', Hf'.
    rewrite Hf in Hocc. do 7 (split; [auto|]).
    unfold live in Hl. rewrite Hheap in Hl.
    destruct L2 as [|e L2]; injection Hl as <- <- <-; simpl.
    - exists L1, []. by rewrite Hheap.
    - exists L1, L2. rewrite Hout, lookup_insert_eq, <- app_assoc. done. }
  unfold anext in Ha. unfold finished in Hlive.
  destruct (g_state g) as [|rest| |e|] eqn:Hstate; [done|..].
  - destruct Hst as [Hout Hheap]. destruct rest as [|e rest]; simpl in Ha.
    + rewrite app_nil_r in Hout.
      apply (Hlive [] L); auto; [by rewrite app_nil_r|constructor].
    + injection Ha as <- <- <-. exists (mkGen (g_task g) (g_queue g)
        (AtReplayYield rest) (g_out g ++ [e])). simpl.
      rewrite lookup_insert_eq. unfold finished in *. rewrite Hstate in *.
      simpl. do 7 (split; [auto|]). by rewrite <- app_assoc.
  - destruct Hst as (L1 & L2 & HL & Hout & Hnt & Hheap). by apply (Hlive L1 L2).
  - destruct Hst as (L1 & L2 & HL & Hout & Hnt & Hheap).
    destruct (is_terminal e) eqn:Hterm.
    + unfold finished in *. rewrite Hstate in *.
      destruct (Hsome eq_refl) as [qs Hqs].
      pose proof (Hocc _ _ Hqs) as Hoq. rewrite decide_True in Hoq by done.
      destruct (list_remove_first_is_Some (g_queue g) qs) as [qs' Hrem]; [lia|].
      unfold finish, deregister in Ha. rewrite Ht, Hqs, Hrem in Ha.
      injection Ha as <- <- <-.
      exists (mkGen tid (g_queue g) Finished (g_out g)). simpl.
      rewrite lookup_insert_eq. do 4 (split; [auto|]). split; [auto|].
      split; [|split; [done|]].
      * intros t l. destruct (decide (tid = t)) as [<-|Hne].
        -- rewrite lookup_insert_eq, decide_True by done. intros [= <-].
           pose proof (list_remove_first_occ _ _ _ (g_queue g) Hrem) as Ho.
           rewrite decide_True in Ho by done. lia.
        -- rewrite lookup_insert_ne, decide_False by done. intros Hl.
           rewrite (Hocc _ _ Hl), decide_False by done. done.
      * exists L1, e, L2. done.
    + apply (Hlive (L1 ++ [e]) L2); auto.
      * by rewrite <- app_assoc.
      * apply Forall_app. split; [done|]. by constructor.
  - injection Ha as <- <- <-. rewrite insert_id by done.
    destruct s as [tm gens]. done.
Qed.

Lemma step_delivery gid tid B L s a :
  a ≠ AClose gid → delivery gid tid B L s →
  delivery gid tid B (L ++ emitted tid [a]) (step a s).
Proof.
  intros Hne Hd. destruct a as [t e|gid' t|gid'|gid'].
  - by apply emit_delivery.
  - unfold emitted. simpl. rewrite app_nil_r.
    destruct (sys_gens s !! gid') as [g1|] eqn:Hg1; [done|].
    pose proof Hd as (g & Hg & _ & Hal & _ & Hoth & _).
    assert (gid' ≠ gid) as Hgid by congruence.
    eapply (delivery_frame _ _ _ _ s); eauto; simpl.
    + by rewrite lookup_insert_ne.
    + apply (step_allocated (ASubscribe gid' t)) in Hal. simpl in Hal.
      by rewrite Hg1 in Hal.
    + apply q_frame_refl.
    + intros gid1 g1 Hne1. destruct (decide (gid' = gid1)) as [<-|].
      * rewrite lookup_insert_eq. intros [= <-]. done.
      * rewrite lookup_insert_ne by done. by apply Hoth.
  - unfold emitted. simpl emitted. simpl omap. rewrite app_nil_r.
    destruct (decide (gid' = gid)) as [->|Hgid]; [by apply self_next_delivery|].
    simpl. destruct (sys_gens s !! gid') as [g1|] eqn:Hg1; [|done].
    destruct (anext g1 (sys_tm s)) as [[r g1'] tm'] eqn:Ha.
    pose proof Hd as (g & Hg & _ & Hal & Hq & Hoth & _).
    destruct (anext_other_frame _ _ _ _ _ (g_queue g) Hq (Hoth _ _ Hgid Hg1) Ha)
      as [Hfr Hact].
    eapply (delivery_frame _ _ _ _ s); eauto; simpl.
    + by rewrite lookup_insert_ne.
    + by eapply anext_allocated.
    + intros gid1 g2 Hne1. destruct (decide (gid' = gid1)) as [<-|].
      * rewrite lookup_insert_eq. by intros [= <-].
      * rewrite lookup_insert_ne by done. by apply Hoth.
  - unfold emitted. simpl omap. rewrite app_nil_r.
    assert (gid' ≠ gid) as Hgid by congruence.
    simpl. destruct (sys_gens s !! gid') as [g1|] eqn:Hg1; [|done].
    destruct (aclose g1 (sys_tm s)) as [g1' tm'] eqn:Ha.
    pose proof Hd as (g & Hg & _ & Hal & Hq & Hoth & _).
    destruct (aclose_other_frame _ _ _ _ (g_queue g) (Hoth _ _ Hgid Hg1) Ha)
      as [Hfr Hact].
    eapply (delivery_frame _ _ _ _ s); eauto; simpl.
    + by rewrite lookup_insert_ne.
    + by eapply aclose_allocated.
    + intros gid1 g2 Hne1. destruct (decide (gid' = gid1)) as [<-|].
      * rewrite lookup_insert_eq. by intros [= <-].
      * rewrite lookup_insert_ne by done. by apply Hoth.
Qed.

Lemma run_delivery gid tid B L s acts :
  AClose gid ∉ acts → delivery gid tid B L s →
  delivery gid tid B (L ++ emitted tid acts) (run acts s).
Proof.
  revert L s. induction acts as [|a acts IH]; intros L s Hno Hd.
  - unfold emitted. simpl. by rewrite app_nil_r.
  - apply not_elem_of_cons in Hno as [Ha Hno].
    replace (emitted tid (a :: acts))
      with (emitted tid [a] ++ emitted tid acts)
      by (unfold emitted; by rewrite <- omap_app).
    rewrite app_assoc. simpl. apply IH; [done|].
    apply step_delivery; [congruence|done].
Qed.

(** ** What the consumer has received *)

Lemma upto_terminal_app L1 L2 :
  no_terminal L1 → upto_terminal (L1 ++ L2) = L1 ++ upto_terminal L2.
Proof.
  induction 1 as [|e L1 He _ IH]; [done|]. simpl. by rewrite He, IH.
Qed.

Lemma upto_terminal_id L : no_terminal L → upto_terminal L = L.
Proof.
  intros H. rewrite <- (app_nil_r L) at 1.
  rewrite upto_terminal_app by done. simpl. by rewrite app_nil_r.
Qed.

Lemma upto_terminal_hit L1 e L2 :
  no_terminal L1 → is_terminal e = true →
  upto_terminal (L1 ++ e :: L2) = L1 ++ [e].
Proof. intros H1 He. rewrite upto_terminal_app by done. simpl. by rewrite He. Qed.

Lemma upto_terminal_head e L2 : [e] `prefix_of` upto_terminal (e :: L2).
Proof.
  simpl. destruct (is_terminal e); [done|]. by exists (upto_terminal L2).
Qed.

(** Whatever the interleaving, the consumer holds a prefix of the snapshot
    followed by the live events up to the first terminal one; a finished
    subscription holds all of it, ends with the terminal event, and its
    queue is in no subscriber list. *)
Lemma delivery_safe gid tid B L s :
  delivery gid tid B L s →
  ∃ g, sys_gens s !! gid = Some g ∧ g_task g = tid ∧
    g_out g `prefix_of` B ++ upto_terminal L ∧
    (finished g = true →
       g_out g = B ++ upto_terminal L ∧
       (∃ e, e ∈ L ∧ is_terminal e = true ∧ last (g_out g) = Some e) ∧
       ∀ t qs, _subscribers (sys_tm s) !! t = Some qs → g_queue g ∉ qs).
Proof.
  intros (g & Hg & Ht & Hal & Hq & Hoth & Hocc & Hsome & Hst).
  exists g. split; [done|]. split; [done|]. unfold finished in *.
  destruct (g_state g) as [|rest| |e|]; [done|..].
  - destruct Hst as [<- _]. split; [|done].
    rewrite <- app_assoc. by apply prefix_app_r.
  - destruct Hst as (L1 & L2 & -> & -> & Hnt & _). split; [|done].
    rewrite upto_terminal_app by done. apply prefix_app, prefix_app_r. done.
  - destruct Hst as (L1 & L2 & -> & -> & Hnt & _). split; [|done].
    rewrite upto_terminal_app by done. apply prefix_app, prefix_app.
    apply upto_terminal_head.
  - destruct Hst as (L1 & e & L2 & -> & -> & Hnt & He).
    rewrite upto_terminal_hit by done. split; [done|]. intros _.
    split; [done|]. split.
    + exists e. split; [set_solver|]. split; [done|].
      by rewrite app_assoc, last_snoc.
    + intros t qs Hqs. apply occ_0. rewrite (Hocc _ _ Hqs). by case_decide.
Qed.

(** One more [__anext__]: the next undelivered event if there is one;
    otherwise the consumer waits (no terminal event yet) or the
    subscription ends. *)
Lemma delivery_next gid tid B L s g r g' tm' :
  delivery gid tid B L s → sys_gens s !! gid = Some g →
  anext g (sys_tm s) = (r, g', tm') →
  (∃ e, r = Yielded e ∧ g_out g' = g_out g ++ [e]) ∨
  (g_out g' = g_out g ∧ g_out g = B ++ upto_terminal L ∧
   ((r = Pending ∧ no_terminal L ∧ finished g' = false) ∨
    (r = StopAsyncIteration ∧ finished g' = true))).
Proof.
  intros (g0 & Hg0 & Ht & Hal & Hq & Hoth & Hocc & Hsome & Hst) Hg Ha.
  rewrite Hg in Hg0. injection Hg0 as <-.
  assert (∀ L1 L2, L = L1 ++ L2 → g_out g = B ++ L1 → no_terminal L1 →
            queue_heap (sys_tm s) !! g_queue g = Some L2 →
            live g (sys_tm s) = (r, g', tm') →
            (∃ e, r = Yielded e ∧ g_out g' = g_out g ++ [e]) ∨
            (g_out g' = g_out g ∧ g_out g = B ++ upto_terminal L ∧
             ((r = Pending ∧ no_terminal L ∧ finished g' = false) ∨
              (r = StopAsyncIteration ∧ finished g' = true)))) as Hlive.
  { intros L1 L2 HL Hout Hnt Hheap Hl. unfold live in Hl. rewrite Hheap in Hl.
    destruct L2 as [|e L2]; injection Hl as <- <- <-; simpl; [|eauto].
    right. rewrite app_nil_r in HL. subst L1.
    rewrite upto_terminal_id by done.
    split; [done|]. split; [done|]. left. done. }
  unfold anext in Ha. unfold finished in *.
  destruct (g_state g) as [|rest| |e|] eqn:Hstate; [done|..].
  - destruct Hst as [Hout Hheap]. destruct rest as [|e rest]; simpl in Ha.
    + rewrite app_nil_r in Hout.
      apply (Hlive [] L); auto; [by rewrite app_nil_r|constructor].
    + injection Ha as <- <- <-. simpl. eauto.
  - destruct Hst as (L1 & L2 & HL & Hout & Hnt & Hheap). by apply (Hlive L1 L2).
  - destruct Hst as (L1 & L2 & HL & Hout & Hnt & Hheap).
    destruct (is_terminal e) eqn:Hterm.
    + destruct (Hsome eq_refl) as [qs Hqs].
      pose proof (Hocc _ _ Hqs) as Hoq. rewrite decide_True in Hoq by done.
      destruct (list_remove_first_is_Some (g_queue g) qs) as [qs' Hrem]; [lia|].
      unfold finish, deregister in Ha. rewrite Ht, Hqs, Hrem in Ha.
      injection Ha as <- <- <-. simpl. right. split; [done|].
      rewrite HL, upto_terminal_hit by done. split; [done|]. right. done.
    + apply (Hlive (L1 ++ [e]) L2); auto.
      * by rewrite <- app_assoc.
      * apply Forall_app. split; [done|]. by constructor.
  - destruct Hst as (L1 & e & L2 & -> & Hout & Hnt & He).
    injection Ha as <- <- <-. right. rewrite Hstate.
    rewrite upto_terminal_hit by done. split; [done|]. split; [done|].
    right. done.
Qed.

(** When the consumer goes away the [finally] clause removes the queue. *)
Lemma delivery_close gid tid B L s g g' tm' :
  delivery gid tid B L s → sys_gens s !! gid = Some g →
  aclose g (sys_tm s) = (g', tm') →
  finished g' = true ∧
  ∀ t qs, _subscribers tm' !! t = Some qs → g_queue g ∉ qs.
Proof.
  intros (g0 & Hg0 & Ht & Hal & Hq & Hoth & Hocc & Hsome & Hst) Hg Ha.
  rewrite Hg in Hg0. injection Hg0 as <-.
  assert (finished g = false → ∀ r, finish g (sys_tm s) = (r, g', tm') →
          finished g' = true ∧
          ∀ t qs, _subscribers tm' !! t = Some qs → g_queue g ∉ qs) as Hfin.
  { intros Hf r Hr. destruct (Hsome Hf) as [qs Hqs].
    pose proof (Hocc _ _ Hqs) as Hoq. rewrite decide_True, Hf in Hoq by done.
    destruct (list_remove_first_is_Some (g_queue g) qs) as [qs' Hrem]; [lia|].
    unfold finish, deregister in Hr. rewrite Ht, Hqs, Hrem in Hr.
    injection Hr as <- <- <-. split; [done|]. simpl.
    intros t l. destruct (decide (tid = t)) as [<-|Hne].
    - rewrite lookup_insert_eq. intros [= <-]. apply occ_0.
      pose proof (list_remove_first_occ _ _ _ (g_queue g) Hrem) as Ho.
      rewrite decide_True in Ho by done. lia.
    - rewrite lookup_insert_ne by done. intros Hl. apply occ_0.
      rewrite (Hocc _ _ Hl), decide_False by done. done. }
  unfold aclose in Ha. unfold finished in *.
  destruct (g_state g) as [|rest| |e|] eqn:Hstate; [done|..];
    try (destruct (finish g (sys_tm s)) as [[r g1] tm1] eqn:Hf;
         injection Ha as <- <-; by eapply Hfin).
  injection Ha as <- <-. rewrite Hstate. split; [done|].
  intros t qs Hqs. apply occ_0. rewrite (Hocc _ _ Hqs). by case_decide.
Qed.

(** C1 (as the code has it): a subscription that starts when the buffer
    holds [B] yields, whatever the interleaving with emissions and with
    other subscribers, the events of [B] and then the events emitted on the
    task since, each once and in emission order, up to and including the
    first live terminal event.  At any moment the consumer holds a prefix of
    that sequence; the next [__anext__] yields the next event of it when
    there is one, waits when all was delivered and no terminal event came,
    and otherwise ends the subscription; a subscription that ended, or was
    closed by its consumer, has its queue in no subscriber list. *)
Theorem subscribe_snapshot_then_live (s : system) (gid : nat) (g : generator)
    (acts : list action) :
  allocated s → sys_gens s !! gid = Some g →
  g_state g = NotStarted → g_out g = [] →
  AClose gid ∉ acts →
  let tid := g_task g in
  let B := default [] (_event_buffers (sys_tm s) !! tid) in
  let L := emitted tid acts in
  let s' := run (ANext gid :: acts) s in
  ∃ g', sys_gens s' !! gid = Some g' ∧
    g_out g' `prefix_of` B ++ upto_terminal L ∧
    (finished g' = true →
       g_out g' = B ++ upto_terminal L ∧
       (∃ e, e ∈ L ∧ is_terminal e = true ∧ last (g_out g') = Some e) ∧
       ∀ t qs, _subscribers (sys_tm s') !! t = Some qs → g_queue g' ∉ qs) ∧
    (∀ r g'' tm'', anext g' (sys_tm s') = (r, g'', tm'') →
       (∃ e, r = Yielded e ∧ g_out g'' = g_out g' ++ [e]) ∨
       (g_out g'' = g_out g' ∧ g_out g' = B ++ upto_terminal L ∧
        ((r = Pending ∧ no_terminal L ∧ finished g'' = false) ∨
         (r = StopAsyncIteration ∧ finished g'' = true)))) ∧
    (∀ g'' tm'', aclose g' (sys_tm s') = (g'', tm'') →
       finished g'' = true ∧
       ∀ t qs, _subscribers tm'' !! t = Some qs → g_queue g' ∉ qs).
Proof.
  intros Hal Hg Hst Hout Hno tid B L s'.
  pose proof (start_delivery s gid g Hal Hg Hst Hout) as Hd.
  apply (run_delivery _ _ _ _ _ acts Hno) in Hd. simpl in Hd.
  fold tid B L in Hd.
  change (run acts (step (ANext gid) s)) with s' in Hd.
  destruct (delivery_safe _ _ _ _ _ Hd) as (g' & Hg' & _ & Hpre & Hfin).
  exists g'. split; [done|]. split; [done|]. split; [done|]. split.
  - intros r g'' tm''. by apply (delivery_next gid tid B L s').
  - intros g'' tm''. by apply (delivery_close gid tid B L s').
Qed.

Lemma fresh_sys_allocated : allocated TaskExamples.race_sys.
Proof.
  split.
  - intros t qs q Hqs Hq. vm_compute in Hqs.
    destruct (decide (t = "t")) as [->|Hne].
    + vm_compute in Hqs. injection Hqs as <-. by apply elem_of_nil in Hq.
    + change (({[ "t" := [] ]} : gmap string (list nat)) !! t = Some qs) in Hqs.
      by rewrite lookup_singleton_ne in Hqs.
  - intros gid g Hg Hact. change (({[ 0%nat := mkGen "t" 0 NotStarted [] ]}
      : gmap nat generator) !! gid = Some g) in Hg.
    apply lookup_singleton_Some in Hg as [_ <-]. done.
Qed.

Lemma race_acts_no_close : AClose 0%nat ∉ TaskExamples.race_acts.
Proof.
  unfold TaskExamples.race_acts. intros H.
  repeat (apply elem_of_cons in H as [H|H]; [discriminate|]).
  by apply elem_of_nil in H.
Qed.

Lemma subscribe_snapshot_then_live_witness :
  ∃ g', sys_gens (run (ANext 0%nat :: TaskExamples.race_acts)
                      TaskExamples.race_sys) !! 0%nat = Some g' ∧
    g_out g' `prefix_of`
      default [] (_event_buffers (sys_tm TaskExamples.race_sys) !! "t")
      ++ upto_terminal (emitted "t" TaskExamples.race_acts).
Proof.
  destruct (subscribe_snapshot_then_live TaskExamples.race_sys 0%nat
              (mkGen "t" 0 NotStarted []) TaskExamples.race_acts
              fresh_sys_allocated eq_refl eq_refl eq_refl race_acts_no_close)
    as (g' & Hg' & Hpre & _).
  exists g'. split; [exact Hg' | exact Hpre].
Defined.

(** C1 as stated fails: events that the bounded buffer evicted before the
    subscription started are never yielded.  Here 101 events precede the
    subscription; it ends normally, having yielded the events 1 to 100 and
    the final one, but not event 0. *)
Lemma subscribe_misses_evicted_events :
  (finished <$> sys_gens (run TaskExamples.overflow_acts TaskExamples.fresh_sys)
     !! 0%nat) = Some true ∧
  TaskExamples.seq_of <$> emitted "t" TaskExamples.overflow_acts
    = (PInt ∘ Z.of_nat <$> seq 0 101) ++ [PNone] ∧
  TaskExamples.seq_of <$> TaskExamples.overflow_out
    = (PInt ∘ Z.of_nat <$> seq 1 100) ++ [PNone] ∧
  TaskExamples.overflow_out ≠ emitted "t" TaskExamples.overflow_acts.
Proof.
  split; [vm_compute; reflexivity|].
  split; [vm_compute; reflexivity|].
  split; [vm_compute; reflexivity|].
  intros H. apply (f_equal length) in H. vm_compute in H. discriminate.
Qed.

End Subscription.

(** * Properties of the channel gateway *)

Section AccessControl.
Import Access.

Variable json_loads : string → option pyval.

Lemma contains_strs (sender : string) (l : list string) :
  contains sender (PList (PStr <$> l)) = Ok (bool_decide (sender ∈ l)).
Proof.
  unfold contains. f_equal. induction l as [|x l IH].
  - symmetry. apply bool_decide_eq_false_2, not_elem_of_nil.
  - rewrite fmap_cons. cbn [existsb eq_str]. rewrite IH.
    destruct (decide (x = sender)) as [->|Hne].
    + rewrite (bool_decide_eq_true_2 (sender = sender)) by done.
      rewrite (bool_decide_eq_true_2 (sender ∈ sender :: l)) by set_solver.
      done.
    + rewrite (bool_decide_eq_false_2 (x = sender)) by done. simpl.
      apply bool_decide_ext. set_solver.
Qed.

Lemma senders_value (field : option pyval) (l : list string) :
  holds_senders json_loads field l →
  parse_if_str json_loads (default (PList []) field) = PList (PStr <$> l).
Proof.
  intros [[-> ->]|[->|(s & -> & [H|[H ->]])]]; simpl; try done; by rewrite H.
Qed.

Lemma eq_str_false (m : pyval) (s : string) : m ≠ PStr s → eq_str m s = false.
Proof.
  destruct m; simpl; try done. intros H.
  apply bool_decide_eq_false_2. congruence.
Qed.

(** C4: access control depends only on the access mode, the two sender
    lists and the sender: [open] allows everyone; [allowlist] allows
    exactly the listed senders, an unparsable or empty list allowing no
    one; [blocklist] allows exactly the senders not listed, an unparsable
    list blocking no one; any other mode denies everyone. *)
Theorem check_access_by_mode (cfg : dict) (sender : string) :
  (∀ cfg' : dict,
     cfg' !! "access_mode" = cfg !! "access_mode" →
     cfg' !! "allowed_senders" = cfg !! "allowed_senders" →
     cfg' !! "blocked_senders" = cfg !! "blocked_senders" →
     _check_access json_loads cfg' sender = _check_access json_loads cfg sender) ∧
  (cfg !! "access_mode" = Some (PStr "open") →
     _check_access json_loads cfg sender = Ok true) ∧
  (cfg !! "access_mode" = Some (PStr "allowlist") →
     ∀ l, holds_senders json_loads (cfg !! "allowed_senders") l →
       _check_access json_loads cfg sender = Ok (bool_decide (sender ∈ l)) ∧
       (l = [] → _check_access json_loads cfg sender = Ok false)) ∧
  (cfg !! "access_mode" = Some (PStr "blocklist") →
     ∀ l, holds_senders json_loads (cfg !! "blocked_senders") l →
       _check_access json_loads cfg sender = Ok (bool_decide (sender ∉ l)) ∧
       (l = [] → _check_access json_loads cfg sender = Ok true)) ∧
  (∀ m, cfg !! "access_mode" = Some m →
     m ≠ PStr "open" → m ≠ PStr "allowlist" → m ≠ PStr "blocklist" →
     _check_access json_loads cfg sender = Ok false).
Proof.
  assert (∀ l, cfg !! "access_mode" = Some (PStr "allowlist") →
            holds_senders json_loads (cfg !! "allowed_senders") l →
            _check_access json_loads cfg sender = Ok (bool_decide (sender ∈ l)))
    as Hallow.
  { intros l Hm Hl. unfold _check_access, get_or. rewrite Hm. simpl.
    by rewrite (senders_value _ _ Hl), contains_strs. }
  assert (∀ l, cfg !! "access_mode" = Some (PStr "blocklist") →
            holds_senders json_loads (cfg !! "blocked_senders") l →
            _check_access json_loads cfg sender = Ok (bool_decide (sender ∉ l)))
    as Hblock.
  { intros l Hm Hl. unfold _check_access, get_or. rewrite Hm. simpl.
    rewrite (senders_value _ _ Hl), contains_strs. f_equal.
    destruct (decide (sender ∈ l)).
    - rewrite bool_decide_eq_true_2, bool_decide_eq_false_2; auto.
    - rewrite bool_decide_eq_false_2, bool_decide_eq_true_2; auto. }
  split; [|split; [|split; [|split]]].
  - intros cfg' Hm Ha Hb. unfold _check_access, get_or. by rewrite Hm, Ha, Hb.
  - intros Hm. unfold _check_access, get_or. by rewrite Hm.
  - intros Hm l Hl. split; [by apply Hallow|]. intros ->.
    by rewrite (Hallow [] Hm Hl).
  - intros Hm l Hl. split; [by apply Hblock|]. intros ->.
    by rewrite (Hblock [] Hm Hl).
  - intros m Hm H1 H2 H3. unfold _check_access, get_or. rewrite Hm. simpl.
    by rewrite !eq_str_false.
Qed.

(** C9: a channel record without an [access_mode] key is treated as an
    allowlist: a sender in [allowed_senders] is allowed, any other is
    denied. *)
Theorem check_access_default_mode (cfg : dict) (sender : string)
    (l : list string) :
  cfg !! "access_mode" = None →
  holds_senders json_loads (cfg !! "allowed_senders") l →
  _check_access json_loads cfg sender = Ok (bool_decide (sender ∈ l)) ∧
  (sender ∈ l → _check_access json_loads cfg sender = Ok true) ∧
  (sender ∉ l → _check_access json_loads cfg sender = Ok false).
Proof.
  intros Hm Hl.
  assert (_check_access json_loads cfg sender = Ok (bool_decide (sender ∈ l)))
    as ->.
  { unfold _check_access, get_or. rewrite Hm. simpl.
    by rewrite (senders_value _ _ Hl), contains_strs. }
  split; [done|]. split; intros H.
  - by rewrite bool_decide_eq_true_2.
  - by rewrite bool_decide_eq_false_2.
Qed.

End AccessControl.

Section RateLimit.
Import RateLimiter.
Open Scope Q_scope.

Lemma filter_fresh (cutoff : Q) (l : list Q) :
  Forall (λ ts, cutoff < ts) l → filter (λ ts, cutoff < ts) l = l.
Proof.
  induction 1 as [|x l Hx _ IH]; [done|].
  by rewrite filter_cons_True, IH.
Qed.

Lemma is_allowed_admits sender (N : Z) now (w : windows) :
  (0 < N)%Z →
  Forall (λ ts, now - 60 < ts) (window_of sender w) →
  (Z.of_nat (length (window_of sender w)) < N)%Z →
  is_allowed sender N now w
    = (true, <[sender := window_of sender w ++ [now]]> w).
Proof.
  intros HN Hfresh Hlen. unfold is_allowed.
  rewrite decide_False by lia. fold (window_of sender w).
  rewrite filter_fresh by done. by rewrite decide_False by lia.
Qed.

Lemma is_allowed_rejects sender (N : Z) now (w : windows) :
  (0 < N)%Z →
  Forall (λ ts, now - 60 < ts) (window_of sender w) →
  (N ≤ Z.of_nat (length (window_of sender w)))%Z →
  is_allowed sender N now w = (false, <[sender := window_of sender w]> w).
Proof.
  intros HN Hfresh Hlen. unfold is_allowed.
  rewrite decide_False by lia. fold (window_of sender w).
  rewrite filter_fresh by done. by rewrite decide_True by lia.
Qed.

Lemma window_of_insert sender l (w : windows) :
  window_of sender (<[sender := l]> w) = l.
Proof. unfold window_of. by rewrite lookup_insert_eq. Qed.

(** While the window has room, calls within one 60-second window are all
    admitted and their clock readings recorded in order. *)
Lemma calls_admitted sender (N : Z) (times : list Q) (w : windows) :
  (0 < N)%Z →
  (Z.of_nat (length (window_of sender w) + length times) ≤ N)%Z →
  within_window (window_of sender w ++ times) →
  (calls sender N times w).1 = replicate (length times) true ∧
  window_of sender (calls sender N times w).2 = window_of sender w ++ times.
Proof.
  intros HN. revert w. induction times as [|now times IH]; intros w Hlen Hwin.
  - simpl. by rewrite app_nil_r.
  - simpl. rewrite is_allowed_admits.
    + specialize (IH (<[sender := window_of sender w ++ [now]]> w)).
      rewrite window_of_insert, <- app_assoc in IH. simpl in IH.
      destruct IH as [IH1 IH2].
      * rewrite length_app. simpl in *. lia.
      * done.
      * destruct (calls sender N times _) as [bs w2]. simpl in *.
        by rewrite IH1, IH2.
    + done.
    + apply Forall_forall. intros ts Hts. apply Hwin; set_solver.
    + simpl in Hlen. lia.
Qed.

Lemma calls_app sender (N : Z) (t1 t2 : list Q) (w : windows) :
  calls sender N (t1 ++ t2) w =
    ((calls sender N t1 w).1 ++ (calls sender N t2 (calls sender N t1 w).2).1,
     (calls sender N t2 (calls sender N t1 w).2).2).
Proof.
  revert w. induction t1 as [|now t1 IH]; intros w; simpl.
  - by destruct (calls sender N t2 w).
  - destruct (is_allowed sender N now w) as [b w1]. rewrite IH.
    destruct (calls sender N t1 w1) as [bs w2]. simpl.
    by destruct (calls sender N t2 w2).
Qed.

(** C5: with [max_per_minute = N >= 1], a sender whose window is empty gets
    exactly [N] calls within one 60-second window admitted and the next one
    rejected; each call first evicts the timestamps that are 60 seconds old
    or older, so that once the oldest admitted timestamp has left the window
    one more call is admitted and the call after it is rejected again;
    with [max_per_minute <= 0] every call is admitted. *)
Theorem rate_limiter_sliding_window (sender : string) (N : Z) :
  ((1 ≤ N)%Z →
     ∀ (w : windows) (times : list Q) (last : Q),
       window_of sender w = [] →
       Z.of_nat (length times) = N →
       within_window (times ++ [last]) →
       (calls sender N (times ++ [last]) w).1
         = replicate (length times) true ++ [false]) ∧
  ((1 ≤ N)%Z →
     ∀ (w : windows) (oldest : Q) (rest : list Q) (now next : Q),
       w !! sender = Some (oldest :: rest) →
       Z.of_nat (length (oldest :: rest)) = N →
       oldest <= now - 60 →
       Forall (λ ts, now - 60 < ts) rest →
       Forall (λ ts, next - 60 < ts) (rest ++ [now]) →
       is_allowed sender N now w = (true, <[sender := rest ++ [now]]> w) ∧
       (is_allowed sender N next (<[sender := rest ++ [now]]> w)).1 = false) ∧
  ((N ≤ 0)%Z →
     ∀ (w : windows) (now : Q), is_allowed sender N now w = (true, w)).
Proof.
  split; [|split].
  - intros HN w times last Hempty Hlen Hwin.
    rewrite calls_app. simpl.
    destruct (calls_admitted sender N times w) as [H1 H2].
    + lia.
    + rewrite Hempty. simpl. lia.
    + rewrite Hempty. simpl. intros t t' Ht Ht'. apply Hwin; set_solver.
    + rewrite H1. f_equal.
      rewrite is_allowed_rejects; [done|lia| |].
      * rewrite H2, Hempty. simpl. apply Forall_forall. intros ts Hts.
        apply Hwin; set_solver.
      * rewrite H2, Hempty. simpl. lia.
  - intros HN w oldest rest now next Hw Hlen Hold Hrest Hnext.
    assert (is_allowed sender N now w = (true, <[sender := rest ++ [now]]> w))
      as Hadm.
    { unfold is_allowed. rewrite decide_False by lia. rewrite Hw. simpl.
      rewrite filter_cons_False by (by apply Qle_not_lt).
      rewrite filter_fresh by done.
      rewrite decide_False; [done|]. simpl in Hlen. lia. }
    split; [done|].
    rewrite is_allowed_rejects; [done|lia| |].
    + by rewrite window_of_insert.
    + rewrite window_of_insert, length_app. simpl in *. lia.
  - intros HN w now. unfold is_allowed. by rewrite decide_True.
Qed.

End RateLimit.

(** * Running computations *)

(** Reduce the projections of worlds and stores, and nothing else: the
    dictionaries with literal keys stay as they are written. *)
Ltac wsimpl :=
  cbn [fst snd
       Runtime.db Runtime.faults Runtime.tick Runtime._adapters Runtime._tasks
       Runtime._channel_cache Runtime._windows Runtime.tm Runtime.spawned
       Runtime.engine_log Runtime.exchange_log Runtime.outbox
       Runtime.set_db Runtime.set_faults Runtime.set_tick Runtime.set_adapters
       Runtime.set_tasks Runtime.set_channel_cache Runtime.set_windows
       Runtime.set_tm Runtime.add_spawned Runtime.add_engine_call
       Runtime.add_exchange Runtime.add_outbox
       Runtime.channels Runtime.channel_sessions Runtime.channel_messages
       Runtime.agents Runtime.tasks Runtime.sessions
       Runtime.t_get Runtime.t_set Runtime.Channels Runtime.ChannelSessions
       Runtime.ChannelMessages Runtime.Agents Runtime.Tasks Runtime.Sessions].

Tactic Notation "wsimpl" "in" hyp(H) :=
  cbn [fst snd
       Runtime.db Runtime.faults Runtime.tick Runtime._adapters Runtime._tasks
       Runtime._channel_cache Runtime._windows Runtime.tm Runtime.spawned
       Runtime.engine_log Runtime.exchange_log Runtime.outbox
       Runtime.set_db Runtime.set_faults Runtime.set_tick Runtime.set_adapters
       Runtime.set_tasks Runtime.set_channel_cache Runtime.set_windows
       Runtime.set_tm Runtime.add_spawned Runtime.add_engine_call
       Runtime.add_exchange Runtime.add_outbox
       Runtime.channels Runtime.channel_sessions Runtime.channel_messages
       Runtime.agents Runtime.tasks Runtime.sessions
       Runtime.t_get Runtime.t_set Runtime.Channels Runtime.ChannelSessions
       Runtime.ChannelMessages Runtime.Agents Runtime.Tasks Runtime.Sessions]
    in H.

Section Running.
Import Runtime.

Lemma bind_ok {A B} (m : M A) (f : A → M B) w a w' :
  m w = (Ok a, w') → (m ≫= f) w = f a w'.
Proof. intros H. unfold mbind, M_bind. by rewrite H. Qed.

Lemma bind_raise {A B} (m : M A) (f : A → M B) w e w' :
  m w = (Raise e, w') → (m ≫= f) w = (Raise e, w').
Proof. intros H. unfold mbind, M_bind. by rewrite H. Qed.

Lemma store_call_reliable w : faults w = [] → store_call w = (Ok tt, w).
Proof. intros H. unfold store_call. by rewrite H. Qed.

Lemma db_get_reliable T id w :
  faults w = [] → db_get T id w = (Ok (t_get T (db w) !! id), w).
Proof.
  intros H. unfold db_get. by rewrite (bind_ok _ _ _ _ _ (store_call_reliable w H)).
Qed.

Lemma db_update_reliable T id upd w :
  faults w = [] →
  db_update T id upd w =
    match t_get T (db w) !! id with
    | Some row =>
        (Ok (Some (upd ∪ row)),
         set_db (λ s, t_set T (<[id := upd ∪ row]> (t_get T s)) s) w)
    | None => (Ok None, w)
    end.
Proof.
  intros H. unfold db_update.
  rewrite (bind_ok _ _ _ _ _ (store_call_reliable w H)).
  unfold mbind, M_bind, get_world. by destruct (t_get T (db w) !! id).
Qed.

Lemma bind_next_tick {B} (k : nat → M B) w :
  (next_tick ≫= k) w = k (tick w) (set_tick (S (tick w)) w).
Proof. reflexivity. Qed.

Lemma bind_modify {B} f (k : unit → M B) w :
  (modify f ≫= k) w = k tt (f w).
Proof. reflexivity. Qed.

Lemma bind_ret {A B} (a : A) (k : A → M B) w : (mret a ≫= k) w = k a w.
Proof. reflexivity. Qed.

Lemma bind_get {B} (k : world → M B) w : (get_world ≫= k) w = k w w.
Proof. reflexivity. Qed.

Lemma bind_lift_ok {A B} (a : A) (k : A → M B) w :
  (lift (Ok a) ≫= k) w = k a w.
Proof. reflexivity. Qed.

Lemma bind_assoc {A B C} (m : M A) (f : A → M B) (g : B → M C) w :
  ((m ≫= f) ≫= g) w = (m ≫= (λ a, f a ≫= g)) w.
Proof.
  unfold mbind, M_bind. destruct (m w) as [[a|e] w']; reflexivity.
Qed.

Lemma try_except_ok {A} (m : M A) h w a w' :
  m w = (Ok a, w') → try_except m h w = (Ok a, w').
Proof. intros H. unfold try_except. by rewrite H. Qed.

Lemma try_except_raise {A} (m : M A) h w e w' :
  m w = (Raise e, w') → try_except m h w = h e w'.
Proof. intros H. unfold try_except. by rewrite H. Qed.

(** A store call with the next fault flag known. *)
Lemma store_call_next b fs w :
  faults w = b :: fs →
  store_call w = (if b then Raise StoreError else Ok tt, set_faults fs w).
Proof. intros H. unfold store_call. rewrite H. by destruct b. Qed.

Lemma db_update_some T id upd w row :
  faults w = [] → t_get T (db w) !! id = Some row →
  db_update T id upd w =
    (Ok (Some (upd ∪ row)),
     set_db (λ s, t_set T (<[id := upd ∪ row]> (t_get T s)) s) w).
Proof. intros Hf Hrow. by rewrite db_update_reliable, Hrow. Qed.

Lemma db_update_none T id upd w :
  faults w = [] → t_get T (db w) !! id = None →
  db_update T id upd w = (Ok None, w).
Proof. intros Hf Hrow. by rewrite db_update_reliable, Hrow. Qed.

Lemma store_ext (s s' : store) :
  channels s = channels s' → channel_sessions s = channel_sessions s' →
  channel_messages s = channel_messages s' → agents s = agents s' →
  tasks s = tasks s' → sessions s = sessions s' → s = s'.
Proof. destruct s, s'. cbn. by intros -> -> -> -> -> ->. Qed.

Lemma world_ext (w w' : world) :
  db w = db w' → faults w = faults w' → tick w = tick w' →
  _adapters w = _adapters w' → _tasks w = _tasks w' →
  _channel_cache w = _channel_cache w' → _windows w = _windows w' →
  tm w = tm w' → spawned w = spawned w' → engine_log w = engine_log w' →
  exchange_log w = exchange_log w' → outbox w = outbox w' → w = w'.
Proof.
  destruct w, w'. cbn. by intros -> -> -> -> -> -> -> -> -> -> -> ->.
Qed.

End Running.

Section CreateTask.
Import Runtime TaskManager TaskOps.
Variable E : env.

(** C10: [create_task] for an agent without a persisted record raises and
    changes nothing: no task row, no background unit, no buffer, subscriber
    list or message queue; the error is the [ValueError] of the missing
    agent unless the store itself failed on the lookup. *)
Theorem create_task_unknown_agent (w : world) (agent_id : string)
    (message : option string) (content : option (list dict))
    (enable_skills enable_mcp : bool) (add_dirs : option (list string)) :
  agents (db w) !! agent_id = None →
  let r := create_task E agent_id message content enable_skills enable_mcp
             add_dirs w in
  (∃ e, r.1 = Raise e ∧
        (head (faults w) ≠ Some true →
         e = ValueError ("Agent " +:+ agent_id +:+ " not found"))) ∧
  db r.2 = db w ∧ tm r.2 = tm w ∧ spawned r.2 = spawned w ∧
  _adapters r.2 = _adapters w ∧ _tasks r.2 = _tasks w ∧
  _channel_cache r.2 = _channel_cache w ∧ tick r.2 = tick w.
Proof.
  intros Hnone r. subst r.
  unfold create_task, db_get, store_call, mbind, M_bind, get_world, mret,
    M_ret, raise.
  destruct (faults w) as [|[] fs]; simpl; rewrite ?Hnone; simpl.
  - split; [eauto|done].
  - split; [|done]. eexists. split; [done|]. intros H. done.
  - split; [eauto|done].
Qed.

End CreateTask.

Section StopChannel.
Import Runtime Gateway.

Lemma stopped_fields_status : stopped_fields !! "status" = Some (PStr "inactive").
Proof. unfold stopped_fields. apply lookup_insert_eq. Qed.

Lemma stopped_fields_error_message :
  stopped_fields !! "error_message" = Some PNone.
Proof.
  unfold stopped_fields. rewrite lookup_insert_ne by done.
  apply lookup_singleton_eq.
Qed.

Lemma stopped_fields_other k :
  k ≠ "status" → k ≠ "error_message" → stopped_fields !! k = None.
Proof.
  intros H1 H2. unfold stopped_fields.
  by rewrite lookup_insert_ne, lookup_singleton_ne.
Qed.

Lemma stop_channel_run (w : world) (id : string) :
  _adapters w !! id = None → faults w = [] →
  stop_channel id w =
    let w1 := set_channel_cache (delete id)
                (set_tasks (delete id) (set_adapters (delete id) w)) in
    (Ok tt,
     match channels (db w) !! id with
     | Some row =>
         set_db (λ s, t_set Channels
                   (<[id := stopped_fields ∪ row]> (channels s)) s) w1
     | None => w1
     end).
Proof.
  intros Had Hf. unfold stop_channel.
  unfold mbind, M_bind, get_world, modify, mret, M_ret. rewrite Had.
  rewrite db_update_reliable by done. wsimpl.
  by destruct (channels (db w) !! id).
Qed.

(** C7 (as the code has it): stopping a channel that has no running adapter
    leaves the adapter registry alone and drops the channel's task and
    cache entries, if any; when the channel has a persisted record it sets
    its [status] to [inactive] and its [error_message] to [None], whatever
    they were, and keeps every other field and every other record; doing it
    again changes nothing more. *)
Theorem stop_channel_not_running (w : world) (id : string) :
  _adapters w !! id = None → faults w = [] →
  let r := stop_channel id w in
  r.1 = Ok tt ∧
  _adapters r.2 = _adapters w ∧
  _tasks r.2 = delete id (_tasks w) ∧
  _channel_cache r.2 = delete id (_channel_cache w) ∧
  _windows r.2 = _windows w ∧
  (∀ id', id' ≠ id → channels (db r.2) !! id' = channels (db w) !! id') ∧
  (channels (db w) !! id = None → db r.2 = db w) ∧
  (∀ row, channels (db w) !! id = Some row →
     ∃ row', channels (db r.2) !! id = Some row' ∧
       row' !! "status" = Some (PStr "inactive") ∧
       row' !! "error_message" = Some PNone ∧
       ∀ k, k ≠ "status" → k ≠ "error_message" → row' !! k = row !! k) ∧
  stop_channel id r.2 = (Ok tt, r.2).
Proof.
  intros Had Hf r. subst r. rewrite stop_channel_run by done.
  cbn [fst snd].
  destruct (channels (db w) !! id) as [row|] eqn:Hrow; wsimpl.
  - split; [done|]. split; [by apply delete_id|].
    split; [done|]. split; [done|]. split; [done|].
    split; [by intros id' ?; rewrite lookup_insert_ne|].
    split; [done|]. split.
    + intros row0 [= <-]. exists (stopped_fields ∪ row).
      split; [by rewrite lookup_insert_eq|].
      split; [apply lookup_union_Some_l, stopped_fields_status|].
      split; [apply lookup_union_Some_l, stopped_fields_error_message|].
      intros k H1 H2. apply lookup_union_r. by apply stopped_fields_other.
    + rewrite stop_channel_run;
        [|wsimpl; by rewrite lookup_delete_eq|wsimpl; done].
      wsimpl. rewrite lookup_insert_eq. f_equal.
      apply world_ext; wsimpl; try done; try (by rewrite delete_delete_eq).
      apply store_ext; wsimpl; try done.
      rewrite insert_insert_eq.
      by rewrite (assoc_L (∪) stopped_fields), (idemp_L (∪) stopped_fields).
  - split; [done|]. split; [by apply delete_id|].
    split; [done|]. split; [done|]. split; [done|].
    split; [done|]. split; [done|]. split; [done|].
    rewrite stop_channel_run;
      [|wsimpl; by rewrite lookup_delete_eq|wsimpl; done].
    wsimpl. rewrite Hrow. f_equal.
    apply world_ext; wsimpl; try done; by rewrite delete_delete_eq.
Qed.

Lemma stop_channel_not_running_witness :
  (stop_channel "c1" GatewayExamples.idle_world).1 = Ok tt ∧
  stop_channel "c1" (stop_channel "c1" GatewayExamples.idle_world).2
    = (Ok tt, (stop_channel "c1" GatewayExamples.idle_world).2).
Proof.
  destruct (stop_channel_not_running GatewayExamples.idle_world "c1"
              eq_refl eq_refl) as (H1 & _ & _ & _ & _ & _ & _ & _ & H2).
  split; [exact H1 | exact H2].
Defined.

(** C7 as stated fails: the channel ["c1"] has no running adapter and its
    record says [error] with the crash message; [stop_channel] rewrites
    both fields. *)
Lemma stop_channel_overwrites_status :
  _adapters GatewayExamples.idle_world !! "c1" = None ∧
  (channels (db GatewayExamples.idle_world) !! "c1" ≫= (.!! "status"))
    = Some (PStr "error") ∧
  (channels (db GatewayExamples.idle_world) !! "c1" ≫= (.!! "error_message"))
    = Some (PStr "Adapter crashed unexpectedly") ∧
  (stop_channel "c1" GatewayExamples.idle_world).1 = Ok tt ∧
  (channels (db (stop_channel "c1" GatewayExamples.idle_world).2) !! "c1"
     ≫= (.!! "status")) = Some (PStr "inactive") ∧
  (channels (db (stop_channel "c1" GatewayExamples.idle_world).2) !! "c1"
     ≫= (.!! "error_message")) = Some PNone.
Proof. repeat split; vm_compute; reflexivity. Qed.

End StopChannel.

Section ChannelStatus.
Import Runtime Gateway.

Lemma db_get_ok T id fs w :
  faults w = false :: fs →
  db_get T id w = (Ok (t_get T (db w) !! id), set_faults fs w).
Proof.
  intros H. unfold db_get, mbind, M_bind.
  by rewrite (store_call_next false fs w H).
Qed.

Lemma db_get_fail T id fs w :
  faults w = true :: fs →
  db_get T id w = (Raise StoreError, set_faults fs w).
Proof.
  intros H. unfold db_get, mbind, M_bind.
  by rewrite (store_call_next true fs w H).
Qed.

(** The session count, best effort. *)
Lemma count_try_reliable id w :
  faults w = [] →
  try_except (n ← count_by_channel id; mret (PInt n)) (λ _, mret (PInt 0)) w
    = (Ok (PInt (session_count id (db w))), w).
Proof.
  intros H. unfold try_except, count_by_channel, mbind, M_bind.
  by rewrite (store_call_reliable w H).
Qed.

Lemma count_try_next id b fs w :
  faults w = b :: fs →
  try_except (n ← count_by_channel id; mret (PInt n)) (λ _, mret (PInt 0)) w
    = (Ok (PInt (if b then 0 else session_count id (db w))), set_faults fs w).
Proof.
  intros H. unfold try_except, count_by_channel, mbind, M_bind.
  rewrite (store_call_next b fs w H). by destruct b.
Qed.

Lemma status_record_status id st n e :
  status_record id st n e !! "status" = Some st.
Proof.
  unfold status_record. rewrite lookup_insert_ne by done.
  apply lookup_insert_eq.
Qed.

Lemma status_record_sessions id st n e :
  status_record id st n e !! "active_sessions" = Some n.
Proof.
  unfold status_record. do 4 rewrite lookup_insert_ne by done.
  apply lookup_insert_eq.
Qed.

Lemma status_record_error id st n e :
  status_record id st n e !! "error_message" = Some e.
Proof.
  unfold status_record. do 5 rewrite lookup_insert_ne by done.
  apply lookup_singleton_eq.
Qed.

Lemma not_running_false (w : world) id :
  _adapters w !! id = None →
  bool_decide (is_Some (_adapters w !! id)) = false.
Proof. intros ->. apply bool_decide_eq_false_2. by intros [? ?]. Qed.

(** C8 (as the code has it): a store failure while counting the sessions is
    swallowed and the count reported as 0; a store failure while fetching
    the channel record, for the status or for the error message,
    propagates; without cached or persisted record the error message is
    [None]. *)
Theorem channel_status_best_effort_count (w : world) (id : string) :
  let r := get_channel_status id w in
  (is_Some (_adapters w !! id) →
     ∃ d, r.1 = Ok d ∧ d !! "status" = Some (PStr "active") ∧
          (∀ fs, faults w = true :: fs →
                 d !! "active_sessions" = Some (PInt 0))) ∧
  (_adapters w !! id = None →
     ∀ fs, faults w = false :: true :: fs →
       head fs ≠ Some true →
       ∃ d, r.1 = Ok d ∧ d !! "active_sessions" = Some (PInt 0)) ∧
  (_adapters w !! id = None →
     ∀ fs, faults w = true :: fs → r.1 = Raise StoreError) ∧
  (_adapters w !! id = None → non_empty (_channel_cache w !! id) = None →
     ∀ b fs, faults w = false :: b :: true :: fs → r.1 = Raise StoreError) ∧
  (_adapters w !! id = None → _channel_cache w !! id = None →
     channels (db w) !! id = None → faults w = [] →
     ∃ d, r.1 = Ok d ∧ d !! "status" = Some (PStr "inactive") ∧
          d !! "error_message" = Some PNone).
Proof.
  intros r. subst r. unfold get_channel_status.
  split; [|split; [|split; [|split]]].
  - intros Hrun. rewrite bind_get.
    rewrite (bool_decide_eq_true_2 _ Hrun). cbv iota. rewrite bind_ret.
    destruct (faults w) as [|b fs] eqn:Hf.
    + erewrite bind_ok by (by apply count_try_reliable).
      rewrite bind_get. cbn [negb].
      destruct (non_empty (_channel_cache w !! id)); rewrite bind_ret;
        eexists; (split; [reflexivity|]);
        (split; [apply status_record_status|done]).
    + erewrite bind_ok by (by apply count_try_next).
      rewrite bind_get. wsimpl. cbn [negb].
      destruct (non_empty (_channel_cache w !! id)); rewrite bind_ret;
        eexists; (split; [reflexivity|]);
        (split; [apply status_record_status|]);
        intros fs' [= -> _]; apply status_record_sessions.
  - intros Ha fs Hf Hhd. rewrite bind_get, (not_running_false w id Ha).
    cbv iota. rewrite bind_assoc.
    erewrite bind_ok by (by apply db_get_ok). rewrite bind_ret.
    erewrite bind_ok by (apply count_try_next; wsimpl; reflexivity).
    rewrite bind_get. wsimpl. cbn [negb].
    destruct (non_empty (_channel_cache w !! id)).
    { rewrite bind_ret. eexists. split; [reflexivity|].
      apply status_record_sessions. }
    rewrite bind_assoc.
    destruct fs as [|[] fs'].
    + erewrite bind_ok by (apply db_get_reliable; wsimpl; reflexivity).
      rewrite !bind_ret. eexists. split; [reflexivity|].
      apply status_record_sessions.
    + by destruct Hhd.
    + erewrite bind_ok by (apply db_get_ok; wsimpl; reflexivity).
      rewrite !bind_ret. eexists. split; [reflexivity|].
      apply status_record_sessions.
  - intros Ha fs Hf. rewrite bind_get, (not_running_false w id Ha).
    cbv iota. rewrite bind_assoc.
    erewrite bind_raise by (by apply db_get_fail). reflexivity.
  - intros Ha Hc b fs Hf. rewrite bind_get, (not_running_false w id Ha).
    cbv iota. rewrite bind_assoc.
    erewrite bind_ok by (by apply db_get_ok). rewrite bind_ret.
    erewrite bind_ok by (apply count_try_next; wsimpl; reflexivity).
    rewrite bind_get. wsimpl. cbn [negb]. rewrite Hc. rewrite bind_assoc.
    erewrite bind_raise by (apply db_get_fail; wsimpl; reflexivity).
    reflexivity.
  - intros Ha Hc Hch Hf. rewrite bind_get, (not_running_false w id Ha).
    cbv iota. rewrite bind_assoc.
    erewrite bind_ok by (by apply db_get_reliable). rewrite bind_ret.
    erewrite bind_ok by (by apply count_try_reliable).
    rewrite bind_get. wsimpl. cbn [negb]. rewrite Hc. cbn [non_empty].
    rewrite bind_assoc.
    erewrite bind_ok by (by apply db_get_reliable). rewrite !bind_ret.
    wsimpl. rewrite Hch. cbn [non_empty].
    eexists. split; [reflexivity|].
    split; [apply status_record_status|apply status_record_error].
Qed.

Lemma channel_status_best_effort_count_witness :
  ∃ d, (get_channel_status "c1" GatewayExamples.second_call_fails).1 = Ok d ∧
       d !! "active_sessions" = Some (PInt 0).
Proof.
  destruct (channel_status_best_effort_count
              GatewayExamples.second_call_fails "c1")
    as (_ & H & _).
  exact (H eq_refl [] eq_refl ltac:(discriminate)).
Defined.

(** C8 as stated fails: with no adapter running and nothing cached, a store
    failure on the fetch of the error message is raised to the caller. *)
Lemma channel_status_error_message_failure_propagates :
  _adapters GatewayExamples.third_call_fails !! "c1" = None ∧
  faults GatewayExamples.third_call_fails = [false; false; true] ∧
  (get_channel_status "c1" GatewayExamples.third_call_fails).1
    = Raise StoreError.
Proof. repeat split; vm_compute; reflexivity. Qed.

End ChannelStatus.

Section ResolveSession.
Import Runtime Gateway.
Variable E : env.

Lemma select_elem (p : dict → bool) (m : gmap string dict) (row : dict) :
  row ∈ select p m ↔ (∃ k, m !! k = Some row) ∧ p row = true.
Proof.
  unfold select. rewrite list_elem_of_In, filter_In, <- list_elem_of_In.
  rewrite list_elem_of_fmap. split.
  - intros [([k r] & -> & Hin) Hp]. apply elem_of_map_to_list in Hin. eauto.
  - intros [[k Hk] Hp]. split; [|done]. exists (k, row). split; [done|].
    by apply elem_of_map_to_list.
Qed.

Lemma head_unique {A} (l : list A) (x : A) :
  x ∈ l → (∀ y, y ∈ l → y = x) → head l = Some x.
Proof.
  destruct l as [|y l]; [by intros ?%elem_of_nil|].
  intros _ H. simpl. f_equal. apply H. by left.
Qed.

Lemma find_after_put (p : dict → bool) (m : gmap string dict) k row :
  head (select p m) = None → p row = true →
  head (select p (<[k := row]> m)) = Some row.
Proof.
  intros Hnone Hp. apply head_unique.
  - apply select_elem. split; [|done]. exists k. apply lookup_insert_eq.
  - intros y [[k' Hk'] Hy]%select_elem.
    destruct (decide (k = k')) as [<-|Hne].
    + rewrite lookup_insert_eq in Hk'. congruence.
    + rewrite lookup_insert_ne in Hk' by done.
      assert (y ∈ select p m) as Hin by (apply select_elem; eauto).
      destruct (select p m); [by apply elem_of_nil in Hin|done].
Qed.

Lemma db_put_reliable T (row : dict) id w :
  faults w = [] → row !! "id" = Some (PStr id) →
  db_put E T row w =
    (Ok row, set_db (λ s, t_set T (<[id := row]> (t_get T s)) s) w).
Proof.
  intros Hf Hid. unfold db_put.
  rewrite (bind_ok _ _ _ _ _ (store_call_reliable w Hf)). rewrite Hid.
  reflexivity.
Qed.

Lemma find_by_external_reliable ch chat thread w :
  faults w = [] →
  find_by_external ch chat thread w =
    (Ok (head (select (same_conversation ch chat thread)
                      (channel_sessions (db w)))), w).
Proof.
  intros Hf. unfold find_by_external.
  by rewrite (bind_ok _ _ _ _ _ (store_call_reliable w Hf)).
Qed.

Lemma new_channel_session_matches cs ch chat sender thread sid agent name now :
  same_conversation ch chat thread
    (new_channel_session cs ch chat sender thread sid agent name now) = true.
Proof.
  unfold same_conversation, new_channel_session, get.
  rewrite lookup_insert_ne, lookup_insert_eq by done. simpl.
  rewrite bool_decide_eq_true_2 by done.
  do 2 rewrite lookup_insert_ne by done. rewrite lookup_insert_eq. simpl.
  rewrite bool_decide_eq_true_2 by done.
  do 4 rewrite lookup_insert_ne by done. rewrite lookup_insert_eq. simpl.
  destruct thread as [t|]; simpl; [|done]. by rewrite bool_decide_eq_true_2.
Qed.

Lemma new_channel_session_count cs ch chat sender thread sid agent name now :
  new_channel_session cs ch chat sender thread sid agent name now
    !! "message_count" = Some (PInt 0).
Proof.
  unfold new_channel_session.
  do 9 rewrite lookup_insert_ne by done. by rewrite lookup_singleton_eq.
Qed.

Lemma new_channel_session_id cs ch chat sender thread sid agent name now :
  new_channel_session cs ch chat sender thread sid agent name now !! "id"
    = Some (PStr cs).
Proof. unfold new_channel_session. by rewrite lookup_insert_eq. Qed.

Lemma new_channel_session_sid cs ch chat sender thread sid agent name now :
  new_channel_session cs ch chat sender thread sid agent name now
    !! "session_id" = Some (PStr sid).
Proof.
  unfold new_channel_session.
  do 5 rewrite lookup_insert_ne by done. by rewrite lookup_insert_eq.
Qed.

Lemma non_empty_Some (row : dict) k v :
  row !! k = Some v → non_empty (Some row) = Some row.
Proof.
  intros H. unfold non_empty. rewrite bool_decide_eq_false_2; [done|].
  intros ->. by rewrite lookup_empty in H.
Qed.

Lemma is_new_int (row : dict) (n : Z) :
  row !! "message_count" = Some (PInt n) →
  py_eqb (py_or (get_or row "message_count" (PInt 0)) (PInt 0)) (PInt 0)
    = bool_decide (n = 0).
Proof.
  intros Hn. unfold get_or. rewrite Hn. simpl. unfold py_or. simpl.
  destruct (decide (n = 0)) as [->|Hn0]; [done|].
  rewrite (proj2 (Z.eqb_neq n 0) Hn0). simpl.
  by rewrite !bool_decide_eq_false_2.
Qed.

(** An existing mapping is returned as it is; nothing changes. *)
Lemma resolve_found ch agent chat sender thread name w row idv sidv :
  faults w = [] →
  head (select (same_conversation ch chat thread) (channel_sessions (db w)))
    = Some row →
  row !! "id" = Some idv → row !! "session_id" = Some sidv →
  _resolve_session E ch agent chat sender thread name w =
    (Ok (sidv, idv,
         py_eqb (py_or (get_or row "message_count" (PInt 0)) (PInt 0)) (PInt 0)),
     w).
Proof.
  intros Hf Hfind Hid Hsid. unfold _resolve_session.
  rewrite (bind_ok _ _ _ _ _ (find_by_external_reliable ch chat thread w Hf)).
  rewrite Hfind, (non_empty_Some row "id" idv Hid), Hsid, Hid.
  reflexivity.
Qed.

(** Without a mapping, an internal session and a mapping with
    [message_count = 0] are persisted. *)
Lemma resolve_new ch agent chat sender thread name w :
  faults w = [] →
  head (select (same_conversation ch chat thread) (channel_sessions (db w)))
    = None →
  let sid := uuid4_str E (tick w) in
  let cs := uuid4_str E (S (tick w)) in
  let row := new_channel_session cs ch chat sender thread sid agent name
               (now_isoformat E (S (S (tick w)))) in
  ∃ w', _resolve_session E ch agent chat sender thread name w =
          (Ok (PStr sid, PStr cs, true), w') ∧
    faults w' = [] ∧
    channel_sessions (db w') = <[cs := row]> (channel_sessions (db w)) ∧
    sessions (db w') =
      <[sid := {[ "id" := PStr sid; "agent_id" := agent;
                  "title" := PStr (session_title name sender) ]}]>
        (sessions (db w)) ∧
    channels (db w') = channels (db w) ∧
    channel_messages (db w') = channel_messages (db w) ∧
    _adapters w' = _adapters w ∧ _channel_cache w' = _channel_cache w ∧
    engine_log w' = engine_log w ∧ exchange_log w' = exchange_log w ∧
    tick w' = S (S (S (tick w))).
Proof.
  intros Hf Hfind sid cs row. unfold _resolve_session.
  rewrite (bind_ok _ _ _ _ _ (find_by_external_reliable ch chat thread w Hf)).
  rewrite Hfind. cbn [non_empty]. rewrite bind_next_tick.
  unfold store_session. rewrite bind_assoc.
  erewrite bind_ok; [|apply db_put_reliable; [done|apply lookup_insert_eq]].
  rewrite bind_ret, bind_next_tick, bind_next_tick.
  erewrite bind_ok;
    [|apply db_put_reliable; [done|apply new_channel_session_id]].
  eexists. split; [reflexivity|]. simpl. done.
Qed.

Lemma head_elem {A} (l : list A) (x : A) : head l = Some x → x ∈ l.
Proof. destruct l; [done|]. intros [= ->]. by left. Qed.

(** C3: two calls in a row for the same external conversation return the
    same channel session (indeed the same triple).  A mapping that exists is
    returned unchanged, with [is_new] telling whether its [message_count]
    is 0; without one, an internal session and a mapping with
    [message_count = 0] are persisted and [is_new] is true. *)
Theorem resolve_session_idempotent (w : world) (ch chat : string)
    (thread : option string) (agent agent' : pyval) (sender sender' : string)
    (name name' : option string) :
  faults w = [] → sessions_wf (db w) →
  let found :=
    head (select (same_conversation ch chat thread) (channel_sessions (db w))) in
  let r1 := _resolve_session E ch agent chat sender thread name w in
  let r2 := _resolve_session E ch agent' chat sender' thread name' r1.2 in
  ∃ sid cs is_new,
    r1.1 = Ok (sid, PStr cs, is_new) ∧
    r2.1 = Ok (sid, PStr cs, is_new) ∧
    (∀ row, found = Some row →
       r1.2 = w ∧ row !! "id" = Some (PStr cs) ∧
       row !! "session_id" = Some sid ∧
       (∀ n, row !! "message_count" = Some (PInt n) →
             is_new = bool_decide (n = 0))) ∧
    (found = None →
       is_new = true ∧
       (∃ row, channel_sessions (db r1.2) !! cs = Some row ∧
          same_conversation ch chat thread row = true ∧
          row !! "message_count" = Some (PInt 0) ∧
          row !! "session_id" = Some sid) ∧
       (∃ s srow, sid = PStr s ∧ sessions (db r1.2) !! s = Some srow ∧
          srow !! "agent_id" = Some agent)).
Proof.
  intros Hf Hwf found r1 r2. subst r1 r2.
  destruct found as [row|] eqn:Hfound; subst found.
  - pose proof (head_elem _ _ Hfound) as [[k Hk] _]%select_elem.
    destruct (Hwf k row Hk) as [Hid [sidv Hsid]].
    rewrite (resolve_found ch agent chat sender thread name w row _ _
               Hf Hfound Hid Hsid).
    cbn [fst snd].
    rewrite (resolve_found ch agent' chat sender' thread name' w row _ _
               Hf Hfound Hid Hsid).
    eexists sidv, k, _. split; [reflexivity|]. split; [reflexivity|].
    split; [|done]. intros row0 [= <-]. split; [done|]. split; [done|].
    split; [done|]. intros n Hn. by apply is_new_int.
  - destruct (resolve_new ch agent chat sender thread name w Hf Hfound)
      as (w' & Hr & Hf' & Hcs & Hss & _).
    rewrite Hr. cbn [fst snd].
    set (sid := uuid4_str E (tick w)) in *.
    set (cs := uuid4_str E (S (tick w))) in *.
    set (row := new_channel_session cs ch chat sender thread sid agent name
                  (now_isoformat E (S (S (tick w))))) in *.
    assert (head (select (same_conversation ch chat thread)
                    (channel_sessions (db w'))) = Some row) as Hfound'.
    { rewrite Hcs. apply find_after_put; [done|].
      apply new_channel_session_matches. }
    rewrite (resolve_found ch agent' chat sender' thread name' w' row
               (PStr cs) (PStr sid) Hf' Hfound'
               (new_channel_session_id _ _ _ _ _ _ _ _ _)
               (new_channel_session_sid _ _ _ _ _ _ _ _ _)).
    rewrite (is_new_int row 0 (new_channel_session_count _ _ _ _ _ _ _ _ _)).
    rewrite bool_decide_eq_true_2 by done.
    exists (PStr sid), cs, true. split; [done|]. split; [done|].
    split; [done|]. intros _. split; [done|]. split.
    + exists row. rewrite Hcs, lookup_insert_eq. split; [done|].
      split; [apply new_channel_session_matches|].
      split; [apply new_channel_session_count|].
      apply new_channel_session_sid.
    + eexists sid, _. split; [done|]. rewrite Hss, lookup_insert_eq.
      split; [done|]. by rewrite lookup_insert_ne, lookup_insert_eq.
Qed.

End ResolveSession.

Section Exchange.
Import Runtime Gateway.
Variable E : env.

(** ** Frames *)

Lemma sess_frame_refl cs w : faults w = [] → sess_frame cs [] w w.
Proof.
  intros Hf. split; [done|]. split; [done|].
  split; [by rewrite app_nil_r|]. split; [done|].
  intros row Hrow. exists row. done.
Qed.

Lemma sess_frame_trans cs c1 c2 w1 w2 w3 :
  sess_frame cs c1 w1 w2 → sess_frame cs c2 w2 w3 →
  sess_frame cs (c1 ++ c2) w1 w3.
Proof.
  intros (_ & Hx1 & He1 & Ho1 & Hr1) (Hf2 & Hx2 & He2 & Ho2 & Hr2).
  split; [done|]. split; [congruence|].
  split; [by rewrite He2, He1, app_assoc|].
  split; [intros id Hid; by rewrite Ho2, Ho1|].
  intros row Hrow. destruct (Hr1 row Hrow) as (row1 & Hrow1 & Hs1 & Hk1).
  destruct (Hr2 row1 Hrow1) as (row2 & Hrow2 & Hs2 & Hk2).
  exists row2. split; [done|]. split; [auto|].
  intros k Hk. by rewrite Hk2, Hk1.
Qed.

(** A step that touches neither the channel sessions nor the logs. *)
Lemma sess_frame_other cs w w' :
  faults w' = [] → exchange_log w' = exchange_log w →
  engine_log w' = engine_log w →
  channel_sessions (db w') = channel_sessions (db w) →
  sess_frame cs [] w w'.
Proof.
  intros Hf Hx He Hc. split; [done|]. split; [done|].
  split; [by rewrite app_nil_r|]. rewrite Hc. split; [done|].
  intros row Hrow. exists row. done.
Qed.

(** Writing to the audit log, best effort. *)
Lemma log_message_frame cs (row : dict) id w :
  faults w = [] → row !! "id" = Some (PStr id) →
  ∃ w', try_except (_ ← db_put E ChannelMessages row; mret tt)
                   (λ _, mret tt) w = (Ok tt, w') ∧
        sess_frame cs [] w w' ∧ _adapters w' = _adapters w ∧
        tick w' = tick w.
Proof.
  intros Hf Hid. eexists. split.
  - apply try_except_ok. erewrite bind_ok; [|by apply db_put_reliable].
    reflexivity.
  - split; [|done]. by apply sess_frame_other.
Qed.

(** Staging attachments consults the file system only. *)
Lemma stage_all_ticks agent atts w :
  ∃ lines n, stage_all E agent atts w = (Ok lines, set_tick n w) ∧
             (tick w ≤ n)%nat.
Proof.
  revert w. induction atts as [|a atts IH]; intros w; simpl.
  - exists [], (tick w). split; [by destruct w|done].
  - destruct (truthy (get_or a "file_bytes" (PStr ""))); simpl; [|apply IH].
    rewrite bind_next_tick.
    destruct (IH (set_tick (S (tick w)) w)) as (lines & n & Hr & Hn).
    erewrite bind_ok by exact Hr. eexists _, n. split; [reflexivity|].
    simpl in Hn. lia.
Qed.

Lemma prepare_message_text_ticks msg agent w :
  ∃ text n, _prepare_message_text E msg agent w = (Ok text, set_tick n w) ∧
            (tick w ≤ n)%nat.
Proof.
  unfold _prepare_message_text. destruct (in_attachments msg) as [|a atts].
  - exists (in_text msg), (tick w). split; [by destruct w|done].
  - destruct (stage_all_ticks agent (a :: atts) w) as (lines & n & Hr & Hn).
    erewrite bind_ok by exact Hr.
    destruct lines; eexists _, n; (split; [reflexivity|done]).
Qed.

Lemma set_tick_frame cs n w : faults w = [] → sess_frame cs [] w (set_tick n w).
Proof. intros Hf. by apply sess_frame_other. Qed.

(** Adopting the engine's session id rewrites ["session_id"] only. *)
Lemma update_session_id_frame cs (new_sid : pyval) w :
  faults w = [] →
  ∃ w', try_except
          (_ ← db_update ChannelSessions cs {[ "session_id" := new_sid ]};
           mret tt)
          (λ _, mret tt) w = (Ok tt, w') ∧
        sess_frame cs [] w w' ∧ _adapters w' = _adapters w ∧
        tick w' = tick w.
Proof.
  intros Hf.
  destruct (channel_sessions (db w) !! cs) as [row|] eqn:Hrow.
  - eexists. split.
    { apply try_except_ok.
      erewrite bind_ok; [|by apply (db_update_some ChannelSessions)].
      reflexivity. }
    split; [|done]. split; [done|]. split; [done|].
    split; [by rewrite app_nil_r|]. wsimpl. split.
    + intros id Hid. by rewrite lookup_insert_ne.
    + intros row0 Hrow0. rewrite Hrow in Hrow0. injection Hrow0 as <-.
      eexists. split; [by rewrite lookup_insert_eq|]. split.
      * intros _. exists new_sid. apply lookup_union_Some_l, lookup_singleton_eq.
      * intros k Hk. apply lookup_union_r. by rewrite lookup_singleton_ne.
  - exists w. split.
    { apply try_except_ok.
      erewrite bind_ok; [|by apply (db_update_none ChannelSessions)].
      reflexivity. }
    split; [by apply sess_frame_refl|done].
Qed.

Lemma eq_str_other (v : pyval) (a b : string) :
  eq_str v a = true → a ≠ b → eq_str v b = false.
Proof.
  destruct v; try discriminate. cbn [eq_str].
  intros ->%bool_decide_eq_true Hab. by apply bool_decide_eq_false_2.
Qed.

(** The text of the blocks is built unless a block is bad. *)
Lemma blocks_text_bad (blocks : list pyval) (t : string) :
  match blocks_text blocks t with
  | Ok _ => existsb bad_block blocks = false
  | Raise _ => existsb bad_block blocks = true
  end.
Proof.
  revert t. induction blocks as [|block blocks IH]; intros t; [done|].
  cbn [blocks_text existsb].
  destruct block as [| | | | |d]; cbv beta iota delta [bad_block];
    cbn [orb]; try apply IH.
  destruct (eq_str (get d "type") "text"); [|apply IH].
  cbn [andb].
  destruct (get_or d "text" (PStr "")) as [|b|z|s|l|d']; cbn [truthy orb].
  - apply IH.
  - destruct b; [done|apply IH].
  - destruct (negb (z =? 0)); [done|apply IH].
  - destruct (negb (bool_decide (s = ""))); apply IH.
  - destruct l; [apply IH|done].
  - destruct (negb (bool_decide (d' = ∅))); [done|apply IH].
Qed.

(** One event: the store keeps its shape, the clock is not read, and the
    error flag is raised exactly by an event that reports an error; the body
    raises exactly on an event it cannot process. *)
Lemma on_event_frame cs (event : dict) (c : conversation) w :
  faults w = [] →
  ∃ r w', on_event E (PStr cs) event c w = (r, w') ∧
          sess_frame cs [] w w' ∧ _adapters w' = _adapters w ∧
          tick w' = tick w ∧
          match r with
          | Ok c' => unprocessable event = false ∧
                     error_occurred c'
                     = error_occurred c || reports_error event
          | Raise _ => unprocessable event = true
          end.
Proof.
  intros Hf. unfold on_event, reports_error, unprocessable. cbv zeta.
  set (ty := get_or event "type" (PStr "")).
  destruct (eq_str ty "assistant") eqn:Ha.
  { rewrite (eq_str_other _ _ "error" Ha), (eq_str_other _ _ "result" Ha)
      by done.
    cbn [orb andb]. rewrite orb_false_r.
    unfold mbind, M_bind, lift, iterate.
    destruct (get_or event "content" (PList [])) as [|b|z|s|l|d];
      try (eexists _, w;
           (split; [reflexivity|split; [by apply sess_frame_refl|done]])).
    pose proof (blocks_text_bad l "") as Hb.
    destruct (blocks_text l "") as [t|e];
      eexists _, w;
      (split; [reflexivity|split; [by apply sess_frame_refl|]]);
      (split; [done|split; [done|]]); [|done].
    split; [done|]. by destruct (bool_decide (t = "")). }
  destruct (eq_str ty "session_start") eqn:Hs.
  { rewrite (eq_str_other _ _ "error" Hs), (eq_str_other _ _ "result" Hs)
      by done.
    cbn [orb andb]. rewrite orb_false_r.
    destruct (truthy _ && negb _).
    - destruct (update_session_id_frame cs (get event "sessionId") w Hf)
        as (w' & Hr & Hfr & Had & Ht).
      erewrite bind_ok by exact Hr. eexists _, w'. by split.
    - eexists _, w. split; [reflexivity|split; [by apply sess_frame_refl|done]]. }
  destruct (eq_str ty "result") eqn:Hres.
  { rewrite (eq_str_other _ _ "error" Hres) by done. cbn [orb andb].
    unfold mbind, M_bind, lift.
    destruct (truthy (get_or event "subtype" (PStr ""))); cbn [andb].
    - destruct (contains "error" _) as [[]|e];
        eexists _, w;
        (split; [reflexivity|split; [by apply sess_frame_refl|]]);
        cbn [error_occurred]; rewrite ?orb_true_r, ?orb_false_r; done.
    - eexists _, w. split; [reflexivity|split; [by apply sess_frame_refl|]].
      rewrite orb_false_r. done. }
  destruct (eq_str ty "error");
    eexists _, w; (split; [reflexivity|split; [by apply sess_frame_refl|]]);
    cbn [error_occurred orb andb]; rewrite ?orb_true_r, ?orb_false_r; done.
Qed.

(** The whole stream: the loop ends with the flag raised exactly when an
    event reported an error, and raises exactly when it met an event it
    cannot process. *)
Lemma consume_frame cs (events : list dict) (c : conversation) w :
  faults w = [] →
  ∃ r w', consume E (PStr cs) events c w = (r, w') ∧
          sess_frame cs [] w w' ∧ _adapters w' = _adapters w ∧
          tick w' = tick w ∧
          match r with Ok c' => error_occurred c' | Raise _ => true end
          = error_occurred c
            || existsb (λ event, reports_error event || unprocessable event)
                 events.
Proof.
  revert c w. induction events as [|event events IH]; intros c w Hf;
    cbn [consume existsb].
  - eexists _, w. split; [reflexivity|]. split; [by apply sess_frame_refl|].
    by rewrite orb_false_r.
  - destruct (on_event_frame cs event c w Hf)
      as (r & w1 & Hr & Hfr & Had & Ht & Hflag).
    destruct r as [c'|e].
    + erewrite bind_ok by exact Hr. destruct Hflag as [Hu Hc'].
      destruct (IH c' w1 (proj1 Hfr)) as (r2 & w2 & Hr2 & Hfr2 & Had2 & Ht2 & Hfl2).
      eexists _, w2. split; [exact Hr2|]. split.
      { apply (sess_frame_trans cs [] [] w w1 w2); done. }
      split; [congruence|]. split; [congruence|].
      rewrite Hfl2, Hc', Hu, orb_false_r. by rewrite orb_assoc.
    + erewrite bind_raise by exact Hr. eexists _, w1.
      split; [reflexivity|]. split; [done|]. split; [done|]. split; [done|].
      rewrite Hflag. by rewrite !orb_true_r.
Qed.

(** The engine is called once, with the given arguments, at the current
    reading of the clock; whatever happens during the conversation, the
    computation returns, and its error flag is the one read off the
    engine's stream. *)
Lemma converse_frame cs (call : engine_call) (sid : pyval) w :
  faults w = [] →
  ∃ c w', converse E call (PStr cs) sid w = (Ok c, w') ∧
          sess_frame cs [call] w w' ∧ _adapters w' = _adapters w ∧
          tick w' = S (tick w) ∧
          error_occurred c
          = exchange_errored (run_conversation E (tick w) call).1
                             (run_conversation E (tick w) call).2.
Proof.
  intros Hf. unfold converse, try_except, exchange_errored.
  rewrite bind_next_tick, bind_modify.
  destruct (run_conversation E (tick w) call) as [events failure].
  cbn [fst snd].
  set (w0 := add_engine_call call (set_tick (S (tick w)) w)).
  assert (sess_frame cs [call] w w0) as Hfr0.
  { split; [done|]. split; [done|]. split; [done|]. split; [done|].
    intros row Hrow. exists row. done. }
  destruct (consume_frame cs events (mkConv "" sid false) w0 (proj1 Hfr0))
    as (r & w1 & Hr & Hfr & Had & Ht & Hflag).
  cbn [error_occurred orb] in Hflag.
  assert (sess_frame cs [call] w w1) as Hfr1.
  { apply (sess_frame_trans cs [call] [] w w0 w1) in Hfr; [|done].
    by rewrite app_nil_r in Hfr. }
  destruct r as [c|e].
  - erewrite bind_ok by exact Hr. destruct failure as [e|]; simpl.
    + eexists _, w1. split; [reflexivity|]. split; [done|].
      split; [done|]. split; [done|]. by rewrite orb_true_r.
    + eexists _, w1. split; [reflexivity|]. split; [done|].
      split; [done|]. split; [done|]. by rewrite orb_false_r.
  - erewrite bind_raise by exact Hr. eexists _, w1. split; [reflexivity|].
    split; [done|]. split; [done|]. split; [done|]. cbn [error_occurred].
    by rewrite <- Hflag.
Qed.

(** Sending the reply, best effort. *)
Lemma send_frame cs ch (o : OutboundMessage) w :
  faults w = [] →
  ∃ v w', (match _adapters w !! ch with
           | Some a =>
               _ ← modify (add_outbox o);
               try_except (lift (ad_send a o)) (λ _, mret PNone)
           | None => mret PNone
           end) w = (Ok v, w') ∧
          sess_frame cs [] w w' ∧ tick w' = tick w.
Proof.
  intros Hf. destruct (_adapters w !! ch) as [a|].
  - rewrite bind_modify. unfold try_except, lift.
    destruct (ad_send a o) as [v|e]; eexists _, _;
      (split; [reflexivity|]); (split; [by apply sess_frame_other|done]).
  - eexists _, w. split; [reflexivity|]. split; [by apply sess_frame_refl|done].
Qed.

(** The counters: [last_message_at] always, [message_count] plus 2 unless
    the exchange errored. *)
Lemma update_counters_run cs (err : bool) w (row : dict) (n : Z) :
  faults w = [] →
  channel_sessions (db w) !! cs = Some row →
  row !! "message_count" = Some (PInt n) →
  let stamp : dict := {[ "last_message_at" := PStr (now_isoformat E (tick w)) ]} in
  let updates : dict :=
    if err then stamp else <["message_count" := PInt (n + 2)]> stamp in
  update_counters E (PStr cs) err w =
    (Ok tt,
     set_db (λ s, t_set ChannelSessions
                    (<[cs := updates ∪ row]> (channel_sessions s)) s)
            (set_tick (S (tick w)) w)).
Proof.
  intros Hf Hrow Hn stamp updates. unfold update_counters.
  apply try_except_ok. rewrite bind_next_tick, bind_lift_ok.
  destruct err; cbn [negb]; cbv iota.
  - rewrite bind_ret.
    erewrite bind_ok;
      [|by apply (db_update_some ChannelSessions _ _ _ row)].
    reflexivity.
  - rewrite bind_assoc.
    erewrite bind_ok; [|by apply (db_get_reliable ChannelSessions)].
    wsimpl. rewrite Hrow.
    rewrite (non_empty_Some row _ _ Hn). unfold get_or. rewrite Hn.
    cbn [default id as_int]. rewrite bind_assoc, bind_lift_ok, bind_ret.
    erewrite bind_ok;
      [|by apply (db_update_some ChannelSessions _ _ _ row)].
    reflexivity.
Qed.

(** ** One exchange *)

Lemma exchange_spec msg (channel : dict) agent sid cs (is_new : bool) w
    (row : dict) (n0 : Z) :
  faults w = [] → config_is_dict E channel →
  channel_sessions (db w) !! cs = Some row →
  row !! "message_count" = Some (PInt n0) →
  ∃ w' err call row' n,
    exchange E msg channel agent sid (PStr cs) is_new w = (Ok tt, w') ∧
    tick w' = (n + 3)%nat ∧
    err = exchange_errored (run_conversation E n call).1
                           (run_conversation E n call).2 ∧
    faults w' = [] ∧
    exchange_log w' = exchange_log w ++ [(PStr cs, err)] ∧
    engine_log w' = engine_log w ++ [call] ∧
    ec_session_id call = (if is_new then PNone else sid) ∧
    channel_sessions (db w') !! cs = Some row' ∧
    row' !! "message_count" = Some (PInt (if err then n0 else n0 + 2)) ∧
    row' !! "last_message_at"
      = Some (PStr (now_isoformat E (pred (tick w')))) ∧
    (is_Some (row !! "session_id") → is_Some (row' !! "session_id")) ∧
    (∀ k, k ≠ "session_id" → k ≠ "message_count" → k ≠ "last_message_at" →
          row' !! k = row !! k) ∧
    (∀ id, id ≠ cs →
       channel_sessions (db w') !! id = channel_sessions (db w) !! id).
Proof.
  intros Hf [cfg Hcfg] Hrow Hn0. unfold exchange.
  rewrite bind_next_tick.
  set (w0 := set_tick (S (tick w)) w).
  assert (sess_frame cs [] w w0) as F0 by (by apply set_tick_frame).
  edestruct (log_message_frame cs) as (w1 & R1 & F1 & _);
    [exact (proj1 F0)|apply lookup_insert_eq|].
  erewrite bind_ok by exact R1. clear R1.
  rewrite Hcfg. cbn [val_get]. rewrite !bind_lift_ok.
  edestruct (prepare_message_text_ticks msg agent w1) as (text & n & R2 & _).
  erewrite bind_ok by exact R2. clear R2.
  assert (sess_frame cs [] w1 (set_tick n w1)) as F2
    by (apply set_tick_frame, F1).
  edestruct (converse_frame cs) as (c & w3 & R3 & F3 & _ & T3 & Herr);
    [exact (proj1 F2)|].
  erewrite bind_ok by exact R3.
  match type of R3 with converse _ ?call0 _ _ _ = _ => set (call := call0) in * end.
  clear R3. cbn [tick set_tick] in T3, Herr. rewrite bind_get.
  edestruct (send_frame cs (in_channel_id msg)) as (v & w4 & R4 & F4 & T4);
    [exact (proj1 F3)|].
  erewrite bind_ok by exact R4. clear R4.
  rewrite bind_next_tick.
  set (w5 := set_tick (S (tick w4)) w4).
  assert (sess_frame cs [] w4 w5) as F5 by (apply set_tick_frame, F4).
  edestruct (log_message_frame cs) as (w6 & R6 & F6 & _ & T6);
    [exact (proj1 F5)|apply lookup_insert_eq|].
  erewrite bind_ok by exact R6. clear R6.
  rewrite bind_modify.
  (* the frame from [w] to [w6] *)
  pose proof (sess_frame_trans _ _ _ _ _ _ F0 F1) as G.
  pose proof (sess_frame_trans _ _ _ _ _ _ G F2) as G2.
  pose proof (sess_frame_trans _ _ _ _ _ _ G2 F3) as G3.
  pose proof (sess_frame_trans _ _ _ _ _ _ G3 F4) as G4.
  pose proof (sess_frame_trans _ _ _ _ _ _ G4 F5) as G5.
  pose proof (sess_frame_trans _ _ _ _ _ _ G5 F6) as G6.
  simpl in G6. clear G G2 G3 G4 G5 F0 F1 F2 F3 F4 F5 F6.
  destruct G6 as (Hf6 & Hx6 & He6 & Ho6 & Hr6).
  destruct (Hr6 row Hrow) as (row6 & Hrow6 & Hsid6 & Hk6).
  set (err := error_occurred c).
  set (w7 := add_exchange (PStr cs, err) w6).
  rewrite (update_counters_run cs err w7 row6 n0); [|done|done|].
  2:{ rewrite Hk6 by done. done. }
  eexists _, err, call, _, n. split; [reflexivity|].
  split.
  { change (S (tick w6) = (n + 3)%nat). rewrite T6. unfold w5.
    cbn [tick set_tick]. rewrite T4, T3. lia. }
  split; [exact Herr|].
  split; [done|]. split; [simpl; by rewrite Hx6|].
  split; [done|]. split; [by destruct is_new|].
  simpl. rewrite lookup_insert_eq. split; [reflexivity|].
  split.
  { destruct err.
    - rewrite lookup_union_r by (by rewrite lookup_singleton_ne).
      by rewrite Hk6.
    - apply lookup_union_Some_l, lookup_insert_eq. }
  split.
  { apply lookup_union_Some_l. destruct err.
    - apply lookup_singleton_eq.
    - rewrite lookup_insert_ne by done. apply lookup_singleton_eq. }
  split.
  { intros Hs. destruct (Hsid6 Hs) as [x Hx]. exists x.
    rewrite lookup_union_r; [done|].
    destruct err; [by rewrite lookup_singleton_ne|].
    by rewrite lookup_insert_ne, lookup_singleton_ne. }
  split.
  { intros k H1 H2 H3. rewrite lookup_union_r; [by apply Hk6|].
    destruct err; [by rewrite lookup_singleton_ne|].
    by rewrite lookup_insert_ne, lookup_singleton_ne. }
  intros id Hid. rewrite lookup_insert_ne by done. by apply Ho6.
Qed.

Lemma same_conversation_ext ch chat thread (row row' : dict) :
  (∀ k, k ≠ "session_id" → k ≠ "message_count" → k ≠ "last_message_at" →
        row' !! k = row !! k) →
  same_conversation ch chat thread row' = same_conversation ch chat thread row.
Proof.
  intros H. unfold same_conversation, get. by rewrite !H.
Qed.

Lemma serve_spec msg (channel : dict) agent w :
  faults w = [] → sessions_wf (db w) → config_is_dict E channel →
  (∀ row, session_of msg w = Some row →
          ∃ n, row !! "message_count" = Some (PInt n)) →
  ∃ w' cs n0 err call row' n,
    serve E msg channel agent w = (Ok tt, w') ∧
    tick w' = (n + 3)%nat ∧
    err = exchange_errored (run_conversation E n call).1
                           (run_conversation E n call).2 ∧
    faults w' = [] ∧ sessions_wf (db w') ∧
    match session_of msg w with
    | Some row =>
        row !! "id" = Some (PStr cs) ∧
        row !! "message_count" = Some (PInt n0) ∧
        (n0 ≠ 0 → row !! "session_id" = Some (ec_session_id call))
    | None => n0 = 0 ∧ session_of msg w' = Some row'
    end ∧
    (n0 = 0 → ec_session_id call = PNone) ∧
    exchange_log w' = exchange_log w ++ [(PStr cs, err)] ∧
    engine_log w' = engine_log w ++ [call] ∧
    channel_sessions (db w') !! cs = Some row' ∧
    row' !! "message_count" = Some (PInt (if err then n0 else n0 + 2)) ∧
    row' !! "last_message_at"
      = Some (PStr (now_isoformat E (pred (tick w')))).
Proof.
  intros Hf Hwf Hcfg Hint. unfold serve, session_of in *.
  set (p := same_conversation (in_channel_id msg) (in_external_chat_id msg)
              (in_external_thread_id msg)) in *.
  destruct (head (select p (channel_sessions (db w)))) as [row|] eqn:Hfound.
  - pose proof (head_elem _ _ Hfound) as [[k Hk] _]%select_elem.
    destruct (Hwf k row Hk) as [Hid [sidv Hsid]].
    destruct (Hint row eq_refl) as [n0 Hn0].
    erewrite bind_ok;
      [|apply try_except_ok; erewrite bind_ok;
          [reflexivity|by eapply (resolve_found E)]].
    rewrite (is_new_int row n0 Hn0).
    destruct (exchange_spec msg channel agent sidv k (bool_decide (n0 = 0))
                w row n0 Hf Hcfg Hk Hn0)
      as (w' & err & call & row' & n & Hr & Ht & Herr & Hf' & Hx & He & Hc
          & Hrow' & Hmc & Hlm & Hs' & Hk' & Ho).
    exists w', k, n0, err, call, row', n. split; [exact Hr|].
    split; [exact Ht|]. split; [exact Herr|]. split; [done|].
    split.
    { intros id r Hidr. destruct (decide (id = k)) as [->|Hne].
      - rewrite Hrow' in Hidr. injection Hidr as <-.
        rewrite Hk' by done. split; [done|]. apply Hs'. eauto.
      - rewrite Ho in Hidr by done. by apply Hwf. }
    split.
    { split; [done|]. split; [done|]. intros Hne. rewrite Hc.
      by rewrite bool_decide_eq_false_2. }
    split; [intros ->; by rewrite Hc|]. done.
  - destruct (resolve_new E (in_channel_id msg) agent (in_external_chat_id msg)
                (in_external_sender_id msg) (in_external_thread_id msg)
                (in_sender_display_name msg) w Hf Hfound)
      as (w1 & Hr1 & Hf1 & Hcs1 & _ & _ & _ & _ & _ & Hel1 & Hxl1 & _).
    erewrite bind_ok;
      [|apply try_except_ok; erewrite bind_ok; [reflexivity|exact Hr1]].
    cbv beta iota.
    set (sid := uuid4_str E (tick w)) in *.
    set (cs := uuid4_str E (S (tick w))) in *.
    set (row := new_channel_session cs (in_channel_id msg)
                  (in_external_chat_id msg) (in_external_sender_id msg)
                  (in_external_thread_id msg) sid agent
                  (in_sender_display_name msg) _) in *.
    assert (channel_sessions (db w1) !! cs = Some row) as Hrow1
      by (by rewrite Hcs1, lookup_insert_eq).
    destruct (exchange_spec msg channel agent (PStr sid) cs true w1 row 0
                Hf1 Hcfg Hrow1 (new_channel_session_count _ _ _ _ _ _ _ _ _))
      as (w' & err & call & row' & n & Hr & Ht & Herr & Hf' & Hx & He & Hc
          & Hrow' & Hmc & Hlm & Hs' & Hk' & Ho).
    exists w', cs, 0, err, call, row', n. split; [exact Hr|].
    split; [exact Ht|]. split; [exact Herr|]. split; [done|].
    split.
    { intros id r Hidr. destruct (decide (id = cs)) as [->|Hne].
      - rewrite Hrow' in Hidr. injection Hidr as <-.
        rewrite Hk' by done. split; [apply new_channel_session_id|].
        apply Hs'. exists (PStr sid). apply new_channel_session_sid.
      - rewrite Ho, Hcs1, lookup_insert_ne in Hidr by done. by apply Hwf. }
    split.
    { split; [done|]. apply head_unique.
      - apply select_elem. split; [eauto|]. unfold p.
        rewrite (same_conversation_ext _ _ _ row row' Hk').
        apply new_channel_session_matches.
      - intros y [[k' Hk'y] Hy]%select_elem.
        destruct (decide (k' = cs)) as [->|Hne]; [congruence|].
        rewrite Ho, Hcs1, lookup_insert_ne in Hk'y by done.
        assert (y ∈ select p (channel_sessions (db w))) as Hin
          by (apply select_elem; eauto).
        destruct (select p (channel_sessions (db w)));
          [by apply elem_of_nil in Hin|done]. }
    split; [done|]. split; [by rewrite Hx, Hxl1|].
    split; [by rewrite He, Hel1|]. done.
Qed.

(** Admission reads the channel record and moves the rate limiter's
    window; it leaves the store and the logs alone. *)
Lemma admission_quiet msg w :
  faults w = [] → ∃ r w', admission E msg w = (r, w') ∧ quiet w w'.
Proof.
  intros Hf. unfold admission. rewrite bind_get.
  assert (∀ (channel : dict) w0, quiet w w0 →
    ∃ r w',
      (let agent_id := get channel "agent_id" in
       if negb (truthy agent_id) then mret None
       else
         allowed ← lift (Access._check_access (json_loads E) channel
                           (in_external_sender_id msg));
         if negb allowed then mret None
         else
           let rate_limit := get_or channel "rate_limit_per_minute" (PInt 10) in
           ok ← rate_limiter_is_allowed E (in_external_sender_id msg) rate_limit;
           if (ok : bool) then mret (Some (channel, agent_id))
           else
             w ← get_world;
             _ ← match _adapters w !! in_channel_id msg with
                 | Some a =>
                     let notice :=
                       mkOutbound (in_channel_id msg) (in_external_chat_id msg)
                         (in_external_thread_id msg)
                         (in_external_message_id msg)
                         "You are sending messages too quickly. Please wait a moment and try again." in
                     _ ← modify (add_outbox notice);
                     try_except (_ ← lift (ad_send a notice); mret tt)
                                (λ _, mret tt)
                 | None => mret tt
                 end;
             mret None) w0 = (r, w') ∧ quiet w w') as Htail.
  { intros channel w0 Hq. cbv zeta.
    destruct (negb (truthy (get channel "agent_id")));
      [eexists _, w0; split; [reflexivity|done]|].
    unfold mbind at 1, M_bind at 1, lift at 1.
    destruct (Access._check_access _ _ _) as [[]|e]; cbn [negb];
      [|eexists _, w0; split; [reflexivity|done]
       |eexists _, w0; split; [reflexivity|done]].
    unfold rate_limiter_is_allowed. rewrite bind_assoc.
    unfold mbind at 1, M_bind at 1, lift at 1.
    destruct (as_int _) as [n|e];
      [|eexists _, w0; split; [reflexivity|done]].
    destruct (decide (n ≤ 0)).
    { rewrite bind_ret. eexists _, w0. split; [reflexivity|done]. }
    rewrite bind_assoc, bind_next_tick, bind_assoc, bind_get.
    destruct (RateLimiter.is_allowed _ _ _ _) as [ok ws].
    rewrite bind_assoc, bind_modify, bind_ret.
    destruct ok; [eexists _, _; split; [reflexivity|done]|].
    rewrite bind_get. cbn [_adapters set_windows set_tick].
    destruct (_adapters w0 !! in_channel_id msg) as [a|].
    - rewrite bind_assoc, bind_modify. unfold try_except, lift.
      unfold mbind, M_bind.
      destruct (ad_send a _); eexists _, _; (split; [reflexivity|done]).
    - rewrite bind_ret. eexists _, _. split; [reflexivity|done]. }
  destruct (non_empty (_channel_cache w !! in_channel_id msg)) as [channel|].
  - rewrite bind_ret. by apply Htail.
  - rewrite bind_assoc. erewrite bind_ok; [|by apply db_get_reliable].
    destruct (non_empty _) as [channel|].
    + rewrite bind_assoc, bind_modify, bind_ret. apply Htail.
      split; [done|]. done.
    + rewrite bind_ret. eexists _, w. split; [reflexivity|].
      split; [done|]. done.
Qed.

(** C2: for an inbound message that passes admission (the channel is
    known, the sender allowed and within the rate limit), with a store that
    answers, channel sessions holding an integer [message_count] and a
    channel configuration that is a dictionary,
    [handle_inbound_message] calls the engine once and then writes the
    session's [last_message_at] with the clock read at that moment, whether
    the exchange errored or not.  The exchange errored exactly when the
    stream that the engine gave for this call reported an error (an [error]
    event, a [result] event with an error subtype), held an event that the
    loop cannot process, or raised: [message_count] grows by exactly 2 when
    it did not, and keeps its value when it did.  Hence, when the first
    exchange of a chat without a session errors, the new session keeps
    [message_count = 0], the next admitted message of that chat resolves to
    the same channel session with [is_new = true], and the engine is called
    with [session_id = None], not with the stored session id. *)
Theorem inbound_exchange_counters (msg : InboundMessage) (w w0 : world)
    (channel : dict) (agent : pyval) :
  faults w = [] → sessions_wf (db w) →
  (∀ row, session_of msg w = Some row →
          ∃ n, row !! "message_count" = Some (PInt n)) →
  admission E msg w = (Ok (Some (channel, agent)), w0) →
  config_is_dict E channel →
  ∃ w' cs n0 call row' n,
    handle_inbound_message E msg w = (Ok tt, w') ∧
    match session_of msg w with
    | Some row => row !! "id" = Some (PStr cs) ∧
                  row !! "message_count" = Some (PInt n0)
    | None => n0 = 0
    end ∧
    engine_log w' = engine_log w ++ [call] ∧
    tick w' = (n + 3)%nat ∧
    let err := exchange_errored (run_conversation E n call).1
                                (run_conversation E n call).2 in
    exchange_log w' = exchange_log w ++ [(PStr cs, err)] ∧
    channel_sessions (db w') !! cs = Some row' ∧
    row' !! "last_message_at"
      = Some (PStr (now_isoformat E (pred (tick w')))) ∧
    row' !! "message_count" = Some (PInt (if err then n0 else n0 + 2)) ∧
    (session_of msg w = None → err = true →
     ∀ msg2 w1 channel2 agent2,
       in_channel_id msg2 = in_channel_id msg →
       in_external_chat_id msg2 = in_external_chat_id msg →
       in_external_thread_id msg2 = in_external_thread_id msg →
       admission E msg2 w' = (Ok (Some (channel2, agent2)), w1) →
       config_is_dict E channel2 →
       row' !! "message_count" = Some (PInt 0) ∧
       (∃ sid,
          row' !! "session_id" = Some sid ∧
          _resolve_session E (in_channel_id msg2) agent2
            (in_external_chat_id msg2) (in_external_sender_id msg2)
            (in_external_thread_id msg2) (in_sender_display_name msg2) w1
          = (Ok (sid, PStr cs, true), w1)) ∧
       ∃ w2 err2 call2,
         handle_inbound_message E msg2 w' = (Ok tt, w2) ∧
         exchange_log w2 = exchange_log w' ++ [(PStr cs, err2)] ∧
         engine_log w2 = engine_log w' ++ [call2] ∧
         ec_session_id call2 = PNone).
Proof.
  intros Hf Hwf Hint Hadm Hcfg.
  destruct (admission_quiet msg w Hf) as (r & w0' & Ha & Hq).
  rewrite Hadm in Ha. injection Ha as <- <-.
  destruct Hq as (Hqf & Hqdb & Hqe & Hqx).
  assert (session_of msg w0 = session_of msg w) as Hso
    by (unfold session_of; by rewrite Hqdb).
  destruct (serve_spec msg channel agent w0)
    as (w' & cs & n0 & err & call & row' & n & Hr & Ht & Herr & Hf' & Hwf'
        & Hm & Hz & Hx & He & Hrow' & Hmc & Hlm).
  { by rewrite Hqf. }
  { by rewrite Hqdb. }
  { done. }
  { by rewrite Hso. }
  rewrite Hso in Hm. rewrite Hqx in Hx. rewrite Hqe in He.
  exists w', cs, n0, call, row', n.
  split.
  { unfold handle_inbound_message. erewrite bind_ok by exact Hadm. exact Hr. }
  split.
  { destruct (session_of msg w); [|tauto]. tauto. }
  split; [done|]. split; [done|]. cbv zeta. rewrite <- Herr.
  do 4 (split; [done|]).
  intros Hnone -> msg2 w1 channel2 agent2 Hch Hchat Hthread Hadm2 Hcfg2.
  rewrite Hnone in Hm. destruct Hm as [-> Hs'].
  destruct (admission_quiet msg2 w' Hf') as (r & w1' & Ha & Hq).
  rewrite Hadm2 in Ha. injection Ha as <- <-.
  destruct Hq as (Hqf1 & Hqdb1 & Hqe1 & Hqx1).
  assert (session_of msg2 w1 = Some row') as Hso2.
  { unfold session_of in *. by rewrite Hqdb1, Hch, Hchat, Hthread. }
  destruct (Hwf' cs row' Hrow') as [Hid [sidv Hsid]].
  split; [done|]. split.
  { exists sidv. split; [done|].
    erewrite (resolve_found E); [|by rewrite Hqf1|exact Hso2|exact Hid|exact Hsid].
    by rewrite (is_new_int row' 0 Hmc). }
  destruct (serve_spec msg2 channel2 agent2 w1)
    as (w2 & cs2 & n2 & err2 & call2 & row2 & m2 & Hr2 & _ & _ & _ & _ & Hm2
        & Hz2 & Hx2 & He2 & _).
  { by rewrite Hqf1. }
  { by rewrite Hqdb1. }
  { done. }
  { rewrite Hso2. intros ? [= <-]. eauto. }
  rewrite Hso2 in Hm2. destruct Hm2 as (Hid2 & Hmc2 & _).
  rewrite Hid in Hid2. injection Hid2 as <-.
  rewrite Hmc in Hmc2. injection Hmc2 as <-.
  exists w2, err2, call2. split.
  { unfold handle_inbound_message. erewrite bind_ok by exact Hadm2. exact Hr2. }
  split; [by rewrite Hx2, Hqx1|]. split; [by rewrite He2, Hqe1|].
  by apply Hz2.
Qed.

End Exchange.

(** * Concrete runs *)

Section Runs.
Import Runtime Gateway GatewayExamples.

Lemma check_access_by_mode_witness :
  Access._check_access (json_loads sample_env) allow_U1 "U1" = Ok true ∧
  Access._check_access (json_loads sample_env) allow_U1 "U2" = Ok false.
Proof.
  assert (Access.holds_senders (json_loads sample_env)
            (allow_U1 !! "allowed_senders") ["U1"]) as H.
  { right; right. exists json_U1. split; [reflexivity|]. left. reflexivity. }
  split.
  - exact (proj1 (proj1 (proj2 (proj2
             (check_access_by_mode (json_loads sample_env) allow_U1 "U1")))
             eq_refl ["U1"] H)).
  - exact (proj1 (proj1 (proj2 (proj2
             (check_access_by_mode (json_loads sample_env) allow_U1 "U2")))
             eq_refl ["U1"] H)).
Defined.

Lemma check_access_default_mode_witness :
  Access._check_access (json_loads sample_env) modeless_U1 "U1" = Ok true ∧
  Access._check_access (json_loads sample_env) modeless_U1 "U2" = Ok false.
Proof.
  assert (Access.holds_senders (json_loads sample_env)
            (modeless_U1 !! "allowed_senders") ["U1"]) as H.
  { right; left. reflexivity. }
  split.
  - exact (proj1 (check_access_default_mode (json_loads sample_env)
                    modeless_U1 "U1" ["U1"] eq_refl H)).
  - exact (proj1 (check_access_default_mode (json_loads sample_env)
                    modeless_U1 "U2" ["U1"] eq_refl H)).
Defined.

Lemma rate_limiter_sliding_window_witness :
  (RateLimiter.calls "U1" 2 [0%Q; 1%Q; 2%Q] ∅).1 = [true; true; false] ∧
  (RateLimiter.is_allowed "U1" 2 61%Q {[ "U1" := [0%Q; 10%Q] ]}).1 = true ∧
  (RateLimiter.is_allowed "U1" 0 5%Q ∅).1 = true.
Proof.
  destruct (rate_limiter_sliding_window "U1" 2) as (H1 & H2 & _).
  destruct (rate_limiter_sliding_window "U1" 0) as (_ & _ & H3).
  split; [|split].
  - apply (H1 ltac:(lia) ∅ [0%Q; 1%Q] 2%Q); [reflexivity|reflexivity|].
    intros t t' Ht Ht'.
    repeat (apply elem_of_cons in Ht as [->|Ht]);
      [| | |by apply elem_of_nil in Ht];
      repeat (apply elem_of_cons in Ht' as [->|Ht']);
      try (by apply elem_of_nil in Ht'); reflexivity.
  - destruct (H2 ltac:(lia) {[ "U1" := [0%Q; 10%Q] ]} 0%Q [10%Q] 61%Q 62%Q)
      as [H _].
    + reflexivity.
    + reflexivity.
    + discriminate.
    + repeat constructor.
    + repeat constructor.
    + by rewrite H.
  - by rewrite (H3 ltac:(lia) ∅ 5%Q).
Defined.

Lemma create_task_unknown_agent_witness :
  (TaskOps.create_task sample_env "ghost" (Some "hello") None false false None
     idle_world).1 = Raise (ValueError "Agent ghost not found") ∧
  db (TaskOps.create_task sample_env "ghost" (Some "hello") None false false
        None idle_world).2 = db idle_world.
Proof.
  destruct (create_task_unknown_agent sample_env idle_world "ghost"
              (Some "hello") None false false None eq_refl)
    as ((e & He & Hv) & Hdb & _).
  split; [|exact Hdb].
  rewrite He. f_equal. apply Hv. discriminate.
Defined.

Lemma idle_world_wf : sessions_wf (db idle_world).
Proof.
  intros k row Hk. change ((∅ : gmap string dict) !! k = Some row) in Hk.
  by rewrite lookup_empty in Hk.
Defined.

Lemma resolve_session_idempotent_witness :
  let r1 := _resolve_session sample_env "c1" (PStr "a1") "chat-1" "U1" None
              None idle_world in
  let r2 := _resolve_session sample_env "c1" (PStr "a1") "chat-1" "U1" None
              None r1.2 in
  ∃ sid cs, r1.1 = Ok (sid, PStr cs, true) ∧ r2.1 = Ok (sid, PStr cs, true).
Proof.
  intros r1 r2.
  destruct (resolve_session_idempotent sample_env idle_world "c1" "chat-1"
              None (PStr "a1") (PStr "a1") "U1" "U1" None None eq_refl
              idle_world_wf)
    as (sid & cs & is_new & H1 & H2 & _ & H3).
  destruct (H3 eq_refl) as [-> _].
  exists sid, cs. split; [exact H1 | exact H2].
Defined.

Lemma inbound_exchange_counters_witness :
  let w1 := (handle_inbound_message sample_env boom_msg idle_world).2 in
  let w2 := (handle_inbound_message sample_env hi_msg idle_world).2 in
  (∃ cs row call2,
     channel_sessions (db w1) !! cs = Some row ∧
     row !! "message_count" = Some (PInt 0) ∧
     engine_log (handle_inbound_message sample_env hi_msg w1).2
       = engine_log w1 ++ [call2] ∧
     ec_session_id call2 = PNone) ∧
  (∃ cs row,
     channel_sessions (db w2) !! cs = Some row ∧
     row !! "message_count" = Some (PInt 2)).
Proof.
  intros w1 w2.
  assert (config_is_dict sample_env crashed_channel) as Hcfg
    by (exists ∅; reflexivity).
  assert (∀ msg, session_of msg idle_world = None) as Hfresh by done.
  split.
  - destruct (inbound_exchange_counters sample_env boom_msg idle_world
                (admission sample_env boom_msg idle_world).2 crashed_channel
                (PStr "a1"))
      as (w' & cs & n0 & call & row' & n & Hr & Hm & He & Ht & Hx & Hrow & Hlm
          & Hmc & Hnext).
    + reflexivity.
    + exact idle_world_wf.
    + intros row Hs. rewrite Hfresh in Hs. discriminate.
    + vm_compute. reflexivity.
    + exact Hcfg.
    + assert (w' = w1) as -> by (unfold w1; by rewrite Hr).
      assert (ec_user_message <$> last (engine_log w1) = Some (PStr "boom"))
        as Hmsg by (vm_compute; reflexivity).
      rewrite He, last_snoc in Hmsg. injection Hmsg as Hmsg.
      assert (exchange_errored (run_conversation sample_env n call).1
                (run_conversation sample_env n call).2 = true) as Herr.
      { change (run_conversation sample_env n call) with (sample_engine n call).
        unfold sample_engine. rewrite Hmsg. vm_compute. reflexivity. }
      assert (admission sample_env hi_msg w1
              = (Ok (Some (crashed_channel, PStr "a1")),
                 (admission sample_env hi_msg w1).2)) as Hadm
        by (vm_compute; reflexivity).
      destruct (Hnext (Hfresh _) Herr hi_msg _ crashed_channel (PStr "a1")
                  eq_refl eq_refl eq_refl Hadm Hcfg)
        as (Hc0 & _ & w3 & err2 & call2 & Hr2 & _ & He2 & Hnone).
      exists cs, row', call2.
      split; [exact Hrow|]. split; [exact Hc0|].
      split; [|exact Hnone]. rewrite Hr2. exact He2.
  - destruct (inbound_exchange_counters sample_env hi_msg idle_world
                (admission sample_env hi_msg idle_world).2 crashed_channel
                (PStr "a1"))
      as (w' & cs & n0 & call & row' & n & Hr & Hm & He & Ht & Hx & Hrow & Hlm
          & Hmc & _).
    + reflexivity.
    + exact idle_world_wf.
    + intros row Hs. rewrite Hfresh in Hs. discriminate.
    + vm_compute. reflexivity.
    + exact Hcfg.
    + assert (w' = w2) as -> by (unfold w2; by rewrite Hr).
      assert (ec_user_message <$> last (engine_log w2) = Some (PStr "hi"))
        as Hmsg by (vm_compute; reflexivity).
      rewrite He, last_snoc in Hmsg. injection Hmsg as Hmsg.
      assert (exchange_errored (run_conversation sample_env n call).1
                (run_conversation sample_env n call).2 = false) as Herr.
      { change (run_conversation sample_env n call) with (sample_engine n call).
        unfold sample_engine. rewrite Hmsg. vm_compute. reflexivity. }
      rewrite Herr in Hmc. rewrite Hfresh in Hm. subst n0.
      exists cs, row'. split; [exact Hrow|exact Hmc].
Defined.

End Runs.

(** * Further properties *)

(** ** Staged file names *)

Section FileNames.
Import Files.

Lemma after_last_id sep (s : list Ascii.ascii) :
  sep ∉ s → after_last sep s = s.
Proof.
  induction s as [|c s IH]; [done|]. intros H.
  apply not_elem_of_cons in H as [Hc Hs]. simpl.
  rewrite bool_decide_eq_false_2 by done.
  by rewrite bool_decide_eq_false_2 by done.
Qed.

Lemma after_last_app sep (d b : list Ascii.ascii) :
  sep ∉ b → after_last sep (d ++ sep :: b) = b.
Proof.
  intros Hb. induction d as [|c d IH]; simpl.
  - rewrite bool_decide_eq_false_2 by done.
    by rewrite bool_decide_eq_true_2.
  - rewrite bool_decide_eq_true_2; [done|]. set_solver.
Qed.

Lemma replace_unsafe_safe (s : list Ascii.ascii) :
  Forall (λ c, unsafe c = false) (replace_unsafe s).
Proof.
  unfold replace_unsafe. apply Forall_fmap, Forall_forall. intros c _. simpl.
  by destruct (unsafe c) eqn:Hc.
Qed.

Lemma replace_unsafe_id (s : list Ascii.ascii) :
  Forall (λ c, unsafe c = false) s → replace_unsafe s = s.
Proof.
  unfold replace_unsafe. induction 1 as [|c s Hc _ IH]; [done|].
  rewrite fmap_cons, IH. by rewrite Hc.
Qed.

Lemma collapse_head (s : list Ascii.ascii) : head (collapse s) = head s.
Proof.
  induction s as [|c [|d s] IH]; [done..|].
  change (collapse (c :: d :: s)) with
    (if bool_decide (c = underscore) && bool_decide (d = underscore)
     then collapse (d :: s) else c :: collapse (d :: s)).
  destruct (bool_decide (c = underscore) && bool_decide (d = underscore)) eqn:Hb;
    [|done].
  apply andb_true_iff in Hb as [Hc%bool_decide_eq_true Hd%bool_decide_eq_true].
  rewrite IH. simpl. congruence.
Qed.

Lemma collapse_Forall (P : Ascii.ascii → Prop) (s : list Ascii.ascii) :
  Forall P s → Forall P (collapse s).
Proof.
  induction s as [|c [|d s] IH]; [done..|]. intros H.
  change (collapse (c :: d :: s)) with
    (if bool_decide (c = underscore) && bool_decide (d = underscore)
     then collapse (d :: s) else c :: collapse (d :: s)).
  inversion H; subst.
  destruct (_ && _); [by apply IH|]. constructor; [done|by apply IH].
Qed.

Lemma collapse_no_double (s : list Ascii.ascii) : no_double (collapse s).
Proof.
  induction s as [|c [|d s] IH]; [done..|].
  change (collapse (c :: d :: s)) with
    (if bool_decide (c = underscore) && bool_decide (d = underscore)
     then collapse (d :: s) else c :: collapse (d :: s)).
  destruct (bool_decide (c = underscore) && bool_decide (d = underscore)) eqn:Hb;
    [done|].
  pose proof (collapse_head (d :: s)) as Hh.
  destruct (collapse (d :: s)) as [|e r]; [done|].
  simpl in Hh. injection Hh as ->. split; [|done].
  intros [Hc Hd]. apply andb_false_iff in Hb as [Hb|Hb];
    apply bool_decide_eq_false in Hb; done.
Qed.

Lemma collapse_id (s : list Ascii.ascii) : no_double s → collapse s = s.
Proof.
  induction s as [|c [|d s] IH]; [done..|]. intros [Hcd Hs].
  change (collapse (c :: d :: s)) with
    (if bool_decide (c = underscore) && bool_decide (d = underscore)
     then collapse (d :: s) else c :: collapse (d :: s)).
  destruct (bool_decide (c = underscore) && bool_decide (d = underscore)) eqn:Hb.
  - apply andb_true_iff in Hb as [Hc%bool_decide_eq_true Hd%bool_decide_eq_true].
    by destruct Hcd.
  - by rewrite IH.
Qed.

Lemma lstrip_suffix (s : list Ascii.ascii) : lstrip s `suffix_of` s.
Proof.
  induction s as [|c s IH]; [done|]. simpl.
  destruct (bool_decide (c = underscore)); [by apply suffix_cons_r|done].
Qed.

Lemma lstrip_head (s : list Ascii.ascii) : head (lstrip s) ≠ Some underscore.
Proof.
  induction s as [|c s IH]; [done|]. simpl.
  destruct (bool_decide (c = underscore)) eqn:Hc; [done|].
  apply bool_decide_eq_false in Hc. simpl. congruence.
Qed.

Lemma lstrip_id (s : list Ascii.ascii) :
  head s ≠ Some underscore → lstrip s = s.
Proof.
  destruct s as [|c s]; [done|]. simpl. intros H.
  rewrite bool_decide_eq_false_2; [done|]. congruence.
Qed.

Lemma no_double_suffix (s t : list Ascii.ascii) :
  s `suffix_of` t → no_double t → no_double s.
Proof.
  intros [k ->]. induction k as [|c k IH]; [done|].
  intros [_ H]. by apply IH.
Qed.

Lemma rstrip_cons c (s : list Ascii.ascii) :
  rstrip (c :: s) =
    match rstrip s with
    | [] => if bool_decide (c = underscore) then [] else [c]
    | r => c :: r
    end.
Proof. done. Qed.

Lemma rstrip_head (s : list Ascii.ascii) :
  rstrip s ≠ [] → head (rstrip s) = head s.
Proof.
  destruct s as [|c s]; [done|]. rewrite rstrip_cons.
  destruct (rstrip s); [|done]. by destruct (bool_decide _).
Qed.

Lemma rstrip_Forall (P : Ascii.ascii → Prop) (s : list Ascii.ascii) :
  Forall P s → Forall P (rstrip s).
Proof.
  induction 1 as [|c s Hc _ IH]; [done|]. rewrite rstrip_cons.
  destruct (rstrip s); [|by constructor].
  destruct (bool_decide _); [done|by constructor].
Qed.

Lemma rstrip_no_double (s : list Ascii.ascii) :
  no_double s → no_double (rstrip s).
Proof.
  induction s as [|c s IH]; [done|]. intros [Hc Hs]. rewrite rstrip_cons.
  pose proof (rstrip_head s) as Hh. specialize (IH Hs).
  destruct (rstrip s) as [|e r].
  - by destruct (bool_decide _).
  - split; [|done]. specialize (Hh ltac:(done)). simpl in Hh.
    destruct s as [|d s]; [done|]. simpl in Hh. by injection Hh as ->.
Qed.

Lemma rstrip_last (s : list Ascii.ascii) : last (rstrip s) ≠ Some underscore.
Proof.
  induction s as [|c s IH]; [done|]. rewrite rstrip_cons.
  destruct (rstrip s) as [|e r].
  - destruct (bool_decide (c = underscore)) eqn:Hc; [done|].
    apply bool_decide_eq_false in Hc. simpl. congruence.
  - by rewrite last_cons_cons.
Qed.

Lemma rstrip_id (s : list Ascii.ascii) :
  last s ≠ Some underscore → rstrip s = s.
Proof.
  induction s as [|c s IH]; [done|]. rewrite rstrip_cons.
  destruct s as [|d s].
  - simpl. intros H. rewrite bool_decide_eq_false_2; [done|]. congruence.
  - rewrite last_cons_cons. intros H. rewrite IH by done. done.
Qed.

Lemma sanitized_clean (name : list Ascii.ascii) : clean (sanitized name).
Proof.
  unfold sanitized, strip.
  set (s := collapse _).
  assert (Forall (λ c, unsafe c = false) s) as Hsafe
    by apply collapse_Forall, replace_unsafe_safe.
  assert (no_double s) as Hnd by apply collapse_no_double.
  pose proof (lstrip_suffix s) as Hsuf.
  split; [|split; [|split]].
  - apply rstrip_Forall. destruct Hsuf as [k Hk]. rewrite Hk in Hsafe.
    by apply Forall_app in Hsafe as [_ ?].
  - apply rstrip_no_double. by eapply no_double_suffix.
  - destruct (rstrip (lstrip s)) as [|c r] eqn:Hr; [done|].
    rewrite <- Hr, rstrip_head by (by rewrite Hr). apply lstrip_head.
  - apply rstrip_last.
Qed.

Lemma sanitized_fixed (s : list Ascii.ascii) : clean s → sanitized s = s.
Proof.
  intros (Hsafe & Hnd & Hh & Hl). unfold sanitized, strip.
  assert (∀ c, unsafe c = true → c ∉ s) as Hnot.
  { intros c Hc Hin. rewrite Forall_forall in Hsafe.
    specialize (Hsafe c Hin). congruence. }
  rewrite (after_last_id slash) by (by apply Hnot).
  rewrite (after_last_id backslash) by (by apply Hnot).
  rewrite replace_unsafe_id, collapse_id, lstrip_id, rstrip_id; done.
Qed.

Lemma list_ascii_app (a b : string) :
  String.list_ascii_of_string (a +:+ b)
  = String.list_ascii_of_string a ++ String.list_ascii_of_string b.
Proof. induction a as [|c a IH]; [done|]. simpl. by rewrite IH. Qed.

Lemma sanitize_filename_chars (name : string) :
  String.list_ascii_of_string (_sanitize_filename name)
  = match sanitized (String.list_ascii_of_string name) with
    | [] => String.list_ascii_of_string "attachment"
    | s => s
    end.
Proof.
  unfold _sanitize_filename.
  destruct (sanitized _) as [|c s]; [done|].
  apply String.list_ascii_of_string_of_list_ascii.
Qed.

Lemma attachment_clean : clean (String.list_ascii_of_string "attachment").
Proof.
  split; [|split; [|split]]; [repeat constructor| |done|done].
  simpl. repeat split; intros [H1 H2]; first [discriminate H1|discriminate H2].
Qed.

(** The name that [_sanitize_filename] returns is never empty and is safe
    to use as a file name: it holds none of the characters the code calls
    unsafe (so no path separator), no two underscores in a row, and does
    not start or end with an underscore. *)
Theorem sanitize_filename_safe (name : string) :
  _sanitize_filename name ≠ "" ∧
  clean (String.list_ascii_of_string (_sanitize_filename name)).
Proof.
  split.
  - unfold _sanitize_filename. by destruct (sanitized _).
  - rewrite sanitize_filename_chars.
    pose proof (sanitized_clean (String.list_ascii_of_string name)) as H.
    destruct (sanitized _); [apply attachment_clean|done].
Qed.

(** A name that is already safe is returned as it is. *)
Theorem sanitize_filename_fixed (name : string) :
  name ≠ "" → clean (String.list_ascii_of_string name) →
  _sanitize_filename name = name.
Proof.
  intros Hne Hc. unfold _sanitize_filename. rewrite sanitized_fixed by done.
  destruct name as [|c name]; [done|]. simpl.
  by rewrite String.string_of_list_ascii_of_string.
Qed.

Lemma sanitize_filename_fixed_witness :
  _sanitize_filename "report_v2.pdf" = "report_v2.pdf".
Proof.
  apply sanitize_filename_fixed; [discriminate|].
  split; [|split; [|split]]; [repeat constructor| |done|done].
  simpl. repeat split; intros [H1 H2]; first [discriminate H1|discriminate H2].
Defined.

(** Sanitizing twice is sanitizing once. *)
Theorem sanitize_filename_idempotent (name : string) :
  _sanitize_filename (_sanitize_filename name) = _sanitize_filename name.
Proof.
  destruct (sanitize_filename_safe name) as [Hne Hc].
  unfold _sanitize_filename at 1. rewrite sanitized_fixed by done.
  destruct (String.list_ascii_of_string (_sanitize_filename name)) eqn:Hl.
  - destruct (_sanitize_filename name); done.
  - rewrite <- Hl. apply String.string_of_list_ascii_of_string.
Qed.

(** Only the last component of a path is kept: whatever directories the
    name comes with, separated by slashes, the result is that of the
    base name alone. *)
Theorem sanitize_filename_drops_directories (dir base : string) :
  Files.slash ∉ String.list_ascii_of_string base →
  _sanitize_filename (dir +:+ "/" +:+ base) = _sanitize_filename base.
Proof.
  intros Hb. unfold _sanitize_filename, sanitized.
  rewrite !list_ascii_app. change (String.list_ascii_of_string "/") with [slash].
  rewrite (after_last_app slash _ _ Hb).
  by rewrite (after_last_id slash _ Hb).
Qed.

Lemma sanitize_filename_drops_directories_witness :
  _sanitize_filename "../../etc/passwd" = "passwd".
Proof.
  assert (Files.slash ∉ String.list_ascii_of_string "passwd") as H.
  { simpl. intros H.
    repeat (apply elem_of_cons in H as [H|H]; [discriminate|]).
    by apply elem_of_nil in H. }
  exact (eq_trans
           (sanitize_filename_drops_directories "../../etc" "passwd" H)
           eq_refl).
Defined.

End FileNames.

(** ** The rate limiter, further *)

Section RateLimitMore.
Import RateLimiter.
Open Scope Q_scope.

Lemma is_allowed_other s s' (N : Z) now (w : windows) :
  s' ≠ s → (is_allowed s N now w).2 !! s' = w !! s'.
Proof.
  intros Hne. unfold is_allowed.
  destruct (decide (N ≤ 0)%Z); [done|]. cbv zeta.
  destruct (decide _); simpl; by rewrite lookup_insert_ne.
Qed.

Lemma calls_other s s' (N : Z) times (w : windows) :
  s' ≠ s → (calls s N times w).2 !! s' = w !! s'.
Proof.
  intros Hne. revert w. induction times as [|now times IH]; intros w; [done|].
  simpl. pose proof (is_allowed_other s s' N now w Hne) as H1.
  destruct (is_allowed s N now w) as [b w1]. specialize (IH w1).
  destruct (calls s N times w1) as [bs w2]. simpl in *. congruence.
Qed.

Lemma is_allowed_verdict_local s (N : Z) now (w w' : windows) :
  w !! s = w' !! s → (is_allowed s N now w).1 = (is_allowed s N now w').1.
Proof.
  intros H. unfold is_allowed. rewrite H.
  destruct (decide (N ≤ 0)%Z); [done|]. cbv zeta. by destruct (decide _).
Qed.

(** The limiter is per sender: whatever calls another sender makes, with
    whatever limit, a sender's next verdict is what it would have been
    without them. *)
Theorem rate_limiter_senders_independent (s s' : string) (N N' : Z)
    (times : list Q) (now : Q) (w : windows) :
  s' ≠ s →
  (is_allowed s' N' now (calls s N times w).2).1 = (is_allowed s' N' now w).1.
Proof.
  intros Hne. apply is_allowed_verdict_local. by apply calls_other.
Qed.

Lemma rate_limiter_senders_independent_witness :
  (is_allowed "U2" 1 3 (calls "U1" 1 [0; 1; 2] ∅).2).1 = true.
Proof.
  rewrite (rate_limiter_senders_independent "U1" "U2" 1 1 [0; 1; 2] 3 ∅);
    [reflexivity|discriminate].
Defined.

Lemma filter_length_le (cutoff : Q) (l : list Q) :
  (length (filter (λ ts, (cutoff < ts)%Q) l) ≤ length l)%nat.
Proof. apply length_filter. Qed.

Lemma is_allowed_window_bounded s (N : Z) now (w : windows) :
  (1 ≤ N)%Z →
  (Z.of_nat (length (window_of s w)) ≤ N)%Z →
  (Z.of_nat (length (window_of s (is_allowed s N now w).2)) ≤ N)%Z.
Proof.
  intros HN Hlen. unfold is_allowed. rewrite decide_False by lia.
  cbv zeta. fold (window_of s w).
  pose proof (filter_length_le (now - 60) (window_of s w)).
  destruct (decide _) as [Hfull|Hroom]; simpl; rewrite window_of_insert.
  - lia.
  - rewrite length_app. simpl. lia.
Qed.

(** With a limit [N >= 1], a sender's window never holds more than [N]
    timestamps, whatever the clock readings of the calls are. *)
Theorem rate_limiter_window_bounded (s : string) (N : Z) (times : list Q)
    (w : windows) :
  (1 ≤ N)%Z →
  (Z.of_nat (length (window_of s w)) ≤ N)%Z →
  (Z.of_nat (length (window_of s (calls s N times w).2)) ≤ N)%Z.
Proof.
  intros HN. revert w. induction times as [|now times IH]; intros w Hlen;
    [done|].
  simpl. pose proof (is_allowed_window_bounded s N now w HN Hlen) as H1.
  destruct (is_allowed s N now w) as [b w1]. specialize (IH w1 H1).
  by destruct (calls s N times w1) as [bs w2].
Qed.

Lemma rate_limiter_window_bounded_witness :
  (Z.of_nat (length (window_of "U1" (calls "U1" 2 [0%Q; 1%Q; 2%Q; 70%Q; 71%Q; 72%Q] ∅).2))
   ≤ 2)%Z.
Proof.
  apply rate_limiter_window_bounded; [lia|vm_compute; discriminate].
Defined.

(** [clear(sender_id)] forgets that sender only, and gives it its full
    allowance back: the next [N] calls within one window pass.  Without a
    sender, or with the empty string, every window is forgotten. *)
Theorem rate_limiter_clear_resets (s : string) (N : Z) (times : list Q)
    (w : windows) :
  s ≠ "" → (0 < N)%Z → (Z.of_nat (length times) ≤ N)%Z →
  within_window times →
  (calls s N times (clear (Some s) w)).1 = replicate (length times) true ∧
  (∀ s', s' ≠ s → clear (Some s) w !! s' = w !! s') ∧
  clear None w = ∅ ∧ clear (Some "") w = ∅.
Proof.
  intros Hs HN Hlen Hwin. unfold clear.
  rewrite bool_decide_eq_false_2 by done.
  assert (window_of s (delete s w) = []) as Hempty
    by (unfold window_of; by rewrite lookup_delete_eq).
  split; [|split; [|done]].
  - apply calls_admitted; [done| |]; rewrite Hempty; simpl; [lia|done].
  - intros s' Hne. by rewrite lookup_delete_ne.
Qed.

Lemma rate_limiter_clear_resets_witness :
  (calls "U1" 2 [70; 71] (clear (Some "U1") (calls "U1" 2 [68; 69] ∅).2)).1
  = [true; true].
Proof.
  apply (rate_limiter_clear_resets "U1" 2 [70; 71]); [discriminate|lia|simpl; lia|].
  intros t t' Ht Ht'.
  repeat (apply elem_of_cons in Ht as [->|Ht]);
    [| |by apply elem_of_nil in Ht];
    repeat (apply elem_of_cons in Ht' as [->|Ht']);
    try (by apply elem_of_nil in Ht'); reflexivity.
Defined.

End RateLimitMore.

(** *** No more than the limit in any minute *)

From Stdlib Require Import Lqa Sorted.

Section RateLimitMinute.
Import RateLimiter RateLimiterRuns.
Open Scope Q_scope.

Lemma prefix_snoc_cases {A} (l k : list A) (a : A) :
  l `prefix_of` k ++ [a] → l = k ++ [a] ∨ l `prefix_of` k.
Proof.
  intros [r Hr]. destruct r as [|x r _] using rev_ind.
  - left. by rewrite app_nil_r in Hr.
  - right. rewrite app_assoc in Hr. apply app_inj_tail in Hr as [-> _].
    by exists r.
Qed.

Lemma paced_nil N : paced N [].
Proof.
  intros P a [k Hk]. destruct P; discriminate.
Qed.

Lemma paced_snoc N (A : list Q) (a : Q) :
  paced N A →
  (Z.of_nat (length (filter (λ x, (a - 60 < x)%Q) (A ++ [a]))) ≤ N)%Z →
  paced N (A ++ [a]).
Proof.
  intros HA Ha P b Hpre.
  destruct (prefix_snoc_cases _ _ _ Hpre) as [Heq|Hpre'].
  - apply app_inj_tail in Heq as [-> ->]. done.
  - by apply HA.
Qed.

Lemma paced_prefix N (A B : list Q) : paced N (A ++ B) → paced N A.
Proof.
  intros H P a Hpre. apply H. by apply prefix_app_r.
Qed.

Lemma filter_filter_older (c c' : Q) (l : list Q) :
  c <= c' →
  filter (λ x, c' < x) (filter (λ x, c < x) l) = filter (λ x, c' < x) l.
Proof.
  intros Hc. induction l as [|x l IH]; [done|].
  destruct (decide (c' < x)) as [H'|H'].
  - rewrite (filter_cons_True (λ x, c < x)) by lra.
    by rewrite !filter_cons_True, IH by done.
  - rewrite (filter_cons_False (λ x, c' < x) x l) by done.
    destruct (decide (c < x)).
    + rewrite (filter_cons_True (λ x, c < x)) by done.
      by rewrite filter_cons_False by done.
    + by rewrite (filter_cons_False (λ x, c < x)) by done.
Qed.

Lemma calls_paced s (N : Z) (times : list Q) :
  (1 ≤ N)%Z → StronglySorted Qle times →
  ∀ (w : windows) (A : list Q) (c : Q),
    window_of s w = filter (λ x, c < x) A →
    Forall (λ now, c <= now - 60) times →
    paced N A →
    paced N (A ++ admitted_times times (calls s N times w).1).
Proof.
  intros HN. induction 1 as [|now times Hsorted IH Hle];
    intros w A c Hw Hc HA.
  - simpl. by rewrite app_nil_r.
  - apply Forall_cons in Hc as [Hnow Hc].
    assert (Forall (λ now', now - 60 <= now' - 60) times) as Hc'.
    { eapply Forall_impl; [exact Hle|]. intros x Hx. simpl in Hx. lra. }
    simpl. unfold is_allowed at 1. rewrite decide_False by lia. cbv zeta.
    fold (window_of s w). rewrite Hw, filter_filter_older by done.
    destruct (decide _) as [Hfull|Hroom].
    + specialize (IH (<[s := filter (λ x, now - 60 < x) A]> w) A (now - 60)).
      rewrite window_of_insert in IH. specialize (IH eq_refl Hc' HA).
      destruct (calls s N times _) as [bs w2]. simpl in *. exact IH.
    + specialize (IH (<[s := filter (λ x, now - 60 < x) A ++ [now]]> w)
                    (A ++ [now]) (now - 60)).
      rewrite window_of_insert in IH.
      assert (filter (λ x, now - 60 < x) (A ++ [now])
              = filter (λ x, now - 60 < x) A ++ [now]) as Hf.
      { rewrite filter_app. f_equal. rewrite filter_cons_True by lra. done. }
      rewrite Hf in IH. specialize (IH eq_refl Hc').
      destruct (calls s N times _) as [bs w2]. simpl in *.
      rewrite <- app_assoc in IH. apply IH.
      apply paced_snoc; [done|]. rewrite Hf, length_app. simpl. lia.
Qed.

Lemma in_minute_le (a t : Q) (l : list Q) :
  a <= t →
  (in_minute t l ≤ length (filter (λ x, (a - 60 < x)%Q) l))%nat.
Proof.
  intros Hat. unfold in_minute. induction l as [|x l IH]; [done|].
  destruct (decide (t - 60 < x ∧ x <= t)) as [Hx|Hx].
  - rewrite filter_cons_True by done.
    rewrite (filter_cons_True (λ x, a - 60 < x)) by (destruct Hx; lra).
    simpl. lia.
  - rewrite filter_cons_False by done.
    destruct (decide (a - 60 < x)).
    + rewrite (filter_cons_True (λ x, a - 60 < x)) by done. simpl. lia.
    + by rewrite (filter_cons_False (λ x, a - 60 < x)) by done.
Qed.

Lemma paced_in_minute (N : Z) (A : list Q) :
  (0 ≤ N)%Z → paced N A → ∀ t, (Z.of_nat (in_minute t A) ≤ N)%Z.
Proof.
  intros HN. induction A as [|a A IH] using rev_ind; intros HA t.
  - simpl. done.
  - destruct (decide (a <= t)) as [Hat|Hat].
    + pose proof (in_minute_le a t (A ++ [a]) Hat) as H1.
      pose proof (HA A a ltac:(done)) as H2. lia.
    + unfold in_minute in *.
      rewrite filter_app, filter_cons_False, filter_nil, app_nil_r
        by (intros [_ ?]; done).
      apply IH. by eapply paced_prefix.
Qed.

(** With a limit [N >= 1], a clock that never goes back and a sender whose
    window starts empty, the limiter never lets more than [N] calls of the
    sender through in any 60 seconds: whatever instant [t] is taken, at most
    [N] of the calls that passed have a clock reading in the minute that
    ends at [t]. *)
Theorem rate_limiter_at_most_per_minute (s : string) (N : Z)
    (times : list Q) (w : windows) (t : Q) :
  (1 ≤ N)%Z → StronglySorted Qle times → window_of s w = [] →
  (Z.of_nat (in_minute t (admitted_times times (calls s N times w).1)) ≤ N)%Z.
Proof.
  intros HN Hsorted Hw.
  apply paced_in_minute; [lia|].
  destruct times as [|now times]; [apply paced_nil|].
  apply (calls_paced s N (now :: times) HN Hsorted w [] (now - 60));
    [by rewrite Hw| |apply paced_nil].
  apply StronglySorted_inv in Hsorted as [_ Hle].
  constructor; [lra|]. eapply Forall_impl; [exact Hle|].
  intros x Hx. simpl in Hx. lra.
Qed.

Lemma rate_limiter_at_most_per_minute_witness :
  (Z.of_nat (in_minute 61%Q
     (admitted_times [0%Q; 1%Q; 2%Q; 60%Q; 61%Q]
        (calls "U1" 2 [0%Q; 1%Q; 2%Q; 60%Q; 61%Q] ∅).1)) ≤ 2)%Z.
Proof.
  apply rate_limiter_at_most_per_minute; [lia| |reflexivity].
  repeat (constructor; [|repeat constructor; discriminate]).
  constructor.
Defined.

End RateLimitMinute.

(** ** The task manager: subscriptions and retention *)

Section Retention.
Import TaskManager TaskRetention.

(** A subscription that starts when nothing more will be emitted on its
    task, for instance because the task is over, yields what the buffer
    holds and then waits: it does not end by itself, even when the buffer
    holds the terminal event of the task. *)
Theorem subscription_after_the_end_waits (s : system) (gid : nat)
    (g : generator) (acts : list action) :
  allocated s → sys_gens s !! gid = Some g →
  g_state g = NotStarted → g_out g = [] →
  AClose gid ∉ acts → emitted (g_task g) acts = [] →
  let B := default [] (_event_buffers (sys_tm s) !! g_task g) in
  let s' := run (ANext gid :: acts) s in
  ∃ g', sys_gens s' !! gid = Some g' ∧
    finished g' = false ∧
    g_out g' `prefix_of` B ∧
    (g_out g' = B →
     ∃ g'' tm'', anext g' (sys_tm s') = (Pending, g'', tm'') ∧
                 g_out g'' = B ∧ finished g'' = false).
Proof.
  intros Hal Hg Hst Hout Hno Hem B s'.
  pose proof (start_delivery s gid g Hal Hg Hst Hout) as Hd.
  apply (run_delivery _ _ _ _ _ acts Hno) in Hd.
  rewrite Hem in Hd. change ([] ++ []) with (@nil event) in Hd. fold B in Hd.
  change (run acts (step (ANext gid) s)) with s' in Hd.
  clearbody s' B.
  destruct (delivery_safe _ _ _ _ _ Hd) as (g' & Hg' & _ & Hpre & Hfin).
  change (g_out g' `prefix_of` B ++ []) in Hpre.
  rewrite app_nil_r in Hpre.
  assert (finished g' = false) as Hnf.
  { destruct (finished g') eqn:Hf; [|done].
    destruct (Hfin eq_refl) as (_ & (e & He & _) & _).
    by apply elem_of_nil in He. }
  exists g'. split; [done|]. split; [done|]. split; [done|].
  intros HB. destruct (anext g' (sys_tm s')) as [[r g''] tm''] eqn:Ha.
  pose proof (step_delivery gid (g_task g) B [] s' (ANext gid)
                ltac:(done) Hd) as Hd'.
  assert (step (ANext gid) s'
          = mkSys tm'' (<[gid := g'']> (sys_gens s'))) as Hstep
    by (unfold step; by rewrite Hg', Ha).
  rewrite Hstep in Hd'. clear Hstep.
  destruct (delivery_safe _ _ _ _ _ Hd') as (g2 & Hg2 & _ & Hpre2 & Hfin2).
  cbn [sys_gens] in Hg2. rewrite lookup_insert_eq in Hg2.
  injection Hg2 as <-.
  change (g_out g'' `prefix_of` B ++ []) in Hpre2.
  rewrite app_nil_r in Hpre2.
  assert (finished g'' = false) as Hnf2.
  { destruct (finished g'') eqn:Hf; [|done].
    destruct (Hfin2 eq_refl) as (_ & (e & He & _) & _).
    by apply elem_of_nil in He. }
  destruct (delivery_next _ _ _ _ _ _ _ _ _ Hd Hg' Ha)
    as [(e & -> & Hout2)|(Hout2 & _ & [(-> & _)|(_ & Hf)])].
  - rewrite Hout2, HB in Hpre2. apply prefix_length in Hpre2.
    rewrite length_app in Hpre2. simpl in Hpre2. lia.
  - exists g'', tm''. by rewrite Hout2.
  - congruence.
Qed.

Lemma ended_sys_allocated : allocated ended_sys.
Proof.
  split.
  - intros t qs q Hqs Hq.
    change (({[ "t" := [] ]} : gmap string (list nat)) !! t = Some qs) in Hqs.
    apply lookup_singleton_Some in Hqs as [_ <-]. by apply elem_of_nil in Hq.
  - intros gid g Hg Hact.
    change (({[ 0%nat := mkGen "t" 0 NotStarted [] ]} : gmap nat generator)
              !! gid = Some g) in Hg.
    apply lookup_singleton_Some in Hg as [_ <-]. done.
Qed.

Lemma subscription_after_the_end_waits_witness :
  ∃ g', sys_gens (run [ANext 0%nat; ANext 0%nat; ANext 0%nat] ended_sys)
          !! 0%nat = Some g' ∧
        finished g' = false.
Proof.
  destruct (subscription_after_the_end_waits ended_sys 0%nat
              (mkGen "t" 0%nat NotStarted []) [ANext 0%nat; ANext 0%nat]
              ended_sys_allocated eq_refl eq_refl eq_refl)
    as (g' & Hg' & Hnf & _).
  - intros H. repeat (apply elem_of_cons in H as [H|H]; [discriminate|]).
    by apply elem_of_nil in H.
  - reflexivity.
  - exists g'. split; [exact Hg'|exact Hnf].
Defined.

(** While a subscription is open on a task, the cleanup that follows the
    end of the task removes nothing: it schedules itself again. *)
Theorem cleanup_spares_open_subscription (s : system) (gid : nat)
    (g : generator) (acts : list action) :
  allocated s → sys_gens s !! gid = Some g →
  g_state g = NotStarted → g_out g = [] →
  AClose gid ∉ acts →
  let s' := run (ANext gid :: acts) s in
  ∃ g', sys_gens s' !! gid = Some g' ∧
    (finished g' = false →
     _schedule_buffer_cleanup (g_task g) (sys_tm s') = (true, sys_tm s')).
Proof.
  intros Hal Hg Hst Hout Hno s'.
  pose proof (start_delivery s gid g Hal Hg Hst Hout) as Hd.
  apply (run_delivery _ _ _ _ _ acts Hno) in Hd.
  change (run acts (step (ANext gid) s)) with s' in Hd. clearbody s'.
  destruct Hd as (g' & Hg' & _ & _ & _ & _ & Hocc & Hsome & _).
  exists g'. split; [done|]. intros Hnf.
  destruct (Hsome Hnf) as [qs Hqs]. specialize (Hocc _ _ Hqs).
  rewrite decide_True, Hnf in Hocc by done.
  unfold _schedule_buffer_cleanup. rewrite Hqs.
  destruct qs; [discriminate|done].
Qed.

Lemma cleanup_spares_open_subscription_witness :
  _schedule_buffer_cleanup "t" (sys_tm (run [ANext 0%nat; ANext 0%nat] ended_sys))
  = (true, sys_tm (run [ANext 0%nat; ANext 0%nat] ended_sys)).
Proof.
  destruct (cleanup_spares_open_subscription ended_sys 0%nat
              (mkGen "t" 0%nat NotStarted []) [ANext 0%nat]
              ended_sys_allocated eq_refl eq_refl eq_refl)
    as (g' & Hg' & Hc).
  - intros H. repeat (apply elem_of_cons in H as [H|H]; [discriminate|]).
    by apply elem_of_nil in H.
  - apply Hc. vm_compute in Hg'. by injection Hg' as <-.
Defined.

(** Without an open subscription the cleanup forgets the task: its buffer,
    subscriber list and message queue are gone and those of the other
    tasks stay.  From then on an event emitted on the task is dropped, and
    a new subscriber is given nothing of what the task emitted: it
    waits. *)
Theorem cleanup_forgets_task (t : string) (tm : task_manager) :
  default [] (_subscribers tm !! t) = [] →
  let r := _schedule_buffer_cleanup t tm in
  r.1 = false ∧
  _event_buffers r.2 !! t = None ∧ _subscribers r.2 !! t = None ∧
  _message_queues r.2 !! t = None ∧
  (∀ t', t' ≠ t →
     _event_buffers r.2 !! t' = _event_buffers tm !! t' ∧
     _subscribers r.2 !! t' = _subscribers tm !! t' ∧
     _message_queues r.2 !! t' = _message_queues tm !! t') ∧
  (∀ e, _emit_event t e r.2 = r.2) ∧
  (∀ g, g_task g = t → g_state g = NotStarted →
     (anext g r.2).1.1 = Pending ∧ g_out (anext g r.2).1.2 = g_out g).
Proof.
  intros Hsub r.
  assert (r = (false, pop_buffers t tm)) as ->.
  { unfold r, _schedule_buffer_cleanup.
    destruct (_subscribers tm !! t) as [[|q qs]|]; done. }
  cbn [fst snd]. unfold pop_buffers.
  split; [done|]. cbn [_event_buffers _subscribers _message_queues].
  rewrite !lookup_delete_eq. do 3 (split; [done|]).
  split; [by intros t' Hne; rewrite !lookup_delete_ne|].
  split.
  - intros e. unfold _emit_event. cbn [_event_buffers].
    rewrite lookup_delete_eq. cbn [_subscribers].
    by rewrite lookup_delete_eq.
  - intros g <- Hst. unfold anext. rewrite Hst.
    unfold new_queue, register, set_subscribers.
    cbn [_subscribers _event_buffers queue_heap next_qid _running_tasks
         _message_queues].
    rewrite lookup_delete_eq. cbn [default].
    unfold replay, live. cbn [g_queue queue_heap].
    by rewrite lookup_insert_eq.
Qed.

Lemma cleanup_forgets_task_witness :
  (_schedule_buffer_cleanup "t" TaskExamples.fresh_task).1 = false ∧
  _emit_event "t" TaskExamples.result_event
    (_schedule_buffer_cleanup "t" TaskExamples.fresh_task).2
  = (_schedule_buffer_cleanup "t" TaskExamples.fresh_task).2.
Proof.
  destruct (cleanup_forgets_task "t" TaskExamples.fresh_task eq_refl)
    as (H1 & _ & _ & _ & _ & H2 & _).
  split; [exact H1|apply H2].
Defined.

End Retention.

(** ** The background run of a task *)

Section TaskRunning.
Import Runtime TaskManager TaskRun.
Variable E : env.
Variable exn_str : exn → string.

Lemma relayed_app tid (l1 l2 : list dict) t :
  relayed tid (l1 ++ l2) t = relayed tid l2 (relayed tid l1 t).
Proof. unfold relayed, emit_all. by rewrite fmap_app, foldl_app. Qed.

Lemma relayed_cons tid e (l : list dict) t :
  relayed tid (e :: l) t = relayed tid l (_emit_event tid e t).
Proof. done. Qed.

Lemma relayed_snoc tid e (l : list dict) t :
  relayed tid (l ++ [e]) t = _emit_event tid e (relayed tid l t).
Proof. by rewrite relayed_app. Qed.

Lemma session_field_app (l1 l2 : list dict) o :
  session_field (l1 ++ l2) o = session_field l2 (session_field l1 o).
Proof. unfold session_field. by rewrite foldl_app. Qed.

Lemma captured_app (l1 l2 : list dict) sid :
  captured (l1 ++ l2) sid = captured l2 (captured l1 sid).
Proof. unfold captured. by rewrite foldl_app. Qed.

Lemma relay_frame_refl tid w : faults w = [] → relay_frame tid [] w w.
Proof.
  intros Hf. split; [done|]. do 5 (split; [done|]).
  intros row Hrow. by exists row.
Qed.

Lemma relay_frame_trans tid l1 l2 w w1 w2 :
  relay_frame tid l1 w w1 → relay_frame tid l2 w1 w2 →
  relay_frame tid (l1 ++ l2) w w2.
Proof.
  intros (_ & Ht1 & Hk1 & He1 & Ho1 & Hn1 & Hr1)
         (Hf2 & Ht2 & Hk2 & He2 & Ho2 & Hn2 & Hr2).
  split; [done|]. split; [by rewrite relayed_app, <- Ht1|].
  split; [congruence|]. split; [congruence|].
  split; [by intros id Hid; rewrite Ho2, Ho1|].
  split; [by intros H; apply Hn2, Hn1|].
  intros row Hrow. destruct (Hr1 row Hrow) as (row1 & Hrow1 & Hs1 & Hk1').
  destruct (Hr2 row1 Hrow1) as (row2 & Hrow2 & Hs2 & Hk2').
  exists row2. split; [done|]. split.
  - by rewrite session_field_app, <- Hs1.
  - intros k Hk. by rewrite Hk2', Hk1'.
Qed.

(** One event that does not stop the loop. *)
Lemma relay_step tid (e : dict) rest sid w :
  faults w = [] → passes e = true →
  ∃ w1, relay E tid (e :: rest) sid w
        = relay E tid rest (captured [e] sid) w1 ∧
        relay_frame tid [e] w w1.
Proof.
  intros Hf Hp. unfold passes, in_strs in Hp. cbn [existsb] in Hp.
  apply negb_true_iff in Hp.
  apply orb_false_iff in Hp as [He Hp].
  apply orb_false_iff in Hp as [Hr Hp].
  apply orb_false_iff in Hp as [Ha _].
  cbn [relay]. rewrite He, Hr, Ha.
  unfold captured, session_field. cbn [foldl].
  destruct (eq_str (get e "type") "session_start") eqn:Hs.
  - rewrite bind_assoc.
    destruct (tasks (db w) !! tid) as [row|] eqn:Hrow.
    + erewrite bind_ok; [|by apply (db_update_some Tasks _ _ _ row)].
      rewrite bind_ret. unfold emit. rewrite bind_modify.
      eexists. split; [reflexivity|].
      split; [done|]. split; [done|]. split; [done|]. split; [done|].
      wsimpl.
      split; [by intros id Hid; rewrite lookup_insert_ne|].
      split; [by rewrite Hrow|].
      intros row0 Hrow0. rewrite Hrow in Hrow0. injection Hrow0 as <-.
      eexists. split; [apply lookup_insert_eq|].
      unfold session_field. cbn [foldl]. rewrite Hs. split.
      * apply lookup_union_Some_l, lookup_singleton_eq.
      * intros k Hk. apply lookup_union_r. by rewrite lookup_singleton_ne.
    + erewrite bind_ok; [|by apply (db_update_none Tasks)].
      rewrite bind_ret. unfold emit. rewrite bind_modify.
      eexists. split; [reflexivity|].
      split; [done|]. split; [done|]. split; [done|]. split; [done|].
      wsimpl. split; [done|]. split; [done|]. by rewrite Hrow.
  - rewrite bind_ret. unfold emit. rewrite bind_modify.
    eexists. split; [reflexivity|].
    split; [done|]. split; [done|]. split; [done|]. split; [done|].
    wsimpl. split; [done|]. split; [done|].
    intros row Hrow. exists row. split; [done|].
    unfold session_field. cbn [foldl]. by rewrite Hs.
Qed.

(** The events that do not stop the loop are relayed one after the
    other. *)
Lemma relay_passes tid (pre rest : list dict) sid w :
  faults w = [] → Forall (λ e, passes e = true) pre →
  ∃ w1, relay E tid (pre ++ rest) sid w
        = relay E tid rest (captured pre sid) w1 ∧
        relay_frame tid pre w w1.
Proof.
  intros Hf Hp. revert sid w Hf.
  induction Hp as [|e pre He _ IH]; intros sid w Hf.
  - exists w. split; [done|by apply relay_frame_refl].
  - destruct (relay_step tid e (pre ++ rest) sid w Hf He) as (w1 & R1 & F1).
    destruct (IH (captured [e] sid) w1 (proj1 F1)) as (w2 & R2 & F2).
    exists w2. split.
    + rewrite <- app_comm_cons, R1, R2.
      by rewrite (captured_app [e] pre).
    + by apply (relay_frame_trans tid [e] pre w w1 w2).
Qed.

Lemma mark_run tid (fields : string → dict) w :
  faults w = [] →
  mark E tid fields w =
    (Ok tt,
     match tasks (db w) !! tid with
     | Some row =>
         set_db (λ s, t_set Tasks
                        (<[tid := fields (now_isoformat E (tick w)) ∪ row]>
                           (tasks s)) s)
                (set_tick (S (tick w)) w)
     | None => set_tick (S (tick w)) w
     end).
Proof.
  intros Hf. unfold mark. rewrite bind_next_tick.
  destruct (tasks (db w) !! tid) as [row|] eqn:Hrow.
  - erewrite bind_ok; [|by apply (db_update_some Tasks _ _ _ row)].
    reflexivity.
  - erewrite bind_ok; [|by apply (db_update_none Tasks)]. reflexivity.
Qed.

Lemma conclude_ext tid (m m' : M run_state) w w' :
  m w = m' w' → conclude E exn_str tid m w = conclude E exn_str tid m' w'.
Proof. intros H. unfold conclude. by rewrite H. Qed.

Lemma running_fields_status now :
  running_fields now !! "status" = Some (PStr "running").
Proof. apply lookup_insert_eq. Qed.

Lemma running_fields_other now k :
  k ≠ "status" → k ≠ "started_at" → running_fields now !! k = None.
Proof.
  intros H1 H2. unfold running_fields.
  by rewrite lookup_insert_ne, lookup_singleton_ne.
Qed.

Lemma completed_fields_status now :
  completed_fields now !! "status" = Some (PStr "completed").
Proof. apply lookup_insert_eq. Qed.

Lemma completed_fields_other now k :
  k ≠ "status" → k ≠ "completed_at" → completed_fields now !! k = None.
Proof.
  intros H1 H2. unfold completed_fields.
  by rewrite lookup_insert_ne, lookup_singleton_ne.
Qed.

Lemma failed_fields_status now err :
  failed_fields now err !! "status" = Some (PStr "failed").
Proof. apply lookup_insert_eq. Qed.

Lemma failed_fields_error now err :
  failed_fields now err !! "error" = Some err.
Proof.
  unfold failed_fields. do 2 rewrite lookup_insert_ne by done.
  apply lookup_singleton_eq.
Qed.

Lemma failed_fields_other now err k :
  k ≠ "status" → k ≠ "completed_at" → k ≠ "error" →
  failed_fields now err !! k = None.
Proof.
  intros H1 H2 H3. unfold failed_fields.
  by rewrite !lookup_insert_ne, lookup_singleton_ne.
Qed.

Lemma run_task_prefix (a : run_task_args) (w : world)
    (pre rest : list dict) (failure : option exn) :
  faults w = [] →
  run_conversation E (S (tick w)) (first_call a) = (pre ++ rest, failure) →
  Forall (λ e, passes e = true) pre →
  ∃ w5,
    _run_task E exn_str a w =
      conclude E exn_str (rt_task_id a)
        (exit ← relay E (rt_task_id a) rest (captured pre PNone);
         leave E a failure exit) w5 ∧
    mid_run (rt_task_id a) (first_call a) pre w w5.
Proof.
  intros Hf Hrun Hpre. set (tid := rt_task_id a).
  unfold _run_task. fold tid.
  set (w4 := add_engine_call (first_call a)
               (set_tick (S (S (tick w)))
                  (set_tm (_emit_event tid (status_event "running"))
                     (mark E tid running_fields w).2))).
  assert (faults w4 = []) as Hf4.
  { unfold w4. rewrite mark_run by done. wsimpl.
    by destruct (tasks (db w) !! tid). }
  destruct (relay_passes tid pre rest PNone w4 Hf4 Hpre) as (w5 & R5 & F5).
  exists w5. split.
  - apply conclude_ext.
    rewrite (bind_ok _ _ _ _ _ (mark_run tid running_fields w Hf)).
    unfold emit at 1. rewrite bind_modify, bind_next_tick, bind_modify.
    assert (tick (set_tm (_emit_event tid (status_event "running"))
                    match tasks (db w) !! tid with
                    | Some row =>
                        set_db (λ s, t_set Tasks
                                  (<[tid := running_fields
                                              (now_isoformat E (tick w)) ∪ row]>
                                     (tasks s)) s)
                          (set_tick (S (tick w)) w)
                    | None => set_tick (S (tick w)) w
                    end) = S (tick w)) as Ht
      by (by destruct (tasks (db w) !! tid)).
    rewrite Ht, Hrun. cbv iota beta.
    unfold w4 in R5. rewrite mark_run in R5 by done. cbn [snd] in R5.
    unfold mbind at 1, M_bind at 1. rewrite R5. reflexivity.
  - destruct F5 as (Hf5 & Ht5 & Hk5 & He5 & Ho5 & Hn5 & Hr5).
    unfold mid_run.
    unfold w4 in Ht5, Hk5, He5, Ho5, Hn5, Hr5.
    rewrite mark_run in Ht5, Hk5, He5, Ho5, Hn5, Hr5 by done.
    cbn [snd] in Ht5, Hk5, He5, Ho5, Hn5, Hr5.
    destruct (tasks (db w) !! tid) as [row|] eqn:Hrow;
      wsimpl in Ht5; wsimpl in Hk5; wsimpl in He5; wsimpl in Ho5;
      wsimpl in Hn5; wsimpl in Hr5.
    + split; [done|]. split; [by rewrite relayed_cons|].
      split; [done|]. split; [done|].
      split.
      { intros id Hid. rewrite Ho5 by done. by rewrite lookup_insert_ne. }
      split; [done|].
      intros row0 [= <-].
      destruct (Hr5 _ (lookup_insert_eq _ _ _)) as (row5 & Hrow5 & Hs5 & Hk5').
      exists row5. split; [done|]. split.
      { rewrite Hk5' by done.
        apply lookup_union_Some_l, running_fields_status. }
      split.
      { rewrite Hs5. f_equal. apply lookup_union_r.
        by apply running_fields_other. }
      intros k H1 H2 H3. rewrite Hk5' by done.
      apply lookup_union_r. by apply running_fields_other.
    + split; [done|]. split; [by rewrite relayed_cons|].
      split; [done|]. split; [done|]. split; [done|].
      split; [by intros _; apply Hn5|]. done.
Qed.

Lemma conclude_done tid (m : M run_state) w w' :
  m w = (Ok Done, w') →
  conclude E exn_str tid m w = (Ok Done, set_tm (forget_running tid) w').
Proof. intros H. unfold conclude. by rewrite H. Qed.

Lemma conclude_waiting tid (m : M run_state) w sid w' :
  m w = (Ok (Waiting sid), w') →
  conclude E exn_str tid m w = (Ok (Waiting sid), w').
Proof. intros H. unfold conclude. by rewrite H. Qed.

Lemma conclude_raise tid (m : M run_state) w e w' :
  m w = (Raise e, w') → faults w' = [] →
  conclude E exn_str tid m w =
    (Ok Done,
     set_tm (forget_running tid)
       (set_tm (_emit_event tid (error_event (exn_str e)))
          (mark E tid (λ now, failed_fields now (PStr (exn_str e))) w').2)).
Proof.
  intros H Hf. unfold conclude. rewrite H.
  rewrite (bind_ok _ _ _ _ _
             (mark_run tid (λ now, failed_fields now (PStr (exn_str e))) w' Hf)).
  rewrite mark_run by done. reflexivity.
Qed.

Lemma terminal_type (v : pyval) :
  in_strs v ["result"; "error"] = true →
  v = PStr "result" ∨ v = PStr "error".
Proof.
  unfold in_strs. cbn [existsb]. destruct v; try done. cbn [eq_str].
  intros H. apply orb_true_iff in H as [H|H].
  - left. apply bool_decide_eq_true in H. by subst.
  - apply orb_true_iff in H as [H|H]; [|done].
    right. apply bool_decide_eq_true in H. by subst.
Qed.

(** The event that stops the loop: it is emitted, the final status is
    written, the rest of the stream is left unread. *)
Lemma relay_terminal tid (e : dict) rest sid w :
  faults w = [] → in_strs (get e "type") ["result"; "error"] = true →
  relay E tid (e :: rest) sid w =
    (Ok Returned,
     (mark E tid (if eq_str (get e "type") "error"
                  then (λ now, failed_fields now (get e "error"))
                  else completed_fields)
        (set_tm (_emit_event tid e) w)).2).
Proof.
  intros Hf Ht. cbn [relay].
  destruct (terminal_type _ Ht) as [Hty|Hty]; rewrite Hty; cbn [eq_str];
    rewrite ?(bool_decide_eq_false_2 ("result" = "session_start")),
            ?(bool_decide_eq_false_2 ("error" = "session_start")),
            ?(bool_decide_eq_false_2 ("result" = "error")),
            ?(bool_decide_eq_true_2 ("error" = "error")),
            ?(bool_decide_eq_true_2 ("result" = "result")) by done;
    rewrite bind_ret; unfold emit; rewrite bind_modify;
    (erewrite bind_ok; [|by apply mark_run]);
    rewrite mark_run by done; reflexivity.
Qed.

Lemma relayed_message_queues tid (evs : list dict) t :
  _message_queues (relayed tid evs t) = _message_queues t ∧
  _running_tasks (relayed tid evs t) = _running_tasks t.
Proof.
  revert t. induction evs as [|e evs IH]; intros t; [done|].
  rewrite relayed_cons. destruct (IH (_emit_event tid e t)) as [-> ->].
  unfold _emit_event.
  set (t1 := match _event_buffers t !! tid with
             | Some buf => _ | None => _ end).
  assert (_message_queues t1 = _message_queues t ∧
          _running_tasks t1 = _running_tasks t) as [H1 H2]
    by (unfold t1; by destruct (_event_buffers t !! tid)).
  destruct (_subscribers t1 !! tid) as [qs|]; [|done].
  destruct (queue_puts_frame qs e t1) as (_ & _ & -> & ->). done.
Qed.

(** [_run_task] stops at the first [result] or [error] event of the
    engine: with a store that answers, the task's status event and the
    events of the stream up to that one are emitted in order, the events
    after it are not; the task's record ends as [completed], or as [failed]
    with the error of the event; it holds the session id of the last
    [session_start]; and the task is no longer among the running ones. *)
Theorem run_task_stops_at_terminal_event (a : run_task_args) (w : world)
    (row : dict) (pre post : list dict) (last : dict)
    (failure : option exn) :
  faults w = [] → tasks (db w) !! rt_task_id a = Some row →
  run_conversation E (S (tick w)) (first_call a)
    = (pre ++ last :: post, failure) →
  Forall (λ e, passes e = true) pre →
  in_strs (get last "type") ["result"; "error"] = true →
  ∃ w' row',
    _run_task E exn_str a w = (Ok Done, w') ∧
    tm w' = forget_running (rt_task_id a)
              (relayed (rt_task_id a)
                 (status_event "running" :: pre ++ [last]) (tm w)) ∧
    engine_log w' = engine_log w ++ [first_call a] ∧
    tasks (db w') !! rt_task_id a = Some row' ∧
    row' !! "status"
      = Some (PStr (if eq_str (get last "type") "error"
                    then "failed" else "completed")) ∧
    (eq_str (get last "type") "error" = true →
     row' !! "error" = Some (get last "error")) ∧
    row' !! "session_id" = session_field pre (row !! "session_id") ∧
    (∀ id, id ≠ rt_task_id a →
           tasks (db w') !! id = tasks (db w) !! id).
Proof.
  intros Hf Hrow Hrun Hpre Hlast. set (tid := rt_task_id a) in *.
  destruct (run_task_prefix a w pre (last :: post) failure Hf Hrun Hpre)
    as (w5 & Hr & Hf5 & Ht5 & Hk5 & He5 & Ho5 & _ & Hr5).
  fold tid in Hr, Ht5, Ho5, Hr5.
  destruct (Hr5 row Hrow) as (row5 & Hrow5 & Hst5 & Hs5 & Hk5').
  rewrite Hr. clear Hr.
  erewrite conclude_done;
    [|rewrite (bind_ok _ _ _ _ _
                 (relay_terminal tid last post _ w5 Hf5 Hlast));
      reflexivity].
  rewrite mark_run by done. wsimpl. rewrite Hrow5.
  eexists _, _. split; [reflexivity|]. wsimpl.
  split.
  { rewrite Ht5. by rewrite app_comm_cons, relayed_snoc. }
  split; [done|]. split; [apply lookup_insert_eq|].
  destruct (eq_str (get last "type") "error") eqn:Herr.
  - split; [apply lookup_union_Some_l, failed_fields_status|].
    split; [intros _; apply lookup_union_Some_l, failed_fields_error|].
    split.
    + rewrite <- Hs5. apply lookup_union_r. by apply failed_fields_other.
    + intros id Hid. rewrite lookup_insert_ne by done. by apply Ho5.
  - split; [apply lookup_union_Some_l, completed_fields_status|].
    split; [done|]. split.
    + rewrite <- Hs5. apply lookup_union_r. by apply completed_fields_other.
    + intros id Hid. rewrite lookup_insert_ne by done. by apply Ho5.
Qed.

(** When the stream of the engine ends without a [result] or an [error]
    event and without an exception, [_run_task] ends too: every event was
    emitted, the task is no longer among the running ones, and its record
    still says [running]. *)
Theorem run_task_stream_without_end (a : run_task_args) (w : world)
    (row : dict) (pre : list dict) :
  faults w = [] → tasks (db w) !! rt_task_id a = Some row →
  run_conversation E (S (tick w)) (first_call a) = (pre, None) →
  Forall (λ e, passes e = true) pre →
  ∃ w' row',
    _run_task E exn_str a w = (Ok Done, w') ∧
    tm w' = forget_running (rt_task_id a)
              (relayed (rt_task_id a) (status_event "running" :: pre)
                 (tm w)) ∧
    (rt_task_id a ∉ _running_tasks (tm w')) ∧
    _message_queues (tm w') = _message_queues (tm w) ∧
    tasks (db w') !! rt_task_id a = Some row' ∧
    row' !! "status" = Some (PStr "running").
Proof.
  intros Hf Hrow Hrun Hpre. set (tid := rt_task_id a) in *.
  rewrite <- (app_nil_r pre) in Hrun.
  destruct (run_task_prefix a w pre [] None Hf Hrun Hpre)
    as (w5 & Hr & Hf5 & Ht5 & Hk5 & He5 & Ho5 & _ & Hr5).
  fold tid in Hr, Ht5, Ho5, Hr5.
  destruct (Hr5 row Hrow) as (row5 & Hrow5 & Hst5 & Hs5 & Hk5').
  rewrite Hr. clear Hr.
  erewrite conclude_done; [|reflexivity].
  eexists _, row5. split; [reflexivity|]. wsimpl.
  split; [by rewrite Ht5|]. split; [cbn; set_solver|].
  split; [|done]. cbn [forget_running _message_queues].
  rewrite Ht5. apply relayed_message_queues.
Qed.

(** When the engine raises, [_run_task] records the failure: the events
    that came before are emitted, then an [error] event with the text of
    the exception; the task's record ends as [failed] with that text; the
    task is no longer among the running ones. *)
Theorem run_task_engine_failure (a : run_task_args) (w : world)
    (row : dict) (pre : list dict) (e : exn) :
  faults w = [] → tasks (db w) !! rt_task_id a = Some row →
  run_conversation E (S (tick w)) (first_call a) = (pre, Some e) →
  Forall (λ e, passes e = true) pre →
  ∃ w' row',
    _run_task E exn_str a w = (Ok Done, w') ∧
    tm w' = forget_running (rt_task_id a)
              (relayed (rt_task_id a)
                 (status_event "running" :: pre
                    ++ [error_event (exn_str e)]) (tm w)) ∧
    tasks (db w') !! rt_task_id a = Some row' ∧
    row' !! "status" = Some (PStr "failed") ∧
    row' !! "error" = Some (PStr (exn_str e)).
Proof.
  intros Hf Hrow Hrun Hpre. set (tid := rt_task_id a) in *.
  rewrite <- (app_nil_r pre) in Hrun.
  destruct (run_task_prefix a w pre [] (Some e) Hf Hrun Hpre)
    as (w5 & Hr & Hf5 & Ht5 & Hk5 & He5 & Ho5 & _ & Hr5).
  fold tid in Hr, Ht5, Ho5, Hr5.
  destruct (Hr5 row Hrow) as (row5 & Hrow5 & Hst5 & Hs5 & Hk5').
  rewrite Hr. clear Hr.
  erewrite conclude_raise; [|reflexivity|done].
  rewrite mark_run by done. rewrite Hrow5. wsimpl.
  eexists _, _. split; [reflexivity|]. wsimpl.
  split; [by rewrite Ht5, app_comm_cons, relayed_snoc|].
  split; [apply lookup_insert_eq|].
  split; [apply lookup_union_Some_l, failed_fields_status|].
  apply lookup_union_Some_l, failed_fields_error.
Qed.

(** At an [ask_user_question] event [_run_task] stops reading the stream
    and waits for a message: the question is emitted, the events after it
    are not; the task stays among the running ones and its record says
    [running]; the session id it will resume is that of the last
    [session_start]. *)
Theorem run_task_waits_on_question (a : run_task_args) (w : world)
    (row : dict) (pre post : list dict) (ask : dict)
    (failure : option exn) :
  faults w = [] → tasks (db w) !! rt_task_id a = Some row →
  _message_queues (tm w) !! rt_task_id a = Some [] →
  run_conversation E (S (tick w)) (first_call a)
    = (pre ++ ask :: post, failure) →
  Forall (λ e, passes e = true) pre →
  get ask "type" = PStr "ask_user_question" →
  ∃ w' row',
    _run_task E exn_str a w = (Ok (Waiting (captured pre PNone)), w') ∧
    tm w' = relayed (rt_task_id a)
              (status_event "running" :: pre ++ [ask]) (tm w) ∧
    _running_tasks (tm w') = _running_tasks (tm w) ∧
    faults w' = [] ∧
    tasks (db w') !! rt_task_id a = Some row' ∧
    row' !! "status" = Some (PStr "running").
Proof.
  intros Hf Hrow Hq Hrun Hpre Hask. set (tid := rt_task_id a) in *.
  destruct (run_task_prefix a w pre (ask :: post) failure Hf Hrun Hpre)
    as (w5 & Hr & Hf5 & Ht5 & Hk5 & He5 & Ho5 & _ & Hr5).
  fold tid in Hr, Ht5, Ho5, Hr5.
  destruct (Hr5 row Hrow) as (row5 & Hrow5 & Hst5 & Hs5 & Hk5').
  rewrite Hr. clear Hr.
  assert (tm (set_tm (_emit_event tid ask) w5)
          = relayed tid (status_event "running" :: pre ++ [ask]) (tm w))
    as Htm by (wsimpl; by rewrite Ht5, app_comm_cons, relayed_snoc).
  erewrite conclude_waiting.
  2:{ cbn [relay]. rewrite Hask. cbn [eq_str].
      rewrite (bool_decide_eq_false_2 ("ask_user_question" = "session_start")),
              (bool_decide_eq_false_2 ("ask_user_question" = "error")),
              (bool_decide_eq_false_2 ("ask_user_question" = "result")),
              (bool_decide_eq_true_2 ("ask_user_question" = "ask_user_question"))
        by done.
      cbv iota.
      rewrite bind_assoc, bind_ret, bind_assoc. unfold emit.
      rewrite bind_modify, bind_ret.
      unfold leave, _handle_pending_interaction. fold tid.
      rewrite bind_get, Htm.
      rewrite (proj1 (relayed_message_queues tid _ (tm w))), Hq.
      reflexivity. }
  eexists _, row5. split; [reflexivity|].
  split; [done|]. split.
  { rewrite Htm. apply relayed_message_queues. }
  done.
Qed.

(** *** Messages to a task *)

Lemma non_empty_row (row : dict) k v :
  row !! k = Some v → Gateway.non_empty (Some row) = Some row.
Proof.
  intros H. unfold Gateway.non_empty.
  destruct (decide (row = ∅)) as [->|Hne]; [by rewrite lookup_empty in H|].
  cbn. by rewrite bool_decide_eq_false_2.
Qed.

(** [send_message] queues a message for a task exactly when the manager
    holds a message queue for it and its record says [running]: it then
    returns [True] and the message is last in the queue; otherwise it
    returns [False] and changes nothing. *)
Theorem send_message_when_running (tid : string) (message content : pyval)
    (w : world) :
  faults w = [] →
  let r := send_message tid message content w in
  (_message_queues (tm w) !! tid = None → r = (Ok false, w)) ∧
  (∀ q, _message_queues (tm w) !! tid = Some q →
     Gateway.non_empty (tasks (db w) !! tid) = None → r = (Ok false, w)) ∧
  (∀ q row, _message_queues (tm w) !! tid = Some q →
     Gateway.non_empty (tasks (db w) !! tid) = Some row →
     if eq_str (get row "status") "running"
     then r.1 = Ok true ∧
          _message_queues (tm r.2)
            = <[tid := q ++ [ ({[ "message" := message;
                                  "content" := content ]} : dict) ]]>
                (_message_queues (tm w)) ∧
          db r.2 = db w ∧
          _event_buffers (tm r.2) = _event_buffers (tm w) ∧
          _running_tasks (tm r.2) = _running_tasks (tm w)
     else r = (Ok false, w)).
Proof.
  intros Hf r. subst r. unfold send_message. rewrite bind_get.
  split; [by intros ->|]. split.
  - intros q Hq Hne. rewrite Hq.
    erewrite bind_ok; [|by apply db_get_reliable]. wsimpl. by rewrite Hne.
  - intros q row Hq Hrow. rewrite Hq.
    erewrite bind_ok; [|by apply db_get_reliable]. wsimpl. rewrite Hrow.
    destruct (eq_str (get row "status") "running"); cbn [negb]; [|done].
    rewrite bind_get, Hq, bind_modify. unfold mret, M_ret.
    cbn [fst snd]. wsimpl.
    split; [done|]. split; [|done].
    cbn [_message_queues]. apply map_eq. intros k.
    destruct (decide (k = tid)) as [->|Hk].
    + by rewrite lookup_alter_eq, lookup_insert_eq, Hq.
    + by rewrite lookup_alter_ne, lookup_insert_ne.
Qed.

Lemma item_Some (d : dict) k v : d !! k = Some v → item d k = Ok v.
Proof. intros H. unfold item. by rewrite H. Qed.

Lemma relay_answer_passes tid (pre rest : list dict) (b : bool) w :
  Forall (λ e, in_strs (get e "type") ["error"; "result"] = false) pre →
  ∃ w1 b',
    relay_answer E tid (pre ++ rest) b w = relay_answer E tid rest b' w1 ∧
    tm w1 = relayed tid pre (tm w) ∧ db w1 = db w ∧
    faults w1 = faults w ∧ tick w1 = tick w ∧ engine_log w1 = engine_log w.
Proof.
  intros Hpre. revert b w. induction Hpre as [|e pre He _ IH]; intros b w.
  - by exists w, b.
  - unfold in_strs in He. cbn [existsb] in He.
    apply orb_false_iff in He as [He Hr].
    apply orb_false_iff in Hr as [Hr _].
    rewrite <- app_comm_cons. cbn [relay_answer]. rewrite He, Hr.
    unfold emit. rewrite bind_modify.
    destruct (IH (if eq_str (get e "type") "ask_user_question"
                  then true else b)
                 (set_tm (_emit_event tid e) w))
      as (w1 & b' & R & Ht & Hd & Hf & Hk & Hl).
    exists w1, b'. split; [exact R|]. by rewrite relayed_cons.
Qed.

Lemma relay_answer_terminal tid (e : dict) rest (b : bool) w :
  faults w = [] → in_strs (get e "type") ["result"; "error"] = true →
  relay_answer E tid (e :: rest) b w =
    (Ok None,
     (mark E tid (if eq_str (get e "type") "error"
                  then (λ now, failed_fields now (get e "error"))
                  else completed_fields)
        (set_tm (_emit_event tid e) w)).2).
Proof.
  intros Hf Ht. cbn [relay_answer].
  destruct (terminal_type _ Ht) as [Hty|Hty]; rewrite Hty; cbn [eq_str];
    rewrite ?(bool_decide_eq_false_2 ("result" = "error")),
            ?(bool_decide_eq_true_2 ("error" = "error")),
            ?(bool_decide_eq_true_2 ("result" = "result")) by done;
    cbv iota; unfold emit; rewrite bind_modify;
    (erewrite bind_ok; [|by apply mark_run]);
    rewrite mark_run by done; reflexivity.
Qed.

(** A message that reaches a waiting task continues the conversation the
    task had: the engine is called with the session id captured before the
    question, with the message, and with the agent of the task's record;
    its events are emitted up to the first [result] or [error] event, which
    ends the task as [completed] or [failed]. *)
Theorem resume_continues_session (a : run_task_args) (sid : pyval)
    (w : world) (msg : dict) (later : list dict) (row : dict)
    (agent : pyval) (pre post : list dict) (last : dict)
    (failure : option exn) :
  faults w = [] →
  _message_queues (tm w) !! rt_task_id a = Some (msg :: later) →
  tasks (db w) !! rt_task_id a = Some row →
  row !! "agent_id" = Some agent →
  let call :=
    mkCall agent (get msg "message") (get msg "content") sid
      (rt_enable_skills a) (rt_enable_mcp a)
      (if truthy (get row "work_dir") then PList [get row "work_dir"]
       else PNone) None in
  run_conversation E (tick w) call = (pre ++ last :: post, failure) →
  Forall (λ e, in_strs (get e "type") ["error"; "result"] = false) pre →
  in_strs (get last "type") ["result"; "error"] = true →
  ∃ w' row',
    resume E exn_str a sid w = (Ok Done, w') ∧
    engine_log w' = engine_log w ++ [call] ∧
    tm w' = forget_running (rt_task_id a)
              (relayed (rt_task_id a) (pre ++ [last])
                 (pop_message (rt_task_id a) (tm w))) ∧
    tasks (db w') !! rt_task_id a = Some row' ∧
    row' !! "status"
      = Some (PStr (if eq_str (get last "type") "error"
                    then "failed" else "completed")).
Proof.
  intros Hf Hq Hrow Hagent call Hrun Hpre Hlast.
  set (tid := rt_task_id a) in *. unfold resume. fold tid.
  set (w1 := set_tm (pop_message tid) w).
  set (w2 := add_engine_call call (set_tick (S (tick w)) w1)).
  destruct (relay_answer_passes tid pre (last :: post) false w2 Hpre)
    as (w3 & b' & R3 & Ht3 & Hd3 & Hf3 & Hk3 & Hl3).
  assert (faults w3 = []) as Hf3' by (by rewrite Hf3).
  erewrite conclude_done.
  2:{ rewrite bind_get, Hq. cbn [default id pause_loop].
      rewrite bind_modify. fold w1.
      erewrite bind_ok; [|by apply db_get_reliable].
      change (t_get Tasks (db w1) !! tid) with (tasks (db w) !! tid).
      rewrite Hrow, (non_empty_row row _ _ Hagent).
      rewrite (item_Some _ _ _ Hagent), bind_lift_ok.
      assert ((if truthy (get row "work_dir")
               then work_dir ← lift (item row "work_dir");
                    mret (PList [work_dir])
               else mret PNone : M pyval) =
              mret (if truthy (get row "work_dir")
                    then PList [get row "work_dir"] else PNone)) as ->.
      { unfold get, item. destruct (row !! "work_dir") as [v|]; [|done].
        cbn [default id]. destruct (truthy v); reflexivity. }
      rewrite bind_ret, bind_next_tick, bind_modify.
      change (tick w1) with (tick w). fold call. rewrite Hrun.
      cbv iota beta. fold w2.
      unfold mbind at 1, M_bind at 1. rewrite R3.
      rewrite (relay_answer_terminal tid last post b' w3 Hf3' Hlast).
      reflexivity. }
  rewrite mark_run by done. wsimpl.
  assert (tasks (db w3) !! tid = Some row) as Hrow3 by (by rewrite Hd3).
  rewrite Hrow3.
  eexists _, _. split; [reflexivity|]. wsimpl.
  split; [by rewrite Hl3|].
  split; [by rewrite Ht3, relayed_snoc|].
  split; [apply lookup_insert_eq|].
  destruct (eq_str (get last "type") "error").
  - apply lookup_union_Some_l, failed_fields_status.
  - apply lookup_union_Some_l, completed_fields_status.
Qed.

End TaskRunning.

Section TaskRuns.
Import Runtime TaskManager TaskRun RunExamples.

Lemma pre_passes : Forall (λ e, passes e = true) [started; spoken].
Proof. repeat constructor. Qed.

Lemma run_task_stops_at_terminal_event_witness :
  ∃ w' row',
    _run_task demo_env demo_str (demo_args "hi") demo_world = (Ok Done, w') ∧
    tasks (db w') !! "t" = Some row' ∧
    row' !! "status" = Some (PStr "completed") ∧
    row' !! "session_id" = Some (PStr "s1").
Proof.
  destruct (run_task_stops_at_terminal_event demo_env demo_str
              (demo_args "hi") demo_world demo_row [started; spoken] [spoken]
              TaskExamples.result_event None eq_refl eq_refl eq_refl
              pre_passes eq_refl)
    as (w' & row' & H1 & _ & _ & H2 & H3 & _ & H4 & _).
  exists w', row'. split; [exact H1|]. split; [exact H2|].
  split; [exact H3|exact H4].
Defined.

Lemma run_task_stream_without_end_witness :
  ∃ w' row',
    _run_task demo_env demo_str (demo_args "dry") demo_world = (Ok Done, w') ∧
    ("t" ∉ _running_tasks (tm w')) ∧
    tasks (db w') !! "t" = Some row' ∧
    row' !! "status" = Some (PStr "running").
Proof.
  destruct (run_task_stream_without_end demo_env demo_str
              (demo_args "dry") demo_world demo_row [spoken]
              eq_refl eq_refl eq_refl ltac:(repeat constructor))
    as (w' & row' & H1 & _ & H2 & _ & H3 & H4).
  exists w', row'. split; [exact H1|]. split; [exact H2|].
  split; [exact H3|exact H4].
Defined.

Lemma run_task_engine_failure_witness :
  ∃ w' row',
    _run_task demo_env demo_str (demo_args "crash") demo_world
      = (Ok Done, w') ∧
    tasks (db w') !! "t" = Some row' ∧
    row' !! "status" = Some (PStr "failed") ∧
    row' !! "error" = Some (PStr "engine failure").
Proof.
  destruct (run_task_engine_failure demo_env demo_str
              (demo_args "crash") demo_world demo_row [spoken] EngineError
              eq_refl eq_refl eq_refl ltac:(repeat constructor))
    as (w' & row' & H1 & _ & H2 & H3 & H4).
  exists w', row'. split; [exact H1|]. split; [exact H2|].
  split; [exact H3|exact H4].
Defined.

Lemma run_task_waits_on_question_witness :
  ∃ w',
    _run_task demo_env demo_str (demo_args "ask") demo_world
      = (Ok (Waiting (PStr "s1")), w') ∧
    _running_tasks (tm w') = _running_tasks (tm demo_world).
Proof.
  destruct (run_task_waits_on_question demo_env demo_str
              (demo_args "ask") demo_world demo_row [started] [spoken] asked
              None eq_refl eq_refl eq_refl eq_refl
              ltac:(repeat constructor) eq_refl)
    as (w' & row' & H1 & _ & H2 & _).
  exists w'. split; [exact H1|exact H2].
Defined.

Lemma send_message_when_running_witness :
  (send_message "t" (PStr "the first") PNone waiting_world).1 = Ok true ∧
  (send_message "t" (PStr "the first") PNone demo_world).1 = Ok false.
Proof.
  split.
  - destruct (send_message_when_running "t" (PStr "the first") PNone
                waiting_world ltac:(vm_compute; reflexivity))
      as (_ & _ & H).
    specialize (H [] waiting_row
                  ltac:(vm_compute; reflexivity)
                  ltac:(vm_compute; reflexivity)).
    exact (proj1 H).
  - destruct (send_message_when_running "t" (PStr "the first") PNone
                demo_world eq_refl)
      as (_ & _ & H).
    specialize (H [] demo_row eq_refl eq_refl).
    exact (f_equal fst H).
Defined.

Lemma resume_continues_session_witness :
  ∃ w' row',
    resume demo_env demo_str (demo_args "ask") (PStr "s1") answered_world
      = (Ok Done, w') ∧
    ec_session_id <$> last (engine_log w') = Some (PStr "s1") ∧
    tasks (db w') !! "t" = Some row' ∧
    row' !! "status" = Some (PStr "completed").
Proof.
  destruct (resume_continues_session demo_env demo_str (demo_args "ask")
              (PStr "s1") answered_world
              {[ "message" := PStr "the first"; "content" := PNone ]} []
              waiting_row (PStr "a1") [started; spoken] [spoken]
              TaskExamples.result_event None)
    as (w' & row' & H1 & H2 & _ & H3 & H4).
  - vm_compute. reflexivity.
  - vm_compute. reflexivity.
  - vm_compute. reflexivity.
  - vm_compute. reflexivity.
  - vm_compute. reflexivity.
  - repeat constructor.
  - reflexivity.
  - exists w', row'. split; [exact H1|]. split; [|split; [exact H3|exact H4]].
    rewrite H2. by rewrite last_snoc.
Defined.

End TaskRuns.

(** ** Creating a task *)

Section CreateTaskOk.
Import Runtime TaskManager TaskOps.
Variable E : env.



End CreateTaskOk.

Section CreateTaskRuns.
Import Runtime TaskManager TaskOps TitleExamples.


End CreateTaskRuns.

(** ** The life cycle of a channel *)

Section ChannelLife.
Import Runtime Gateway Lifecycle.
Variable E : env.
Variable registry : gmap string adapter_class.

(** [stop_channel] with a store that answers, whether an adapter runs or
    not and whatever its [stop()] does. *)
Lemma stop_channel_any (w : world) (id : string) :
  faults w = [] →
  stop_channel id w =
    let w1 := set_channel_cache (delete id)
                (set_tasks (delete id) (set_adapters (delete id) w)) in
    (Ok tt,
     match channels (db w) !! id with
     | Some row =>
         set_db (λ s, t_set Channels
                   (<[id := stopped_fields ∪ row]> (channels s)) s) w1
     | None => w1
     end).
Proof.
  intros Hf. destruct (_adapters w !! id) as [a|] eqn:Had;
    [|by apply stop_channel_run].
  unfold stop_channel.
  unfold mbind, M_bind, get_world, modify, mret, M_ret. rewrite Had.
  unfold try_except, lift. destruct (ad_stop a) as [[]|e];
    rewrite db_update_reliable by done; wsimpl;
    by destruct (channels (db w) !! id).
Qed.

Lemma non_empty_union (upd row : dict) k v :
  upd !! k = Some v → non_empty (Some (upd ∪ row)) = Some (upd ∪ row).
Proof.
  intros H. apply (non_empty_row _ k v). by apply lookup_union_Some_l.
Qed.

(** The status of a channel that does not run and is not cached. *)
Lemma status_idle (w : world) (id : string) :
  faults w = [] → _adapters w !! id = None →
  non_empty (_channel_cache w !! id) = None →
  get_channel_status id w =
    (Ok (status_record id
           (match non_empty (channels (db w) !! id) with
            | Some ch => get_or ch "status" (PStr "inactive")
            | None => PStr "inactive"
            end)
           (PInt (session_count id (db w)))
           (match non_empty (channels (db w) !! id) with
            | Some ch => get ch "error_message"
            | None => PNone
            end)), w).
Proof.
  intros Hf Ha Hc. unfold get_channel_status.
  rewrite bind_get, (not_running_false w id Ha). cbv iota.
  rewrite bind_assoc.
  erewrite bind_ok by (by apply db_get_reliable). rewrite bind_ret.
  erewrite bind_ok by (by apply count_try_reliable).
  rewrite bind_get. cbn [negb]. rewrite Hc. rewrite bind_assoc.
  erewrite bind_ok by (by apply db_get_reliable). rewrite !bind_ret.
  reflexivity.
Qed.

(** The status of a channel that runs and is cached. *)
Lemma status_running (w : world) (id : string) (a : adapter)
    (cached : dict) :
  faults w = [] → _adapters w !! id = Some a →
  non_empty (_channel_cache w !! id) = Some cached →
  get_channel_status id w =
    (Ok (status_record id (PStr "active")
           (PInt (session_count id (db w)))
           (get cached "error_message")), w).
Proof.
  intros Hf Ha Hc. unfold get_channel_status.
  rewrite bind_get, Ha.
  rewrite (bool_decide_eq_true_2 (is_Some (Some a))) by eauto. cbv iota.
  rewrite bind_ret.
  erewrite bind_ok by (by apply count_try_reliable).
  rewrite bind_get, Hc, !bind_ret. reflexivity.
Qed.

(** With a store that answers, [stop_channel] on a channel that has a
    record always succeeds, whether an adapter runs or not and even when
    the adapter's [stop()] raises: the channel has no adapter, task or
    cache entry left, the other channels keep theirs, and
    [get_channel_status] then reports [inactive] without error message. *)
Theorem stop_channel_then_status (w : world) (id : string) (row : dict) :
  faults w = [] → channels (db w) !! id = Some row →
  let r := stop_channel id w in
  r.1 = Ok tt ∧
  _adapters r.2 !! id = None ∧ _tasks r.2 !! id = None ∧
  _channel_cache r.2 !! id = None ∧
  (∀ id', id' ≠ id →
     _adapters r.2 !! id' = _adapters w !! id' ∧
     _channel_cache r.2 !! id' = _channel_cache w !! id' ∧
     channels (db r.2) !! id' = channels (db w) !! id') ∧
  ∃ d, get_channel_status id r.2 = (Ok d, r.2) ∧
       d !! "status" = Some (PStr "inactive") ∧
       d !! "error_message" = Some PNone.
Proof.
  intros Hf Hrow r. subst r. rewrite stop_channel_any by done.
  cbv zeta. rewrite Hrow. cbn [fst snd]. wsimpl.
  rewrite !lookup_delete_eq. do 4 (split; [done|]).
  split.
  { intros id' Hne. by rewrite !lookup_delete_ne, lookup_insert_ne. }
  rewrite status_idle;
    [|done|wsimpl; apply lookup_delete_eq
     |wsimpl; by rewrite lookup_delete_eq].
  wsimpl. rewrite lookup_insert_eq.
  rewrite (non_empty_union _ _ _ _ stopped_fields_status).
  eexists. split; [reflexivity|].
  split.
  - rewrite status_record_status. f_equal. unfold get_or.
    by rewrite (lookup_union_Some_l _ _ _ _ stopped_fields_status).
  - rewrite status_record_error. f_equal. unfold get.
    by rewrite (lookup_union_Some_l _ _ _ _ stopped_fields_error_message).
Qed.

Lemma error_fields_status msg :
  error_fields msg !! "status" = Some (PStr "error").
Proof. apply lookup_insert_eq. Qed.

Lemma error_fields_message msg :
  error_fields msg !! "error_message" = Some (PStr msg).
Proof.
  unfold error_fields. rewrite lookup_insert_ne by done.
  apply lookup_singleton_eq.
Qed.

Lemma error_fields_other msg k :
  k ≠ "status" → k ≠ "error_message" → error_fields msg !! k = None.
Proof.
  intros H1 H2. unfold error_fields.
  by rewrite lookup_insert_ne, lookup_singleton_ne.
Qed.

Lemma active_fields_status : active_fields !! "status" = Some (PStr "active").
Proof. apply lookup_insert_eq. Qed.

Lemma active_fields_message : active_fields !! "error_message" = Some PNone.
Proof.
  unfold active_fields. rewrite lookup_insert_ne by done.
  apply lookup_singleton_eq.
Qed.

Lemma non_empty_some (ch : dict) : ch ≠ ∅ → non_empty (Some ch) = Some ch.
Proof. intros H. cbn. by rewrite bool_decide_eq_false_2. Qed.

(** [start_channel] on a channel whose type has no adapter class raises a
    [ValueError] and leaves the gateway as it was: no adapter, no task, no
    cache entry is added.  The channel's record gets the status [error]
    and the text of the exception as its error message; its other fields
    and the other records stay. *)
Theorem start_channel_without_adapter_class (w : world) (id : string)
    (ch : dict) :
  faults w = [] → _adapters w !! id = None →
  channels (db w) !! id = Some ch → ch ≠ ∅ →
  get_adapter_class registry (get_or ch "channel_type" (PStr "")) = Ok None →
  ∃ msg w' row',
    start_channel E registry id w = (Raise (ValueError msg), w') ∧
    _adapters w' = _adapters w ∧ _tasks w' = _tasks w ∧
    _channel_cache w' = _channel_cache w ∧
    channels (db w') !! id = Some row' ∧
    row' !! "status" = Some (PStr "error") ∧
    row' !! "error_message" = Some (PStr msg) ∧
    (∀ k, k ≠ "status" → k ≠ "error_message" → row' !! k = ch !! k) ∧
    (∀ id', id' ≠ id → channels (db w') !! id' = channels (db w) !! id').
Proof.
  intros Hf Ha Hch Hne Hcls. unfold start_channel.
  rewrite bind_get, (not_running_false w id Ha). cbv iota. rewrite bind_ret.
  erewrite bind_ok by (by apply db_get_reliable).
  change (t_get Channels (db w) !! id) with (channels (db w) !! id).
  rewrite Hch, (non_empty_some ch Hne), Hcls, bind_lift_ok.
  erewrite bind_ok by (by apply (db_update_some Channels _ _ _ ch)).
  eexists _, _, _. split; [reflexivity|]. wsimpl.
  do 3 (split; [done|]). split; [apply lookup_insert_eq|].
  split; [apply lookup_union_Some_l, error_fields_status|].
  split; [apply lookup_union_Some_l, error_fields_message|].
  split.
  - intros k H1 H2. apply lookup_union_r. by apply error_fields_other.
  - intros id' Hid. by rewrite lookup_insert_ne.
Qed.

(** A successful [start_channel]: with a store that answers, a channel
    that does not run yet, an adapter class for its type and a
    configuration that the adapter accepts, the adapter is registered with
    its task, the record as it was read is cached, and the record's status
    becomes [active] with no error message.  [get_channel_status] then
    reports [active], with the error message that the record had before
    the start: it reads the cached copy. *)
Theorem start_channel_registers_adapter (w : world) (id : string)
    (ch : dict) (cls : adapter_class) (note : pyval) :
  faults w = [] → _adapters w !! id = None →
  channels (db w) !! id = Some ch → ch ≠ ∅ →
  get_adapter_class registry (get_or ch "channel_type" (PStr ""))
    = Ok (Some cls) →
  let config := parse_config E (get_or ch "config" (PDict ∅)) in
  ac_validate cls id config = Ok (true, note) →
  ∃ w' row' d,
    start_channel E registry id w = (Ok tt, w') ∧
    _adapters w' !! id = Some (ac_instance cls id config) ∧
    _tasks w' !! id = Some false ∧
    _channel_cache w' !! id = Some ch ∧
    channels (db w') !! id = Some row' ∧
    row' !! "status" = Some (PStr "active") ∧
    row' !! "error_message" = Some PNone ∧
    get_channel_status id w' = (Ok d, w') ∧
    d !! "status" = Some (PStr "active") ∧
    d !! "error_message" = Some (get ch "error_message").
Proof.
  intros Hf Ha Hch Hne Hcls config Hval. unfold start_channel.
  rewrite bind_get, (not_running_false w id Ha). cbv iota. rewrite bind_ret.
  erewrite bind_ok by (by apply db_get_reliable).
  change (t_get Channels (db w) !! id) with (channels (db w) !! id).
  rewrite Hch, (non_empty_some ch Hne), Hcls, bind_lift_ok.
  fold config. rewrite Hval, bind_lift_ok. cbn [negb].
  rewrite !bind_modify.
  erewrite bind_ok by (by apply (db_update_some Channels _ _ _ ch)).
  unfold mret, M_ret.
  eexists _, (active_fields ∪ ch), _. split; [reflexivity|]. wsimpl.
  do 4 (split; [apply lookup_insert_eq|]).
  split; [apply lookup_union_Some_l, active_fields_status|].
  split; [apply lookup_union_Some_l, active_fields_message|].
  erewrite status_running;
    [|done|wsimpl; apply lookup_insert_eq
     |wsimpl; by rewrite lookup_insert_eq, (non_empty_some ch Hne)].
  split; [reflexivity|].
  split; [apply status_record_status|apply status_record_error].
Qed.

(** Starting a channel and stopping it at once leaves nothing of it in the
    gateway: no adapter, no task, no cache entry; its record says
    [inactive], without error message, and keeps its other fields. *)
Theorem start_then_stop_channel (w : world) (id : string) (ch : dict)
    (cls : adapter_class) (note : pyval) :
  faults w = [] → _adapters w !! id = None →
  channels (db w) !! id = Some ch → ch ≠ ∅ →
  get_adapter_class registry (get_or ch "channel_type" (PStr ""))
    = Ok (Some cls) →
  ac_validate cls id (parse_config E (get_or ch "config" (PDict ∅)))
    = Ok (true, note) →
  ∃ w1 w2 row2,
    start_channel E registry id w = (Ok tt, w1) ∧
    stop_channel id w1 = (Ok tt, w2) ∧
    _adapters w2 = _adapters w ∧
    _tasks w2 !! id = None ∧ _channel_cache w2 !! id = None ∧
    channels (db w2) !! id = Some row2 ∧
    row2 !! "status" = Some (PStr "inactive") ∧
    row2 !! "error_message" = Some PNone ∧
    (∀ k, k ≠ "status" → k ≠ "error_message" → row2 !! k = ch !! k).
Proof.
  intros Hf Ha Hch Hne Hcls Hval. unfold start_channel.
  rewrite bind_get, (not_running_false w id Ha). cbv iota. rewrite bind_ret.
  erewrite bind_ok by (by apply db_get_reliable).
  change (t_get Channels (db w) !! id) with (channels (db w) !! id).
  rewrite Hch, (non_empty_some ch Hne), Hcls, bind_lift_ok.
  rewrite Hval, bind_lift_ok. cbn [negb].
  rewrite !bind_modify.
  erewrite bind_ok by (by apply (db_update_some Channels _ _ _ ch)).
  unfold mret, M_ret.
  eexists _, _, (stopped_fields ∪ (active_fields ∪ ch)).
  split; [reflexivity|].
  rewrite stop_channel_any by done. cbv zeta. wsimpl.
  rewrite lookup_insert_eq.
  split; [reflexivity|]. wsimpl.
  split.
  { apply delete_insert_id. by rewrite Ha. }
  split; [apply lookup_delete_eq|]. split; [apply lookup_delete_eq|].
  split; [apply lookup_insert_eq|].
  split; [apply lookup_union_Some_l, stopped_fields_status|].
  split; [apply lookup_union_Some_l, stopped_fields_error_message|].
  intros k H1 H2.
  rewrite lookup_union_r by (by apply stopped_fields_other).
  apply lookup_union_r. unfold active_fields.
  by rewrite lookup_insert_ne, lookup_singleton_ne.
Qed.

(** When the adapter of a channel crashes the gateway records it: with a
    store that answers, the channel's adapter, task and cache entries are
    dropped and [get_channel_status] reports [error] with the message
    ["Adapter crashed unexpectedly"].  When the store fails on that update
    the exception leaves the handler before the references are dropped:
    the crashed adapter stays registered. *)
Theorem adapter_crash_recorded (w : world) (id : string) (row : dict) :
  channels (db w) !! id = Some row →
  let r := adapter_crashed id w in
  (faults w = [] →
   r.1 = Ok tt ∧
   _adapters r.2 !! id = None ∧ _tasks r.2 !! id = None ∧
   _channel_cache r.2 !! id = None ∧
   ∃ d, get_channel_status id r.2 = (Ok d, r.2) ∧
        d !! "status" = Some (PStr "error") ∧
        d !! "error_message" = Some (PStr "Adapter crashed unexpectedly")) ∧
  (∀ fs, faults w = true :: fs →
   r.1 = Raise StoreError ∧
   _adapters r.2 = _adapters w ∧ _tasks r.2 = _tasks w ∧
   _channel_cache r.2 = _channel_cache w ∧ db r.2 = db w).
Proof.
  intros Hrow r. subst r. unfold adapter_crashed. split.
  - intros Hf.
    erewrite bind_ok by (by apply (db_update_some Channels _ _ _ row)).
    rewrite !bind_modify. unfold modify. cbn [fst snd]. wsimpl.
    rewrite !lookup_delete_eq. do 4 (split; [done|]).
    rewrite status_idle;
      [|done|wsimpl; apply lookup_delete_eq
       |wsimpl; by rewrite lookup_delete_eq].
    wsimpl. rewrite lookup_insert_eq.
    rewrite (non_empty_union _ _ _ _ (error_fields_status _)).
    eexists. split; [reflexivity|]. split.
    + rewrite status_record_status. f_equal. unfold get_or.
      by rewrite (lookup_union_Some_l _ _ _ _ (error_fields_status _)).
    + rewrite status_record_error. f_equal. unfold get.
      by rewrite (lookup_union_Some_l _ _ _ _ (error_fields_message _)).
  - intros fs Hf.
    erewrite bind_raise.
    2:{ unfold db_update. erewrite bind_raise; [reflexivity|].
        by rewrite (store_call_next true fs w Hf). }
    done.
Qed.

(** *** Shutting down *)

Lemma stop_channel_frame (w : world) (id : string) :
  ∃ r w', stop_channel id w = (r, w') ∧
    _adapters w' = delete id (_adapters w) ∧
    _channel_cache w' = delete id (_channel_cache w) ∧
    _windows w' = _windows w.
Proof.
  unfold stop_channel.
  rewrite bind_get, !bind_modify.
  set (w1 := set_channel_cache (delete id) _).
  assert (∃ w2, (match _adapters w !! id with
                 | Some a => try_except (lift (ad_stop a)) (λ _, mret tt)
                 | None => mret tt
                 end) w1 = (Ok tt, w2) ∧ w2 = w1) as (w2 & Hs & ->).
  { destruct (_adapters w !! id) as [a|]; [|by eexists].
    unfold try_except, lift. destruct (ad_stop a) as [[]|e]; by eexists. }
  erewrite bind_ok by exact Hs.
  unfold db_update. rewrite bind_assoc.
  unfold mbind at 1, M_bind at 1, store_call.
  destruct (faults w1) as [|[] fs].
  - rewrite bind_assoc, bind_get.
    destruct (t_get Channels (db w1) !! id);
      eexists _, _; (split; [reflexivity|done]).
  - eexists _, _. split; [reflexivity|done].
  - rewrite bind_assoc, bind_get.
    destruct (t_get Channels (db (set_faults fs w1)) !! id);
      eexists _, _; (split; [reflexivity|done]).
Qed.

Lemma stop_all_frame (ids : list string) (w : world) :
  ∃ w', stop_all ids w = (Ok tt, w') ∧
    (∀ id, _adapters w' !! id
           = if decide (id ∈ ids) then None else _adapters w !! id) ∧
    _windows w' = _windows w.
Proof.
  revert w. induction ids as [|id0 ids IH]; intros w.
  - exists w. split; [done|]. split; [|done]. intros id.
    by rewrite decide_False by apply not_elem_of_nil.
  - destruct (stop_channel_frame w id0) as (r & w1 & Hs & Ha & _ & Hw).
    destruct (IH w1) as (w' & Hr & Ha' & Hw').
    exists w'. split.
    + cbn [stop_all].
      assert (try_except (stop_channel id0) (λ _, mret tt) w = (Ok tt, w1))
        as Ht by (unfold try_except; rewrite Hs; by destruct r as [[]|]).
      by rewrite (bind_ok _ _ _ _ _ Ht).
    + split; [|congruence]. intros id. rewrite Ha', Ha.
      destruct (decide (id = id0)) as [->|Hne].
      * rewrite lookup_delete_eq. rewrite (decide_True (P := id0 ∈ id0 :: ids))
          by (by left). by destruct (decide _).
      * rewrite lookup_delete_ne by done.
        destruct (decide (id ∈ ids)) as [Hin|Hin].
        -- by rewrite decide_True by (by right).
        -- rewrite decide_False; [done|]. set_solver.
Qed.

Lemma stop_all_reliable (ids : list string) (w : world) :
  faults w = [] →
  ∃ w', stop_all ids w = (Ok tt, w') ∧ faults w' = [] ∧
    ∀ id row, channels (db w) !! id = Some row →
      ∃ row', channels (db w') !! id = Some row' ∧
        (id ∈ ids → row' !! "status" = Some (PStr "inactive") ∧
                    row' !! "error_message" = Some PNone) ∧
        (id ∉ ids → row' = row).
Proof.
  revert w. induction ids as [|id0 ids IH]; intros w Hf.
  - exists w. split; [done|]. split; [done|]. intros id row Hrow.
    exists row. split; [done|]. split; [|done].
    intros H. by apply elem_of_nil in H.
  - pose proof (stop_channel_any w id0 Hf) as Hs. cbv zeta in Hs.
    set (w1 := match channels (db w) !! id0 with
               | Some row => _ | None => _ end) in Hs.
    assert (faults w1 = []) as Hf1
      by (unfold w1; by destruct (channels (db w) !! id0)).
    destruct (IH w1 Hf1) as (w' & Hr & Hf' & Hrows).
    exists w'. split.
    + cbn [stop_all]. erewrite bind_ok; [exact Hr|].
      unfold try_except. by rewrite Hs.
    + split; [done|]. intros id row Hrow.
      destruct (decide (id = id0)) as [->|Hne].
      * assert (channels (db w1) !! id0 = Some (stopped_fields ∪ row)) as H1.
        { unfold w1. rewrite Hrow. wsimpl. apply lookup_insert_eq. }
        destruct (Hrows _ _ H1) as (row' & Hrow' & Hin & Hout).
        exists row'. split; [done|]. split; [|set_solver].
        intros _. destruct (decide (id0 ∈ ids)) as [Hi|Hi]; [by apply Hin|].
        rewrite (Hout Hi).
        split; [apply lookup_union_Some_l, stopped_fields_status
               |apply lookup_union_Some_l, stopped_fields_error_message].
      * assert (channels (db w1) !! id = Some row) as H1.
        { unfold w1. destruct (channels (db w) !! id0); wsimpl;
            [by rewrite lookup_insert_ne|done]. }
        destruct (Hrows _ _ H1) as (row' & Hrow' & Hin & Hout).
        exists row'. split; [done|]. split.
        -- intros [?|?]%elem_of_cons; [done|by apply Hin].
        -- intros Hn. apply Hout. set_solver.
Qed.

(** [shutdown] never raises and leaves no adapter registered, an empty
    cache and an empty rate limiter, whatever the store and the adapters
    do.  With a store that answers, every channel that was running and
    has a record ends [inactive], without error message. *)
Theorem shutdown_stops_everything (w : world) :
  ∃ w', shutdown w = (Ok tt, w') ∧
    _adapters w' = ∅ ∧ _channel_cache w' = ∅ ∧ _windows w' = ∅ ∧
    (faults w = [] →
     ∀ id a row, _adapters w !! id = Some a →
       channels (db w) !! id = Some row →
       ∃ row', channels (db w') !! id = Some row' ∧
         row' !! "status" = Some (PStr "inactive") ∧
         row' !! "error_message" = Some PNone).
Proof.
  unfold shutdown. rewrite bind_get.
  set (ids := (map_to_list (_adapters w)).*1).
  assert (∀ id, id ∈ ids ↔ is_Some (_adapters w !! id)) as Hids.
  { intros id. unfold ids. rewrite list_elem_of_fmap. split.
    - intros ([k a] & -> & Hin). apply elem_of_map_to_list in Hin. eauto.
    - intros [a Ha]. exists (id, a). split; [done|].
      by apply elem_of_map_to_list. }
  destruct (stop_all_frame ids w) as (w1 & Hr & Ha & Hw).
  erewrite bind_ok by exact Hr.
  rewrite bind_get, bind_modify. unfold modify.
  eexists. split; [reflexivity|]. wsimpl.
  split.
  { apply map_eq. intros id. rewrite Ha, lookup_empty.
    destruct (decide (id ∈ ids)) as [Hin|Hin]; [done|].
    destruct (_adapters w !! id) eqn:Hl; [|done].
    exfalso. apply Hin, Hids. eauto. }
  split; [done|]. split; [done|].
  intros Hf id a row Hid Hrow.
  destruct (stop_all_reliable ids w Hf) as (w1' & Hr' & _ & Hrows).
  rewrite Hr in Hr'. injection Hr' as <-.
  destruct (Hrows id row Hrow) as (row' & Hrow' & Hin & _).
  exists row'. split; [done|]. apply Hin, Hids. eauto.
Qed.

End ChannelLife.

Section ChannelLifeRuns.
Import Runtime Gateway Lifecycle GatewayExamples.

Lemma has_key_nonempty (d : dict) k v : d !! k = Some v → d ≠ ∅.
Proof. intros H ->. by rewrite lookup_empty in H. Qed.

Lemma stop_channel_then_status_witness :
  (stop_channel "c1" running_world).1 = Ok tt ∧
  _adapters (stop_channel "c1" running_world).2 !! "c1" = None.
Proof.
  destruct (stop_channel_then_status running_world "c1" crashed_channel
              eq_refl eq_refl) as (H1 & H2 & _).
  split; [exact H1|exact H2].
Defined.

Lemma start_channel_without_adapter_class_witness :
  ∃ msg w',
    start_channel sample_env demo_registry "c2" lifecycle_world
      = (Raise (ValueError msg), w') ∧
    _adapters w' = ∅ ∧
    (channels (db w') !! "c2" ≫= (.!! "status")) = Some (PStr "error").
Proof.
  destruct (start_channel_without_adapter_class sample_env demo_registry
              lifecycle_world "c2" telegram_channel eq_refl eq_refl eq_refl
              (has_key_nonempty telegram_channel "id" (PStr "c2") eq_refl) eq_refl)
    as (msg & w' & row' & H1 & H2 & _ & _ & H3 & H4 & _).
  exists msg, w'. split; [exact H1|]. split; [exact H2|].
  rewrite H3. exact H4.
Defined.

Lemma start_channel_registers_adapter_witness :
  ∃ w' d,
    start_channel sample_env demo_registry "c3" lifecycle_world
      = (Ok tt, w') ∧
    get_channel_status "c3" w' = (Ok d, w') ∧
    d !! "status" = Some (PStr "active") ∧
    d !! "error_message" = Some (PStr "Adapter crashed unexpectedly").
Proof.
  destruct (start_channel_registers_adapter sample_env demo_registry
              lifecycle_world "c3" feishu_channel feishu_class PNone
              eq_refl eq_refl eq_refl
              (has_key_nonempty feishu_channel "id" (PStr "c3") eq_refl) eq_refl eq_refl)
    as (w' & row' & d & H1 & _ & _ & _ & _ & _ & _ & H2 & H3 & H4).
  exists w', d. split; [exact H1|]. split; [exact H2|].
  split; [exact H3|exact H4].
Defined.

Lemma start_then_stop_channel_witness :
  ∃ w1 w2,
    start_channel sample_env demo_registry "c3" lifecycle_world
      = (Ok tt, w1) ∧
    stop_channel "c3" w1 = (Ok tt, w2) ∧
    _adapters w2 = ∅ ∧
    (channels (db w2) !! "c3" ≫= (.!! "status")) = Some (PStr "inactive").
Proof.
  destruct (start_then_stop_channel sample_env demo_registry
              lifecycle_world "c3" feishu_channel feishu_class PNone
              eq_refl eq_refl eq_refl
              (has_key_nonempty feishu_channel "id" (PStr "c3") eq_refl) eq_refl eq_refl)
    as (w1 & w2 & row2 & H1 & H2 & H3 & _ & _ & H4 & H5 & _).
  exists w1, w2. split; [exact H1|]. split; [exact H2|].
  split; [exact H3|]. rewrite H4. exact H5.
Defined.

Lemma adapter_crash_recorded_witness :
  (adapter_crashed "c1" running_world).1 = Ok tt ∧
  _adapters (adapter_crashed "c1" running_world).2 !! "c1" = None ∧
  (adapter_crashed "c1" (set_faults [true] running_world)).1
    = Raise StoreError ∧
  _adapters (adapter_crashed "c1" (set_faults [true] running_world)).2
    = _adapters running_world.
Proof.
  destruct (adapter_crash_recorded running_world "c1" crashed_channel
              eq_refl) as [H _].
  destruct (H eq_refl) as (H1 & H2 & _).
  destruct (adapter_crash_recorded (set_faults [true] running_world) "c1"
              crashed_channel eq_refl) as [_ H'].
  destruct (H' [] eq_refl) as (H3 & H4 & _).
  split; [exact H1|]. split; [exact H2|]. split; [exact H3|exact H4].
Defined.

Lemma shutdown_stops_everything_witness :
  ∃ w', shutdown running_world = (Ok tt, w') ∧ _adapters w' = ∅ ∧
    (channels (db w') !! "c1" ≫= (.!! "status")) = Some (PStr "inactive").
Proof.
  destruct (shutdown_stops_everything running_world)
    as (w' & H1 & H2 & _ & _ & H3).
  destruct (H3 eq_refl "c1" stubborn crashed_channel eq_refl eq_refl)
    as (row' & Hrow' & Hst & _).
  exists w'. split; [exact H1|]. split; [exact H2|].
  rewrite Hrow'. exact Hst.
Defined.

End ChannelLifeRuns.

(** ** The message pipeline *)

Section PipelineFrames.
Import Runtime Gateway Pipeline.
Variable E : env.

Lemma calm_refl w : calm w w.
Proof. done. Qed.

Lemma calm_trans w1 w2 w3 : calm w1 w2 → calm w2 w3 → calm w1 w3.
Proof. intros [H1 H2] [H3 H4]. split; congruence. Qed.

Lemma Sure_Calm {A} (m : M A) : Sure m → Calm m.
Proof. intros H w. destruct (H w) as (a & w' & Hr & Hc). eauto. Qed.

Lemma Calm_ret {A} (a : A) : Calm (mret a : M A).
Proof. intros w. by eexists _, w. Qed.

Lemma Sure_ret {A} (a : A) : Sure (mret a : M A).
Proof. intros w. by eexists _, w. Qed.

Lemma Calm_raise {A} (e : exn) : Calm (raise e : M A).
Proof. intros w. by eexists _, w. Qed.

Lemma Calm_lift {A} (r : result A) : Calm (lift r).
Proof. intros w. by eexists _, w. Qed.

Lemma Sure_get_world : Sure get_world.
Proof. intros w. by eexists _, w. Qed.

Lemma Sure_next_tick : Sure next_tick.
Proof. intros w. by eexists _, _. Qed.

Lemma Sure_modify (f : world → world) :
  (∀ w, calm w (f w)) → Sure (modify f).
Proof. intros H w. eexists _, _. split; [reflexivity|apply H]. Qed.

Lemma Calm_bind {A B} (m : M A) (k : A → M B) :
  Calm m → (∀ a, Calm (k a)) → Calm (m ≫= k).
Proof.
  intros Hm Hk w. destruct (Hm w) as ([a|e] & w1 & Hr & Hc).
  - destruct (Hk a w1) as (r & w2 & Hr2 & Hc2).
    exists r, w2. split; [by rewrite (bind_ok _ _ _ _ _ Hr)|].
    by eapply calm_trans.
  - exists (Raise e), w1. split; [by rewrite (bind_raise _ _ _ _ _ Hr)|done].
Qed.

Lemma Sure_bind {A B} (m : M A) (k : A → M B) :
  Sure m → (∀ a, Sure (k a)) → Sure (m ≫= k).
Proof.
  intros Hm Hk w. destruct (Hm w) as (a & w1 & Hr & Hc).
  destruct (Hk a w1) as (b & w2 & Hr2 & Hc2).
  exists b, w2. split; [by rewrite (bind_ok _ _ _ _ _ Hr)|].
  by eapply calm_trans.
Qed.

Lemma Calm_try {A} (m : M A) (h : exn → M A) :
  Calm m → (∀ e, Calm (h e)) → Calm (try_except m h).
Proof.
  intros Hm Hh w. destruct (Hm w) as ([a|e] & w1 & Hr & Hc).
  - exists (Ok a), w1. split; [by apply try_except_ok|done].
  - destruct (Hh e w1) as (r & w2 & Hr2 & Hc2).
    exists r, w2. split; [by rewrite (try_except_raise _ _ _ _ _ Hr)|].
    by eapply calm_trans.
Qed.

Lemma Sure_try {A} (m : M A) (h : exn → M A) :
  Calm m → (∀ e, Sure (h e)) → Sure (try_except m h).
Proof.
  intros Hm Hh w. destruct (Hm w) as ([a|e] & w1 & Hr & Hc).
  - exists a, w1. split; [by apply try_except_ok|done].
  - destruct (Hh e w1) as (b & w2 & Hr2 & Hc2).
    exists b, w2. split; [by rewrite (try_except_raise _ _ _ _ _ Hr)|].
    by eapply calm_trans.
Qed.

Lemma Calm_store_call : Calm store_call.
Proof.
  intros w. unfold store_call.
  destruct (faults w) as [|[] fs]; by eexists _, _.
Qed.

Lemma Calm_db_get T id : Calm (db_get T id).
Proof.
  unfold db_get. apply Calm_bind; [apply Calm_store_call|]. intros _.
  apply Calm_bind; [apply Sure_Calm, Sure_get_world|]. intros w.
  apply Calm_ret.
Qed.

Lemma Calm_db_update T id upd : Calm (db_update T id upd).
Proof.
  unfold db_update. apply Calm_bind; [apply Calm_store_call|]. intros _.
  apply Calm_bind; [apply Sure_Calm, Sure_get_world|]. intros w.
  destruct (t_get T (db w) !! id); [|apply Calm_ret].
  apply Calm_bind; [by apply Sure_Calm, Sure_modify|]. intros _.
  apply Calm_ret.
Qed.

Lemma Calm_db_put T row : Calm (db_put E T row).
Proof.
  unfold db_put. apply Calm_bind; [apply Calm_store_call|]. intros _.
  apply Calm_bind.
  - destruct (row !! "id") as [[]|]; try apply Calm_ret;
      (apply Calm_bind; [apply Sure_Calm, Sure_next_tick|]; intros n;
       apply Calm_ret).
  - intros [id row']. apply Calm_bind; [by apply Sure_Calm, Sure_modify|].
    intros _. apply Calm_ret.
Qed.

(** Writing to the audit log is best effort. *)
Lemma Sure_log_message (row : dict) :
  Sure (try_except (_ ← db_put E ChannelMessages row; mret tt)
                   (λ _, mret tt)).
Proof.
  apply Sure_try; [|intros _; apply Sure_ret].
  apply Calm_bind; [apply Calm_db_put|]. intros _. apply Calm_ret.
Qed.

Lemma Sure_stage_all agent atts : Sure (stage_all E agent atts).
Proof.
  induction atts as [|a atts IH]; cbn [stage_all]; [apply Sure_ret|].
  destruct (negb _); [done|].
  apply Sure_bind; [apply Sure_next_tick|]. intros n.
  apply Sure_bind; [done|]. intros lines. apply Sure_ret.
Qed.

Lemma Sure_prepare_message_text msg agent :
  Sure (_prepare_message_text E msg agent).
Proof.
  unfold _prepare_message_text.
  destruct (in_attachments msg) as [|a atts]; [apply Sure_ret|].
  apply Sure_bind; [apply Sure_stage_all|]. intros lines.
  destruct lines; apply Sure_ret.
Qed.

Lemma Calm_on_event cs (event : dict) (c : conversation) :
  Calm (on_event E cs event c).
Proof.
  unfold on_event.
  destruct (eq_str _ "assistant").
  { apply Calm_bind; [apply Calm_lift|]. intros l.
    apply Calm_bind; [apply Calm_lift|]. intros t. apply Calm_ret. }
  destruct (eq_str _ "session_start").
  { destruct (truthy _ && negb _); [|apply Calm_ret].
    apply Calm_bind; [|intros _; apply Calm_ret].
    apply Calm_try; [|intros _; apply Calm_ret].
    destruct cs; try apply Calm_raise.
    apply Calm_bind; [apply Calm_db_update|]. intros _. apply Calm_ret. }
  destruct (eq_str _ "result").
  { apply Calm_bind.
    - destruct (truthy _); [apply Calm_lift|apply Calm_ret].
    - intros []; apply Calm_ret. }
  destruct (eq_str _ "error"); apply Calm_ret.
Qed.

Lemma Calm_consume cs (events : list dict) (c : conversation) :
  Calm (consume E cs events c).
Proof.
  revert c. induction events as [|event events IH]; intros c;
    cbn [consume]; [apply Calm_ret|].
  apply Calm_bind; [apply Calm_on_event|]. intros c'. apply IH.
Qed.

(** The conversation with the engine never raises: what goes wrong in it
    becomes an apology. *)
Lemma Sure_converse call cs sid : Sure (converse E call cs sid).
Proof.
  unfold converse. apply Sure_try; [|intros _; apply Sure_ret].
  apply Calm_bind; [apply Sure_Calm, Sure_next_tick|]. intros n.
  apply Calm_bind; [by apply Sure_Calm, Sure_modify|]. intros _.
  destruct (run_conversation E n call) as [events failure].
  apply Calm_bind; [apply Calm_consume|]. intros c.
  destruct failure; [apply Calm_raise|apply Calm_ret].
Qed.

Lemma Sure_update_counters cs (err : bool) : Sure (update_counters E cs err).
Proof.
  unfold update_counters. apply Sure_try; [|intros _; apply Sure_ret].
  apply Calm_bind; [apply Sure_Calm, Sure_next_tick|]. intros n.
  apply Calm_bind; [apply Calm_lift|]. intros id.
  apply Calm_bind.
  - destruct (negb err); [|apply Calm_ret].
    apply Calm_bind; [apply Calm_db_get|]. intros existing.
    apply Calm_bind; [apply Calm_lift|]. intros count. apply Calm_ret.
  - intros updates. apply Calm_bind; [apply Calm_db_update|].
    intros _. apply Calm_ret.
Qed.

(** Once a message is admitted and its session resolved, the exchange
    with the agent always answers, whatever the store, the engine or the
    adapter do (the channel's configuration being a dictionary): it never
    raises, and when an adapter is registered for the channel exactly one
    message is handed to it, addressed to the chat, thread and message it
    answers, with a text that is never empty. *)
Theorem exchange_always_replies (msg : InboundMessage) (channel : dict)
    (agent sid cs : pyval) (is_new : bool) (w : world) :
  config_is_dict E channel →
  ∃ w' reply,
    exchange E msg channel agent sid cs is_new w = (Ok tt, w') ∧
    _adapters w' = _adapters w ∧
    out_text (reply_to msg reply) ≠ "" ∧
    outbox w' = outbox w ++
      (if bool_decide (is_Some (_adapters w !! in_channel_id msg))
       then [reply_to msg reply] else []).
Proof.
  intros [cfg Hcfg]. unfold exchange. rewrite bind_next_tick.
  set (w0 := set_tick (S (tick w)) w).
  edestruct Sure_log_message as (u1 & w1 & R1 & C1).
  erewrite bind_ok by exact R1. clear R1.
  rewrite Hcfg. cbn [val_get]. rewrite !bind_lift_ok.
  destruct (Sure_prepare_message_text msg agent w1) as (text & w2 & R2 & C2).
  erewrite bind_ok by exact R2. clear R2.
  edestruct Sure_converse as (c & w3 & R3 & C3).
  erewrite bind_ok by exact R3. clear R3. rewrite bind_get.
  assert (calm w w3) as C03.
  { apply (calm_trans _ w0); [done|]. apply (calm_trans _ w1); [done|].
    by apply (calm_trans _ w2). }
  fold (reply_to msg (reply_text c)).
  set (o := reply_to msg (reply_text c)).
  assert (∃ v w4,
            (match _adapters w3 !! in_channel_id msg with
             | Some a =>
                 _ ← modify (add_outbox o);
                 try_except (lift (ad_send a o)) (λ _, mret PNone)
             | None => mret PNone
             end) w3 = (Ok v, w4) ∧
            _adapters w4 = _adapters w ∧
            outbox w4 = outbox w ++
              (if bool_decide (is_Some (_adapters w !! in_channel_id msg))
               then [o] else [])) as (v & w4 & R4 & A4 & O4).
  { destruct C03 as [Ho Ha]. rewrite Ha.
    destruct (_adapters w !! in_channel_id msg) as [a|].
    - rewrite bool_decide_eq_true_2 by eauto.
      rewrite bind_modify. unfold try_except, lift.
      destruct (ad_send a o) as [v|e]; eexists _, _;
        (split; [reflexivity|]); wsimpl; by rewrite Ho.
    - rewrite bool_decide_eq_false_2 by (by intros [? ?]).
      eexists _, w3. split; [reflexivity|]. by rewrite app_nil_r. }
  erewrite bind_ok by exact R4. clear R4.
  rewrite bind_next_tick.
  edestruct Sure_log_message as (u5 & w5 & R5 & C5).
  erewrite bind_ok by exact R5. clear R5.
  rewrite bind_modify.
  edestruct Sure_update_counters as ([] & w6 & R6 & C6).
  rewrite R6. clear R6.
  exists w6, (reply_text c). split; [done|].
  destruct C5 as [O5 A5]. destruct C6 as [O6 A6].
  wsimpl in O5. wsimpl in A5. wsimpl in O6. wsimpl in A6.
  split; [by rewrite A6, A5, A4|]. split.
  - unfold reply_to. cbn [out_text].
    destruct (decide (reply_text c = "")) as [Hr|Hr].
    + by rewrite bool_decide_eq_true_2.
    + by rewrite bool_decide_eq_false_2.
  - by rewrite O6, O5, O4.
Qed.

(** When the engine's stream raises, whatever came before, the
    conversation ends with the apology as its reply and is marked as
    errored; nothing is raised and nothing is sent on the way. *)
Theorem converse_turns_failure_into_apology (call : engine_call)
    (cs sid : pyval) (w : world) (events : list dict) (e : exn) :
  run_conversation E (tick w) call = (events, Some e) →
  ∃ w',
    converse E call cs sid w =
      (Ok (mkConv
             "Sorry, an unexpected error occurred. Please try again later."
             sid true), w') ∧
    calm w w'.
Proof.
  intros Hrun. unfold converse.
  destruct (Calm_consume cs events (mkConv "" sid false)
              (add_engine_call call (set_tick (S (tick w)) w)))
    as (r & w1 & Hr & Hc).
  exists w1. split; [|done].
  destruct r as [c|e'].
  - erewrite try_except_raise; [reflexivity|].
    rewrite bind_next_tick, bind_modify, Hrun. cbv iota beta.
    by rewrite (bind_ok _ _ _ _ _ Hr).
  - erewrite try_except_raise; [reflexivity|].
    rewrite bind_next_tick, bind_modify, Hrun. cbv iota beta.
    by rewrite (bind_raise _ _ _ _ _ Hr).
Qed.

End PipelineFrames.


(** ** Messages that are turned away *)

Section Admission.
Import Runtime Gateway Pipeline.
Variable E : env.

(** A message for a cached channel that has no agent, or whose sender
    the access control turns away, is dropped: [handle_inbound_message]
    returns without a trace, nothing is stored, sent or counted and the
    engine is not called. *)
Theorem denied_message_is_dropped (msg : InboundMessage) (channel : dict)
    (w : world) :
  non_empty (_channel_cache w !! in_channel_id msg) = Some channel →
  truthy (get channel "agent_id") = false
  ∨ Access._check_access (json_loads E) channel (in_external_sender_id msg)
    = Ok false →
  handle_inbound_message E msg w = (Ok tt, w).
Proof.
  intros Hc Hd.
  assert (admission E msg w = (Ok None, w)) as Hadm.
  { unfold admission. rewrite bind_get, Hc. cbv iota. rewrite bind_ret.
    cbv beta iota zeta.
    destruct (truthy (get channel "agent_id")) eqn:Ha; cbn [negb]; [|done].
    destruct Hd as [Hd|Hd]; [done|].
    rewrite Hd, bind_lift_ok. done. }
  unfold handle_inbound_message. by rewrite (bind_ok _ _ _ _ _ Hadm).
Qed.

(** A message of an allowed sender who is over the channel's rate limit
    (the sender's window, cut to the last 60 seconds, already holds as many
    readings as the limit) is answered by the notice and nothing else: the
    notice is handed to the channel's adapter when there is one, whether
    sending succeeds or not; the store and the adapters stay as they were,
    the engine is not called, and the sender's window is only cut. *)
Theorem over_limit_message_gets_notice (msg : InboundMessage)
    (channel : dict) (w : world) (limit : Z) :
  non_empty (_channel_cache w !! in_channel_id msg) = Some channel →
  truthy (get channel "agent_id") = true →
  Access._check_access (json_loads E) channel (in_external_sender_id msg)
    = Ok true →
  as_int (get_or channel "rate_limit_per_minute" (PInt 10)) = Ok limit →
  0 < limit →
  let recent :=
    filter (λ ts, (time_time E (tick w) - 60 < ts)%Q)
      (RateLimiter.window_of (in_external_sender_id msg) (_windows w)) in
  limit ≤ Z.of_nat (length recent) →
  ∃ w',
    handle_inbound_message E msg w = (Ok tt, w') ∧
    db w' = db w ∧ engine_log w' = engine_log w ∧
    _adapters w' = _adapters w ∧
    _windows w' = <[in_external_sender_id msg := recent]> (_windows w) ∧
    outbox w' = outbox w ++
      (if bool_decide (is_Some (_adapters w !! in_channel_id msg))
       then [rate_limit_notice msg] else []).
Proof.
  intros Hc Ha Hok Hlim Hpos recent Hfull.
  assert (∃ w', admission E msg w = (Ok None, w') ∧
            db w' = db w ∧ engine_log w' = engine_log w ∧
            _adapters w' = _adapters w ∧
            _windows w' = <[in_external_sender_id msg := recent]> (_windows w) ∧
            outbox w' = outbox w ++
              (if bool_decide (is_Some (_adapters w !! in_channel_id msg))
               then [rate_limit_notice msg] else []))
    as (w' & Hadm & Hrest).
  { unfold admission. rewrite bind_get, Hc. cbv iota. rewrite bind_ret.
    cbv beta iota zeta. rewrite Ha. cbn [negb]. rewrite Hok, bind_lift_ok.
    cbn [negb]. unfold rate_limiter_is_allowed.
    rewrite Hlim, bind_assoc, bind_lift_ok.
    rewrite decide_False by lia.
    rewrite !bind_assoc, bind_next_tick, !bind_assoc, bind_get.
    unfold RateLimiter.is_allowed. rewrite decide_False by lia.
    cbv zeta. cbn [_windows set_tick].
    change (default [] (_windows w !! in_external_sender_id msg))
      with (RateLimiter.window_of (in_external_sender_id msg) (_windows w)).
    fold recent. rewrite decide_True by done.
    rewrite !bind_assoc, bind_modify, bind_ret, bind_get.
    cbn [_adapters set_windows set_tick].
    destruct (_adapters w !! in_channel_id msg) as [a|] eqn:Had.
    - rewrite bool_decide_eq_true_2 by eauto.
      rewrite !bind_assoc, bind_modify. unfold try_except, lift.
      unfold mbind, M_bind, mret, M_ret.
      destruct (ad_send a _); eexists; (split; [reflexivity|done]).
    - rewrite bool_decide_eq_false_2 by (by intros [? ?]).
      rewrite bind_ret. eexists. split; [reflexivity|].
      cbn. by rewrite app_nil_r. }
  exists w'. split; [|exact Hrest].
  unfold handle_inbound_message. by rewrite (bind_ok _ _ _ _ _ Hadm).
Qed.

End Admission.

Section PipelineRuns.
Import Runtime Gateway Pipeline GatewayExamples.

Lemma exchange_always_replies_witness :
  ∃ w',
    exchange sample_env hi_msg crashed_channel (PStr "a1") (PStr "s0")
      (PStr "cs0") true guarded_world = (Ok tt, w') ∧
    outbox w' = [reply_to hi_msg "hello"].
Proof.
  destruct (exchange_always_replies sample_env hi_msg crashed_channel
              (PStr "a1") (PStr "s0") (PStr "cs0") true guarded_world)
    as (w' & reply & H1 & _ & _ & H2).
  - exists ∅. reflexivity.
  - exists w'. split; [exact H1|].
    assert (w' = (exchange sample_env hi_msg crashed_channel (PStr "a1")
                    (PStr "s0") (PStr "cs0") true guarded_world).2) as ->
      by (by rewrite H1).
    vm_compute. reflexivity.
Defined.

Lemma converse_turns_failure_into_apology_witness :
  let failing : env :=
    mkEnv (uuid4_str sample_env) (uuid4_hex sample_env)
          (time_time sample_env) (now_isoformat sample_env)
          (λ n call, ((sample_engine n call).1, Some EngineError))
          (stage_file sample_env) (json_loads sample_env)
          (py_str sample_env) in
  (converse failing
     (mkCall (PStr "a1") (PStr "hi") PNone PNone false false PNone None)
     (PStr "cs0") (PStr "s0") idle_world).1
  = Ok (mkConv "Sorry, an unexpected error occurred. Please try again later."
          (PStr "s0") true).
Proof.
  intros failing.
  destruct (converse_turns_failure_into_apology failing
              (mkCall (PStr "a1") (PStr "hi") PNone PNone false false PNone
                 None)
              (PStr "cs0") (PStr "s0") idle_world _ EngineError eq_refl)
    as (w' & H & _).
  by rewrite H.
Defined.

Lemma denied_message_is_dropped_witness :
  handle_inbound_message sample_env stranger_msg guarded_world
  = (Ok tt, guarded_world).
Proof.
  apply (denied_message_is_dropped sample_env stranger_msg guarded_channel).
  - vm_compute. reflexivity.
  - right. vm_compute. reflexivity.
Defined.

Lemma over_limit_message_gets_notice_witness :
  ∃ w',
    handle_inbound_message sample_env hi_msg busy_world = (Ok tt, w') ∧
    engine_log w' = [] ∧
    outbox w' = [rate_limit_notice hi_msg].
Proof.
  destruct (over_limit_message_gets_notice sample_env hi_msg guarded_channel
              busy_world 1)
    as (w' & H1 & _ & H2 & _ & _ & H3).
  - vm_compute. reflexivity.
  - reflexivity.
  - vm_compute. reflexivity.
  - reflexivity.
  - lia.
  - vm_compute. discriminate.
  - exists w'. split; [exact H1|]. split; [exact H2|]. exact H3.
Defined.

End PipelineRuns.
